(** * The logging subsystem of the firmware: category filters, log manager
      and configuration requests (wiring/src/spark_wiring_logging.cpp).

    A C string is represented by the bytes that precede its terminating NUL
    (a value of type [string]); a null [const char*] is [None].  Object
    addresses are natural numbers.  Memory allocation can fail: every
    allocating primitive asks an oracle, a list of booleans consumed from the
    left, and succeeds once the list is used up. *)

From Stdlib Require Import ZArith List String Ascii Bool Lia Arith Sorted.
Import ListNotations.
Local Open Scope string_scope.
Local Open Scope list_scope.
Local Open Scope Z_scope.
#[local] Set Warnings "-register-all".

(** ** Logging levels *)

Definition LogLevel := Z.

(** Modelled from the spec: the [LogLevel] enumeration is declared in
    services/inc/logging.h, which is not among the sources.  The values keep
    the order TRACE < INFO < WARN < ERROR < PANIC, with ALL the most permissive
    and NONE the least permissive level. *)
Definition LOG_LEVEL_ALL : LogLevel := 1.
Definition LOG_LEVEL_TRACE : LogLevel := 1.
Definition LOG_LEVEL_INFO : LogLevel := 30.
Definition LOG_LEVEL_WARN : LogLevel := 40.
Definition LOG_LEVEL_ERROR : LogLevel := 50.
Definition LOG_LEVEL_PANIC : LogLevel := 60.
Definition LOG_LEVEL_NONE : LogLevel := 70.

(** ** Fixed-width integers of the node structure *)

Definition to_uint16 (z : Z) : Z := z mod 65536.
Definition to_int16 (z : Z) : Z := (z + 32768) mod 65536 - 32768.

(** ** Allocation oracle *)

Definition Heap := list bool.

Definition M (A : Type) : Type := Heap -> option A * Heap.

Definition ret {A : Type} (a : A) : M A := fun h => (Some a, h).

Definition bind {A B : Type} (m : M A) (k : A -> M B) : M B :=
  fun h => match m h with
           | (Some a, h') => k a h'
           | (None, h') => (None, h')
           end.

Notation "x <- m ;; k" := (bind m (fun x => k))
  (at level 61, m at next level, right associativity).

(** One allocation request: [None] is the failure of the request. *)
Definition alloc : M unit :=
  fun h => match h with
           | [] => (Some tt, [])
           | b :: h' => (if b then Some tt else None, h')
           end.

(** ** C string primitives *)

Definition byte_of (c : ascii) : Z := Z.of_N (N_of_ascii c).

(** [strchrnul s c]: the bytes skipped and the string at the returned
    pointer (empty when the pointer is at the terminating NUL). *)
Fixpoint strchrnul (s : string) (c : ascii) : string * string :=
  match s with
  | EmptyString => (EmptyString, EmptyString)
  | String a r =>
      if Ascii.eqb a c then (EmptyString, s)
      else let '(skipped, rest) := strchrnul r c in (String a skipped, rest)
  end.

(** [strncmp s1 s2 n]: the end of a string reads as NUL. *)
Fixpoint strncmp (s1 s2 : string) (n : nat) : Z :=
  match n with
  | O => 0
  | S n' =>
      match s1, s2 with
      | EmptyString, EmptyString => 0
      | EmptyString, String c2 _ => 0 - byte_of c2
      | String c1 _, EmptyString => byte_of c1
      | String c1 r1, String c2 r2 =>
          if byte_of c1 =? byte_of c2 then strncmp r1 r2 n'
          else byte_of c1 - byte_of c2
      end
  end.

(** Iterates over subcategory names separated by '.': the name, its size and
    the advanced [category] pointer; [None] is [nullptr].  The returned name
    pointer is read for [size] bytes only, and is held as those bytes. *)
Definition nextSubcategoryName (category : string) : option (string * Z * string) :=
  let '(name, s) := strchrnul category "."%char in
  let size := Z.of_nat (String.length name) in
  if size =? 0 then None
  else
    let s' := match s with
              | EmptyString => s
              | String _ r => r
              end in
    Some (name, size, s').

Definition dot : ascii := "."%char.

Fixpoint no_dot (s : string) : Prop :=
  match s with
  | EmptyString => True
  | String a r => a <> dot /\ no_dot r
  end.

(** The three shapes of a category string and what the iterator returns. *)
Inductive category_shape (c : string) : Prop :=
| shape_end :
    nextSubcategoryName c = None -> (c = EmptyString \/ exists r, c = String dot r) ->
    category_shape c
| shape_last :
    no_dot c -> c <> EmptyString ->
    nextSubcategoryName c = Some (c, Z.of_nat (String.length c), EmptyString) ->
    category_shape c
| shape_more :
    forall n r, c = (n ++ String dot r)%string -> no_dot n -> n <> EmptyString ->
    nextSubcategoryName c = Some (n, Z.of_nat (String.length n), r) ->
    category_shape c.

(** ** LogFilter *)

Module Node.
Inductive t : Type :=
  mk { name : string;   (* subcategory name *)
       size : Z;        (* uint16_t: name length *)
       level : Z;       (* int16_t: logging level, -1 if not specified *)
       nodes : list t   (* children nodes *) }.

(** [Node(const char *name, uint16_t size)] *)
Definition new (name : string) (size : Z) : t :=
  mk name (to_uint16 size) (-1) [].
End Node.

Record LogCategoryFilter : Type :=
  { cat_ : option string;   (* [None]: a String whose buffer is null *)
    level_ : LogLevel }.

Definition LogCategoryFilters := list LogCategoryFilter.

Module Array.
(** Modelled from the spec: the growable array of spark_wiring_array.h is not
    among the sources.  [reserve] and [insert] report an allocation failure;
    elements are addressed by position. *)
Definition reserve (n : nat) : M unit :=
  match n with
  | O => ret tt
  | S _ => alloc
  end.

Definition insert {A : Type} (l : list A) (i : nat) (x : A) : M (list A) :=
  _ <- alloc ;; ret (firstn i l ++ x :: skipn i l).

Definition set {A : Type} (l : list A) (i : nat) (x : A) : list A :=
  firstn i l ++ x :: skipn (S i) l.
End Array.

Module LogFilter.

Record t : Type :=
  { cats_ : list (option string);   (* category names *)
    nodes_ : list Node.t;             (* root nodes *)
    level__ : LogLevel              (* default level *) }.

(** The comparator of [nodeIndex]: the result and the updated [found]. *)
Definition comp (node : Node.t) (value : string * Z) (found : bool) : bool * bool :=
  let cmp := strncmp (Node.name node) (fst value)
                     (Z.to_nat (Z.min (Node.size node) (snd value))) in
  if cmp =? 0 then
    if Node.size node =? snd value then (false, true)
    else (Node.size node <? snd value, found)
  else (cmp <? 0, found).

(** [std::lower_bound] as the standard library implements it: halving the
    range [first, first + len). *)
Fixpoint lower_bound (fuel : nat) (nodes : list Node.t) (value : string * Z)
    (first len : nat) (found : bool) : nat * bool :=
  match fuel with
  | O => (first, found)
  | S fuel' =>
      match len with
      | O => (first, found)
      | S _ =>
          let half := Nat.div2 len in
          let middle := (first + half)%nat in
          match nth_error nodes middle with
          | None => (first, found)
          | Some node =>
              let '(lt, found') := comp node value found in
              if lt then lower_bound fuel' nodes value (S middle) (len - half - 1) found'
              else lower_bound fuel' nodes value first half found'
          end
      end
  end.

(** Binary search for an existent node or the position of a new one. *)
Definition nodeIndex (nodes : list Node.t) (name : string) (size : Z) : nat * bool :=
  lower_bound (List.length nodes) nodes (name, size) 0 (List.length nodes) false.

(** The [while] loop of the constructor for one category string: [pNodes]
    is the array the loop stands in, and the arrays it has updated are
    rebuilt on the way back. *)
Fixpoint insert_loop (fuel : nat) (pNodes : list Node.t) (category : string)
    (lvl : LogLevel) : M (list Node.t) :=
  match fuel with
  | O => ret pNodes
  | S fuel' =>
      match nextSubcategoryName category with
      | None => ret pNodes
      | Some (name, size, category') =>
          let '(index, found) := nodeIndex pNodes name size in
          pNodes1 <- (if found then ret pNodes
                      else Array.insert pNodes index (Node.new name size)) ;;
          match nth_error pNodes1 index with
          | None => ret pNodes1
          | Some node =>
              let lvl1 := match category' with
                          | EmptyString => to_int16 lvl   (* last subcategory *)
                          | String _ _ => Node.level node
                          end in
              children <- insert_loop fuel' (Node.nodes node) category' lvl ;;
              ret (Array.set pNodes1 index
                     (Node.mk (Node.name node) (Node.size node) lvl1 children))
          end
      end
  end.

(** The [for] loop of the constructor over the stored category names. *)
Fixpoint process_filters (filters : LogCategoryFilters) (nodes : list Node.t) : M (list Node.t) :=
  match filters with
  | [] => ret nodes
  | filter :: rest =>
      match cat_ filter with
      | None => process_filters rest nodes   (* invalid usage or string allocation error *)
      | Some category =>
          nodes1 <- insert_loop (String.length category) nodes category (level_ filter) ;;
          process_filters rest nodes1
      end
  end.

(** The body of the constructor up to the final swaps: [None] is an early
    [return]. *)
Definition build (filters : LogCategoryFilters) : M (list (option string) * list Node.t) :=
  _ <- Array.reserve (List.length filters) ;;
  let cats := map cat_ filters in
  nodes <- process_filters filters [] ;;
  ret (cats, nodes).

(** Whether the constructor ran to its end (no early [return]). *)
Definition constructed (filters : LogCategoryFilters) (h : Heap) : bool :=
  match fst (build filters h) with
  | Some _ => true
  | None => false
  end.

(** [LogFilter(LogLevel level)] *)
Definition of_level (level : LogLevel) : t :=
  {| cats_ := []; nodes_ := []; level__ := level |}.

(** [LogFilter(LogLevel level, LogCategoryFilters filters)] *)
Definition new (level : LogLevel) (filters : LogCategoryFilters) (h : Heap) : t * Heap :=
  match build filters h with
  | (Some (cats, nodes), h') => ({| cats_ := cats; nodes_ := nodes; level__ := level |}, h')
  | (None, h') => ({| cats_ := []; nodes_ := []; level__ := LOG_LEVEL_NONE |}, h')
  end.

(** The [while] loop of [level]. *)
Fixpoint level_loop (fuel : nat) (pNodes : list Node.t) (category : string)
    (level : LogLevel) : LogLevel :=
  match fuel with
  | O => level
  | S fuel' =>
      match nextSubcategoryName category with
      | None => level
      | Some (name, size, category') =>
          let '(index, found) := nodeIndex pNodes name size in
          if negb found then level
          else
            match nth_error pNodes index with
            | None => level
            | Some node =>
                let level' := if 0 <=? Node.level node then Node.level node else level in
                level_loop fuel' (Node.nodes node) category' level'
            end
      end
  end.

Definition level (f : t) (category : option string) : LogLevel :=
  match category with
  | Some c =>
      match nodes_ f with
      | [] => level__ f
      | _ :: _ => level_loop (String.length c) (nodes_ f) c (level__ f)
      end
  | None => level__ f
  end.

(** The node that the whole of [category] leads to, found the way [level]
    looks nodes up: the node of the last subcategory name, when every name
    is found and the string ends with it (or with one more '.'). *)
Fixpoint node_at_loop (fuel : nat) (pNodes : list Node.t) (category : string) : option Node.t :=
  match fuel with
  | O => None
  | S fuel' =>
      match nextSubcategoryName category with
      | None => None
      | Some (name, size, category') =>
          let '(index, found) := nodeIndex pNodes name size in
          if negb found then None
          else
            match nth_error pNodes index with
            | None => None
            | Some node =>
                match category' with
                | EmptyString => Some node
                | String _ _ => node_at_loop fuel' (Node.nodes node) category'
                end
            end
      end
  end.

(** Whether [category] carries an explicit level in a tree. *)
Definition explicit_at (pNodes : list Node.t) (category : string) : bool :=
  match node_at_loop (String.length category) pNodes category with
  | Some node => 0 <=? Node.level node
  | None => false
  end.

Definition has_explicit_level (f : t) (category : string) : bool :=
  explicit_at (nodes_ f) category.

(** [s] is a category on the way along [suffix]: it is not empty, and
    [suffix] is [s] or goes on after [s] with a '.'. *)
Definition on_path (suffix s : string) : Prop :=
  s <> EmptyString /\
  exists rest, suffix = (s ++ rest)%string /\ (rest = EmptyString \/ exists r, rest = String dot r).

(** Whether the subcategory names that the loops take from [category] are
    shorter than 65536 bytes, the range of the size field of a node. *)
Fixpoint short_names (fuel : nat) (category : string) : bool :=
  match fuel with
  | O => true
  | S fuel' =>
      match nextSubcategoryName category with
      | None => true
      | Some (_, size, category') => (size <? 65536) && short_names fuel' category'
      end
  end.

Definition short_filter (filter : LogCategoryFilter) : bool :=
  match cat_ filter with
  | None => true
  | Some category => short_names (String.length category) category
  end.

(** The bytes a node stands for: [size] bytes at [name]. *)
Definition text (n : Node.t) : string :=
  substring 0 (Z.to_nat (Node.size n)) (Node.name n).

(** The sibling sets of a tree: the root nodes and the children of every
    node of a sibling set. *)
Inductive sibling_set (root : list Node.t) : list Node.t -> Prop :=
| siblings_root : sibling_set root root
| siblings_children :
    forall l n, sibling_set root l -> In n l -> sibling_set root (Node.nodes n).

End LogFilter.

(** The node ordering in the words of the specification: the bytes are
    compared up to the shorter length; on an equal common prefix the shorter
    segment sorts first; the same length and content is equality. *)
Fixpoint segment_compare (a b : string) : comparison :=
  match a, b with
  | EmptyString, EmptyString => Eq
  | EmptyString, String _ _ => Lt
  | String _ _, EmptyString => Gt
  | String x a', String y b' =>
      match byte_of x ?= byte_of y with
      | Eq => segment_compare a' b'
      | Lt => Lt
      | Gt => Gt
      end
  end.

(** The invariant of the construction: in every sibling set the size field
    of a node is the length of its name, and the names increase strictly. *)
Inductive well_formed : list Node.t -> Prop :=
| wf_nil : well_formed []
| wf_cons :
    forall n l,
      Node.size n = Z.of_nat (String.length (Node.name n)) ->
      well_formed (Node.nodes n) ->
      (forall m, In m l -> segment_compare (Node.name n) (Node.name m) = Lt) ->
      well_formed l ->
      well_formed (n :: l).

(** ** JSON values *)

(** Modelled from the spec: the JSON library (spark_wiring_json.h) is not
    among the sources.  A value is held in its parsed form; [JSON_INVALID] is
    a default-constructed or unparsable value.  Iterating over a value that
    is not an object (array) visits nothing. *)
Inductive JSONValue : Type :=
| JSON_INVALID
| JSON_NULL
| JSON_BOOL (b : bool)
| JSON_NUMBER (n : Z)
| JSON_STRING (s : string)
| JSON_ARRAY (items : list JSONValue)
| JSON_OBJECT (members : list (string * JSONValue)).

Module JSON.
Definition toString (v : JSONValue) : string :=
  match v with
  | JSON_STRING s => s
  | _ => EmptyString
  end.

Definition toInt (v : JSONValue) : Z :=
  match v with
  | JSON_NUMBER n => n
  | JSON_BOOL true => 1
  | _ => 0
  end.

Definition members (v : JSONValue) : list (string * JSONValue) :=
  match v with
  | JSON_OBJECT ms => ms
  | _ => []
  end.

Definition items (v : JSONValue) : list JSONValue :=
  match v with
  | JSON_ARRAY vs => vs
  | _ => []
  end.
End JSON.

(** ** Log handlers, streams and their factories *)

Module LogHandler.
(** A handler object: its address and the filter it was constructed with. *)
Record t : Type := { addr : nat; filter_ : LogFilter.t }.

(** Modelled from the spec: [LogHandler::level] is defined in the header,
    which is not among the sources; each handler resolves the category with
    its own filter. *)
Definition level (h : t) (category : option string) : LogLevel :=
  LogFilter.level (filter_ h) category.

Definition same (a b : t) : bool := Nat.eqb (addr a) (addr b).
End LogHandler.

(** An output stream ([Print*]) is its address. *)
Definition Print := nat.

Section Factories.
Context {W : Type}.   (* the world the factories act upon: heap objects, devices *)

Record LogHandlerFactory : Type :=
  { handlerFactory_addr : nat;
    createHandler : string -> LogLevel -> LogCategoryFilters -> option Print -> JSONValue ->
                    W -> option LogHandler.t * W;
    destroyHandler : LogHandler.t -> W -> W }.

Record OutputStreamFactory : Type :=
  { streamFactory_addr : nat;
    createStream : string -> JSONValue -> W -> option Print * W;
    destroyStream : Print -> W -> W }.
End Factories.

Arguments LogHandlerFactory W : clear implicits.
Arguments OutputStreamFactory W : clear implicits.

(** ** LogManager *)

Module LogManager.

Record FactoryHandler : Type :=
  { id : string; handler : LogHandler.t; stream : option Print }.

Section Manager.
Context {W : Type}.

(** The members of the manager, followed by its environment: the calls of
    [log_set_callbacks] made so far (latest first, [true] for the manager's
    callbacks and [false] for the null set), the allocation oracle and the
    world of the factories. *)
Record t : Type :=
  { activeHandlers_ : list LogHandler.t;
    factoryHandlers_ : list FactoryHandler;
    handlerFactory_ : option (LogHandlerFactory W);
    streamFactory_ : option (OutputStreamFactory W);
    log_set_callbacks_calls : list bool;
    heap : Heap;
    world : W }.

Definition with_active (s : t) (a : list LogHandler.t) : t :=
  {| activeHandlers_ := a; factoryHandlers_ := factoryHandlers_ s;
     handlerFactory_ := handlerFactory_ s; streamFactory_ := streamFactory_ s;
     log_set_callbacks_calls := log_set_callbacks_calls s; heap := heap s; world := world s |}.

Definition with_records (s : t) (r : list FactoryHandler) : t :=
  {| activeHandlers_ := activeHandlers_ s; factoryHandlers_ := r;
     handlerFactory_ := handlerFactory_ s; streamFactory_ := streamFactory_ s;
     log_set_callbacks_calls := log_set_callbacks_calls s; heap := heap s; world := world s |}.

Definition with_heap (s : t) (h : Heap) : t :=
  {| activeHandlers_ := activeHandlers_ s; factoryHandlers_ := factoryHandlers_ s;
     handlerFactory_ := handlerFactory_ s; streamFactory_ := streamFactory_ s;
     log_set_callbacks_calls := log_set_callbacks_calls s; heap := h; world := world s |}.

Definition with_world (s : t) (w : W) : t :=
  {| activeHandlers_ := activeHandlers_ s; factoryHandlers_ := factoryHandlers_ s;
     handlerFactory_ := handlerFactory_ s; streamFactory_ := streamFactory_ s;
     log_set_callbacks_calls := log_set_callbacks_calls s; heap := heap s; world := w |}.

Definition with_handlerFactory (s : t) (f : option (LogHandlerFactory W)) : t :=
  {| activeHandlers_ := activeHandlers_ s; factoryHandlers_ := factoryHandlers_ s;
     handlerFactory_ := f; streamFactory_ := streamFactory_ s;
     log_set_callbacks_calls := log_set_callbacks_calls s; heap := heap s; world := world s |}.

Definition with_streamFactory (s : t) (f : option (OutputStreamFactory W)) : t :=
  {| activeHandlers_ := activeHandlers_ s; factoryHandlers_ := factoryHandlers_ s;
     handlerFactory_ := handlerFactory_ s; streamFactory_ := f;
     log_set_callbacks_calls := log_set_callbacks_calls s; heap := heap s; world := world s |}.

(** [log_set_callbacks]: the platform keeps the set of the latest call. *)
Definition log_set_callbacks (set : bool) (s : t) : t :=
  {| activeHandlers_ := activeHandlers_ s; factoryHandlers_ := factoryHandlers_ s;
     handlerFactory_ := handlerFactory_ s; streamFactory_ := streamFactory_ s;
     log_set_callbacks_calls := set :: log_set_callbacks_calls s;
     heap := heap s; world := world s |}.

(** Whether the manager's callbacks are the registered ones. *)
Definition callbacks_registered (s : t) : bool :=
  match log_set_callbacks_calls s with
  | [] => false
  | set :: _ => set
  end.

(** [Array<LogHandler*>] primitives. *)
Definition contains (l : list LogHandler.t) (x : LogHandler.t) : bool :=
  existsb (LogHandler.same x) l.

Fixpoint removeOne (l : list LogHandler.t) (x : LogHandler.t) : list LogHandler.t * bool :=
  match l with
  | [] => ([], false)
  | y :: r =>
      if LogHandler.same y x then (r, true)
      else let '(r', b) := removeOne r x in (y :: r', b)
  end.

Definition remove {A : Type} (l : list A) (i : nat) : list A :=
  firstn i l ++ skipn (S i) l.

Definition takeLast {A : Type} (l : list A) : list A := removelast l.

(** An allocation request of the manager itself. *)
Definition try_alloc (s : t) : bool * t :=
  match alloc (heap s) with
  | (Some _, h) => (true, with_heap s h)
  | (None, h) => (false, with_heap s h)
  end.

(** The deleter of a scope guard: destroys the object through the factory. *)
Definition delete_handler (p : option LogHandler.t) (s : t) : t :=
  match p, handlerFactory_ s with
  | Some h, Some f => with_world s (destroyHandler f h (world s))
  | _, _ => s
  end.

Definition delete_stream (p : option Print) (s : t) : t :=
  match p, streamFactory_ s with
  | Some strm, Some f => with_world s (destroyStream f strm (world s))
  | _, _ => s
  end.

(** The body of the loops of [destroyFactoryHandler] and
    [destroyFactoryHandlers] for the record [h]. *)
Definition destroy_record (h : FactoryHandler) (s : t) : t :=
  let s1 := with_active s (fst (removeOne (activeHandlers_ s) (handler h))) in
  let s2 := delete_handler (Some (handler h)) s1 in
  delete_stream (stream h) s2.

Fixpoint destroyFactoryHandler_loop (i : nat) (rest : list FactoryHandler)
    (id0 : string) (s : t) : t :=
  match rest with
  | [] => s
  | h :: rest' =>
      if String.eqb (id h) id0 then
        let s1 := destroy_record h s in
        with_records s1 (remove (factoryHandlers_ s1) i)
      else destroyFactoryHandler_loop (S i) rest' id0 s
  end.

Definition destroyFactoryHandler (id0 : string) (s : t) : t :=
  destroyFactoryHandler_loop 0 (factoryHandlers_ s) id0 s.

Definition destroyFactoryHandlers (s : t) : t :=
  with_records (fold_left (fun s' h => destroy_record h s') (factoryHandlers_ s) s) [].

Definition addHandler (hnd : LogHandler.t) (s : t) : bool * t :=
  if contains (activeHandlers_ s) hnd then (false, s)
  else
    let '(ok, s1) := try_alloc s in
    if negb ok then (false, s1)
    else
      let s2 := with_active s1 (activeHandlers_ s1 ++ [hnd]) in
      if Nat.eqb (List.length (activeHandlers_ s2)) 1
      then (true, log_set_callbacks true s2)   (* set system callbacks *)
      else (true, s2).

Definition removeHandler (hnd : LogHandler.t) (s : t) : t :=
  let '(a, removed) := removeOne (activeHandlers_ s) hnd in
  let s1 := with_active s a in
  if removed && Nat.eqb (List.length a) 0
  then log_set_callbacks false s1   (* reset system callbacks *)
  else s1.

(** "Create output stream (optional)": the stream held by the scope guard. *)
Definition create_stream (streamType : option string) (streamParams : JSONValue) (s : t)
  : option Print * t :=
  match streamType, streamFactory_ s with
  | Some ty, Some f =>
      let '(p, w) := createStream f ty streamParams (world s) in (p, with_world s w)
  | _, _ => (None, s)
  end.

(** "Create log handler": the handler held by the scope guard. *)
Definition create_handler (handlerType : option string) (level : LogLevel)
    (filters : LogCategoryFilters) (strm : option Print) (handlerParams : JSONValue) (s : t)
  : option LogHandler.t * t :=
  match handlerType, handlerFactory_ s with
  | Some ty, Some f =>
      let '(p, w) := createHandler f ty level filters strm handlerParams (world s) in
      (p, with_world s w)
  | _, _ => (None, s)
  end.

(** The end of [addFactoryHandler]: the record [h] is appended, then its
    handler is made active; the scope guards destroy the handler and the
    stream on every failure. *)
Definition register (h : FactoryHandler) (s : t) : bool * t :=
  let '(ok, s) := try_alloc s in   (* factoryHandlers_.append(std::move(h)) *)
  if negb ok then (false, delete_stream (stream h) (delete_handler (Some (handler h)) s))
  else
    let s := with_records s (factoryHandlers_ s ++ [h]) in
    let '(ok, s) := try_alloc s in   (* activeHandlers_.append(h.handler) *)
    if negb ok then
      let s := with_records s (takeLast (factoryHandlers_ s)) in   (* revert the append *)
      (false, delete_stream (stream h) (delete_handler (Some (handler h)) s))
    else (true, with_active s (activeHandlers_ s ++ [handler h])).

Definition addFactoryHandler (id0 : string) (handlerType : option string) (level : LogLevel)
    (filters : LogCategoryFilters) (handlerParams : JSONValue)
    (streamType : option string) (streamParams : JSONValue) (s : t) : bool * t :=
  let s := destroyFactoryHandler id0 s in   (* destroy existent handler with the same ID *)
  let '(copied, s) := try_alloc s in        (* h.id = id *)
  let h_id := if copied then id0 else EmptyString in
  if Nat.eqb (String.length h_id) 0 then (false, s)   (* empty ID or allocation error *)
  else
    let '(strm, s) := create_stream streamType streamParams s in
    match streamType, strm with
    | Some _, None => (false, s)   (* unsupported stream type *)
    | _, _ =>
        let '(hnd, s) := create_handler handlerType level filters strm handlerParams s in
        match hnd with
        | None => (false, delete_stream strm s)   (* unsupported handler type *)
        | Some hp => register {| id := h_id; handler := hp; stream := strm |} s
        end
    end.

Definition removeFactoryHandler (id0 : string) (s : t) : t :=
  destroyFactoryHandler id0 s.

Definition enumFactoryHandlers {D : Type} (callback : string -> D -> D) (data : D) (s : t) : D :=
  fold_left (fun d h => callback (id h) d) (factoryHandlers_ s) data.

Definition same_handlerFactory (a b : option (LogHandlerFactory W)) : bool :=
  match a, b with
  | None, None => true
  | Some f, Some g => Nat.eqb (handlerFactory_addr f) (handlerFactory_addr g)
  | _, _ => false
  end.

Definition same_streamFactory (a b : option (OutputStreamFactory W)) : bool :=
  match a, b with
  | None, None => true
  | Some f, Some g => Nat.eqb (streamFactory_addr f) (streamFactory_addr g)
  | _, _ => false
  end.

Definition setHandlerFactory (factory : option (LogHandlerFactory W)) (s : t) : t :=
  if same_handlerFactory (handlerFactory_ s) factory then s
  else with_handlerFactory (destroyFactoryHandlers s) factory.

Definition setStreamFactory (factory : option (OutputStreamFactory W)) (s : t) : t :=
  if same_streamFactory (streamFactory_ s) factory then s
  else with_streamFactory (destroyFactoryHandlers s) factory.

(** [~LogManager()] *)
Definition destroy (s : t) : t :=
  destroyFactoryHandlers (log_set_callbacks false s).

(** The body of the loop of [logEnabled]: the new value of [minLevel]. *)
Definition logEnabled_body (category : option string) (minLevel : Z) (hnd : LogHandler.t) : Z :=
  let level := LogHandler.level hnd category in
  if level <? minLevel then level else minLevel.

Definition logEnabled (level : Z) (category : option string) (s : t) : bool :=
  let minLevel := fold_left (logEnabled_body category) (activeHandlers_ s) LOG_LEVEL_NONE in
  level >=? minLevel.

(** The states [s] and [s'] agree on the active handlers, on the records
    and on the calls of [log_set_callbacks]. *)
Definition same_lists (s s' : t) : Prop :=
  activeHandlers_ s' = activeHandlers_ s /\
  factoryHandlers_ s' = factoryHandlers_ s /\
  log_set_callbacks_calls s' = log_set_callbacks_calls s.

End Manager.
Arguments t W : clear implicits.
End LogManager.

(** ** The default factories *)

(** Build configuration: the macros [PLATFORM_ID] and [Wiring_USBSerial1]. *)
Record Config : Type := { PLATFORM_ID : Z; Wiring_USBSerial1 : bool }.

Module Devices.
(** The world of the default factories: the serial ports (for [Serial1] the
    baud rate it was begun with), the oracle and the next address of
    [new(std::nothrow)], and the addresses given to [delete]. *)
Record t : Type :=
  { Serial_begun : bool;
    USBSerial1_begun : bool;
    Serial1_begun : option Z;
    new_heap : Heap;
    next_addr : nat;
    deleted : list nat }.

Definition Serial : Print := 1%nat.
Definition USBSerial1 : Print := 2%nat.
Definition Serial1 : Print := 3%nat.

Definition init : t :=
  {| Serial_begun := false; USBSerial1_begun := false; Serial1_begun := None;
     new_heap := []; next_addr := 16%nat; deleted := [] |}.

Definition set_Serial (b : bool) (w : t) : t :=
  {| Serial_begun := b; USBSerial1_begun := USBSerial1_begun w;
     Serial1_begun := Serial1_begun w; new_heap := new_heap w;
     next_addr := next_addr w; deleted := deleted w |}.

Definition set_USBSerial1 (b : bool) (w : t) : t :=
  {| Serial_begun := Serial_begun w; USBSerial1_begun := b;
     Serial1_begun := Serial1_begun w; new_heap := new_heap w;
     next_addr := next_addr w; deleted := deleted w |}.

Definition set_Serial1 (b : option Z) (w : t) : t :=
  {| Serial_begun := Serial_begun w; USBSerial1_begun := USBSerial1_begun w;
     Serial1_begun := b; new_heap := new_heap w;
     next_addr := next_addr w; deleted := deleted w |}.

Definition delete (p : nat) (w : t) : t :=
  {| Serial_begun := Serial_begun w; USBSerial1_begun := USBSerial1_begun w;
     Serial1_begun := Serial1_begun w; new_heap := new_heap w;
     next_addr := next_addr w; deleted := p :: deleted w |}.
End Devices.

Module DefaultOutputStreamFactory.
Definition getParams (params : JSONValue) (baudRate : option Z) : option Z :=
  fold_left (fun baud it =>
               match baud with
               | Some _ => if String.eqb (fst it) "baud" then Some (JSON.toInt (snd it)) else baud
               | None => None
               end)
            (JSON.members params) baudRate.

Definition createStream (cfg : Config) (type : string) (params : JSONValue)
    (w : Devices.t) : option Print * Devices.t :=
  if PLATFORM_ID cfg =? 3 then (None, w)
  else if String.eqb type "Serial" then
    (Some Devices.Serial, Devices.set_Serial true w)
  else if Wiring_USBSerial1 cfg && String.eqb type "USBSerial1" then
    (Some Devices.USBSerial1, Devices.set_USBSerial1 true w)
  else if String.eqb type "Serial1" then
    let baud := 9600 in
    let baud := match getParams params (Some baud) with
                | Some b => b
                | None => baud
                end in
    (Some Devices.Serial1, Devices.set_Serial1 (Some baud) w)
  else (None, w).

Definition destroyStream (cfg : Config) (strm : Print) (w : Devices.t) : Devices.t :=
  if PLATFORM_ID cfg =? 3 then Devices.delete strm w
  else if Nat.eqb strm Devices.Serial then Devices.set_Serial false w
  else if Wiring_USBSerial1 cfg && Nat.eqb strm Devices.USBSerial1 then
    Devices.set_USBSerial1 false w
  else if Nat.eqb strm Devices.Serial1 then Devices.set_Serial1 None w
  else Devices.delete strm w.

Definition instance (cfg : Config) : OutputStreamFactory Devices.t :=
  @Build_OutputStreamFactory Devices.t 9%nat (createStream cfg) (destroyStream cfg).
End DefaultOutputStreamFactory.

Module DefaultLogHandlerFactory.
(** [new(std::nothrow) StreamLogHandler(stream, level, filters)] and the
    like: the allocation, then the constructor, which builds the filter. *)
Definition new_handler (level : LogLevel) (filters : LogCategoryFilters)
    (w : Devices.t) : option LogHandler.t * Devices.t :=
  match alloc (Devices.new_heap w) with
  | (None, h) =>
      (None, {| Devices.Serial_begun := Devices.Serial_begun w;
                Devices.USBSerial1_begun := Devices.USBSerial1_begun w;
                Devices.Serial1_begun := Devices.Serial1_begun w;
                Devices.new_heap := h;
                Devices.next_addr := Devices.next_addr w;
                Devices.deleted := Devices.deleted w |})
  | (Some _, h) =>
      let '(f, h') := LogFilter.new level filters h in
      (Some {| LogHandler.addr := Devices.next_addr w; LogHandler.filter_ := f |},
       {| Devices.Serial_begun := Devices.Serial_begun w;
          Devices.USBSerial1_begun := Devices.USBSerial1_begun w;
          Devices.Serial1_begun := Devices.Serial1_begun w;
          Devices.new_heap := h';
          Devices.next_addr := S (Devices.next_addr w);
          Devices.deleted := Devices.deleted w |})
  end.

Definition createHandler (type : string) (level : LogLevel) (filters : LogCategoryFilters)
    (strm : option Print) (params : JSONValue) (w : Devices.t) : option LogHandler.t * Devices.t :=
  if String.eqb type "JSONStreamLogHandler" then
    match strm with
    | None => (None, w)   (* output stream is not specified *)
    | Some _ => new_handler level filters w
    end
  else if String.eqb type "StreamLogHandler" then
    match strm with
    | None => (None, w)
    | Some _ => new_handler level filters w
    end
  else (None, w).   (* unknown handler type *)

(** Modelled from the spec: [LogHandlerFactory::destroyHandler] is defined
    in the header, which is not among the sources; it deletes the handler. *)
Definition destroyHandler (h : LogHandler.t) (w : Devices.t) : Devices.t :=
  Devices.delete (LogHandler.addr h) w.

Definition instance : LogHandlerFactory Devices.t :=
  @Build_LogHandlerFactory Devices.t 8%nat createHandler destroyHandler.
End DefaultLogHandlerFactory.

(** [LogManager::LogManager()] *)
Definition LogManager_new (cfg : Config) (h : Heap) (w : Devices.t) : LogManager.t Devices.t :=
  {| LogManager.activeHandlers_ := [];
     LogManager.factoryHandlers_ := [];
     LogManager.handlerFactory_ := Some DefaultLogHandlerFactory.instance;
     LogManager.streamFactory_ := Some (DefaultOutputStreamFactory.instance cfg);
     LogManager.log_set_callbacks_calls := [];
     LogManager.heap := h;
     LogManager.world := w |}.

(** ** Configuration requests *)

Module JSONRequestHandler.

Record Object : Type := { type : string; params : JSONValue }.

Record Request : Type :=
  { handler : Object; stream : Object; filters : LogCategoryFilters;
    cmd : string; id : string; level : LogLevel }.

Definition Object_new : Object := {| type := EmptyString; params := JSON_INVALID |}.

Definition Request_new : Request :=
  {| handler := Object_new; stream := Object_new; filters := [];
     cmd := EmptyString; id := EmptyString; level := LOG_LEVEL_NONE |}.

Definition parseObject (value : JSONValue) (object : Object) : bool * Object :=
  (true,
   fold_left (fun o it =>
                if String.eqb (fst it) "type" then   (* object type *)
                  {| type := JSON.toString (snd it); params := params o |}
                else if String.eqb (fst it) "params" then   (* additional parameters *)
                  {| type := type o; params := snd it |}
                else o)
             (JSON.members value) object).

Definition levels : list (string * LogLevel) :=
  [ ("none", LOG_LEVEL_NONE); ("trace", LOG_LEVEL_TRACE); ("info", LOG_LEVEL_INFO);
    ("warn", LOG_LEVEL_WARN); ("error", LOG_LEVEL_ERROR); ("panic", LOG_LEVEL_PANIC);
    ("all", LOG_LEVEL_ALL) ].

Fixpoint parseLevel_loop (name : string) (table : list (string * LogLevel)) : option LogLevel :=
  match table with
  | [] => None   (* unknown level name *)
  | (n, l) :: rest => if String.eqb name n then Some l else parseLevel_loop name rest
  end.

Definition parseLevel (value : JSONValue) : option LogLevel :=
  parseLevel_loop (JSON.toString value) levels.

(** One element of the "filt" array: the category and the level read from
    its members; [None] is an unknown level name. *)
Fixpoint parseFilter (members : list (string * JSONValue)) (cat : string) (lvl : LogLevel)
  : option (string * LogLevel) :=
  match members with
  | [] => Some (cat, lvl)
  | (n, v) :: rest =>
      if String.eqb n "cat" then parseFilter rest (JSON.toString v) lvl
      else if String.eqb n "lvl" then
        match parseLevel v with
        | Some l => parseFilter rest cat l
        | None => None
        end
      else parseFilter rest cat lvl
  end.

(** The conversion of the category to [String] allocates; the reserved
    array takes the filter without allocating. *)
Fixpoint parseFilters_loop (items : list JSONValue) (filters : LogCategoryFilters)
    (h : Heap) : option LogCategoryFilters * Heap :=
  match items with
  | [] => (Some filters, h)
  | it :: rest =>
      match parseFilter (JSON.members it) EmptyString LOG_LEVEL_NONE with
      | None => (None, h)
      | Some (cat, lvl) =>
          let '(copied, h') := alloc h in
          let c := match copied with
                   | Some _ => Some cat
                   | None => None
                   end in
          parseFilters_loop rest (filters ++ [{| cat_ := c; level_ := lvl |}]) h'
      end
  end.

Definition parseFilters (value : JSONValue) (filters : LogCategoryFilters) (h : Heap)
  : option LogCategoryFilters * Heap :=
  match Array.reserve (List.length (JSON.items value)) h with
  | (None, h') => (None, h')   (* memory allocation error *)
  | (Some _, h') => parseFilters_loop (JSON.items value) filters h'
  end.

Fixpoint parseRequest_loop (members : list (string * JSONValue)) (req : Request) (h : Heap)
  : option Request * Heap :=
  match members with
  | [] => (Some req, h)
  | (n, v) :: rest =>
      if String.eqb n "cmd" then
        parseRequest_loop rest
          {| handler := handler req; stream := stream req; filters := filters req;
             cmd := JSON.toString v; id := id req; level := level req |} h
      else if String.eqb n "id" then
        parseRequest_loop rest
          {| handler := handler req; stream := stream req; filters := filters req;
             cmd := cmd req; id := JSON.toString v; level := level req |} h
      else if String.eqb n "hnd" then
        let '(ok, o) := parseObject v (handler req) in
        if negb ok then (None, h)
        else parseRequest_loop rest
               {| handler := o; stream := stream req; filters := filters req;
                  cmd := cmd req; id := id req; level := level req |} h
      else if String.eqb n "strm" then
        let '(ok, o) := parseObject v (stream req) in
        if negb ok then (None, h)
        else parseRequest_loop rest
               {| handler := handler req; stream := o; filters := filters req;
                  cmd := cmd req; id := id req; level := level req |} h
      else if String.eqb n "filt" then
        match parseFilters v (filters req) h with
        | (None, h') => (None, h')
        | (Some fs, h') =>
            parseRequest_loop rest
              {| handler := handler req; stream := stream req; filters := fs;
                 cmd := cmd req; id := id req; level := level req |} h'
        end
      else if String.eqb n "lvl" then
        match parseLevel v with
        | None => (None, h)
        | Some l =>
            parseRequest_loop rest
              {| handler := handler req; stream := stream req; filters := filters req;
                 cmd := cmd req; id := id req; level := l |} h
        end
      else parseRequest_loop rest req h
  end.

Definition parseRequest (value : JSONValue) (h : Heap) : option Request * Heap :=
  parseRequest_loop (JSON.members value) Request_new h.

Section Process.
Context {W : Type}.

Definition addHandler (req : Request) (s : LogManager.t W) : bool * LogManager.t W :=
  LogManager.addFactoryHandler (id req) (Some (type (handler req))) (level req) (filters req)
    (params (handler req)) (Some (type (stream req))) (params (stream req)) s.

Definition removeHandler (req : Request) (s : LogManager.t W) : bool * LogManager.t W :=
  (true, LogManager.removeFactoryHandler (id req) s).

(** The reply is the array of the handler IDs written by the callback. *)
Definition enumHandlers (req : Request) (s : LogManager.t W) : bool * list string :=
  (true, LogManager.enumFactoryHandlers (fun i written => written ++ [i]) [] s).

(** The result, the reply array written (if any) and the manager. *)
Definition processRequest (req : Request) (s : LogManager.t W)
  : bool * option (list string) * LogManager.t W :=
  if String.eqb (cmd req) "addHandler" then
    let '(ok, s') := addHandler req s in (ok, None, s')
  else if String.eqb (cmd req) "removeHandler" then
    let '(ok, s') := removeHandler req s in (ok, None, s')
  else if String.eqb (cmd req) "enumHandlers" then
    let '(ok, reply) := enumHandlers req s in (ok, Some reply, s)
  else (false, None, s).   (* unsupported request *)

(** [process] on the parsed request ([JSON_INVALID] for a parsing error). *)
Definition process (jsonReq : JSONValue) (s : LogManager.t W)
  : bool * option (list string) * LogManager.t W :=
  match jsonReq with
  | JSON_INVALID => (false, None, s)   (* parsing error *)
  | _ =>
      match parseRequest jsonReq (LogManager.heap s) with
      | (None, h) => (false, None, LogManager.with_heap s h)
      | (Some req, h) => processRequest req (LogManager.with_heap s h)
      end
  end.
End Process.

End JSONRequestHandler.

(** ** Concrete data of the scenarios *)

Definition photon : Config := {| PLATFORM_ID := 6; Wiring_USBSerial1 := true |}.

(** The request
    [{"cmd":"addHandler","id":"h1","hnd":{"type":"StreamLogHandler"},
      "strm":{"type":"Serial1",key:{"baud":N}}}]. *)
Definition serial1_request (key : string) (N : Z) : JSONValue :=
  JSON_OBJECT
    [ ("cmd", JSON_STRING "addHandler");
      ("id", JSON_STRING "h1");
      ("hnd", JSON_OBJECT [("type", JSON_STRING "StreamLogHandler")]);
      ("strm", JSON_OBJECT [("type", JSON_STRING "Serial1");
                            (key, JSON_OBJECT [("baud", JSON_NUMBER N)])]) ].

Definition filt (c : string) (l : LogLevel) : LogCategoryFilter :=
  {| cat_ := Some c; level_ := l |}.

Definition scenario_filters : LogCategoryFilters :=
  [ filt "a" LOG_LEVEL_ERROR; filt "a.b.c" LOG_LEVEL_TRACE; filt "a.b.x" LOG_LEVEL_TRACE;
    filt "aa" LOG_LEVEL_ERROR; filt "aa.b" LOG_LEVEL_WARN ].

Definition scenario : LogFilter.t := fst (LogFilter.new LOG_LEVEL_NONE scenario_filters []).

Definition one_handler (a : nat) (l : LogLevel) : LogHandler.t :=
  {| LogHandler.addr := a; LogHandler.filter_ := LogFilter.of_level l |}.

Definition manager_with (active : list LogHandler.t) : LogManager.t Devices.t :=
  LogManager.with_active (LogManager_new photon [] Devices.init) active.

(** A handler factory that hands out one and the same handler object. *)
Definition static_handler_factory (h : LogHandler.t) : LogHandlerFactory unit :=
  @Build_LogHandlerFactory unit 7%nat (fun _ _ _ _ _ w => (Some h, w)) (fun _ w => w).

Definition manager_of (active : list LogHandler.t) (f : LogHandlerFactory unit) : LogManager.t unit :=
  {| LogManager.activeHandlers_ := active;
     LogManager.factoryHandlers_ := [];
     LogManager.handlerFactory_ := Some f;
     LogManager.streamFactory_ := None;
     LogManager.log_set_callbacks_calls := [];
     LogManager.heap := [];
     LogManager.world := tt |}.

(** [addFactoryHandler(id, type, LOG_LEVEL_WARN, {}, {}, "Serial1", {})] *)
Definition add_serial1 (id0 type : string) (s : LogManager.t Devices.t) : bool * LogManager.t Devices.t :=
  LogManager.addFactoryHandler id0 (Some type) LOG_LEVEL_WARN [] JSON_INVALID
    (Some "Serial1") JSON_INVALID s.

(** A subcategory name of 65537 bytes. *)
Definition long_name : string := Pos.iter (String "a"%char) EmptyString 65537%positive.

(** ** Names of files and functions *)

(** [s] has no byte [c]. *)
Fixpoint lacks (c : ascii) (s : string) : Prop :=
  match s with
  | EmptyString => True
  | String a r => a <> c /\ lacks c r
  end.

(** [strrchr s c]: the string at the last [c] of [s]; [None] is [nullptr]. *)
Fixpoint strrchr (s : string) (c : ascii) : option string :=
  match s with
  | EmptyString => None
  | String a r =>
      match strrchr r c with
      | Some p => Some p
      | None => if Ascii.eqb a c then Some s else None
      end
  end.

Definition extractFileName (s : string) : string :=
  match strrchr s "/"%char with
  | Some (String _ r) => r   (* s1 + 1 *)
  | _ => s
  end.

(** The loop of [extractFuncName]: [s] is the scanning pointer and [s1]
    the pointer to the start of the name, both held as the string they
    point to; the result is [s1] and the final [s]. *)
Fixpoint extractFuncName_loop (s s1 : string) : string * string :=
  match s with
  | EmptyString => (s1, s)
  | String c r =>
      if Ascii.eqb c " "%char then extractFuncName_loop r r   (* skip return type *)
      else if Ascii.eqb c "("%char then (s1, s)               (* skip argument types *)
      else extractFuncName_loop r s1
  end.

(** The returned pointer and the size stored through [size]. *)
Definition extractFuncName (s : string) : string * nat :=
  let '(s1, s') := extractFuncName_loop s s in
  (s1, (String.length s1 - String.length s')%nat).

(** ** StreamLogHandler *)

(** Modelled from the spec: [LogAttributes] is declared in
    services/inc/logging.h, which is not among the sources; the fields are
    those that [logMessage] reads. *)
Record LogAttributes : Type :=
  { has_file : bool; has_line : bool; has_function : bool; has_time : bool;
    has_code : bool; has_details : bool;
    file : string; line : Z; function : string; time : Z; code : Z; details : string }.

Definition set_file (attr : LogAttributes) (f : string) : LogAttributes :=
  {| has_file := has_file attr; has_line := has_line attr; has_function := has_function attr;
     has_time := has_time attr; has_code := has_code attr; has_details := has_details attr;
     file := f; line := line attr; function := function attr; time := time attr;
     code := code attr; details := details attr |}.

Definition set_function (attr : LogAttributes) (f : string) : LogAttributes :=
  {| has_file := has_file attr; has_line := has_line attr; has_function := has_function attr;
     has_time := has_time attr; has_code := has_code attr; has_details := has_details attr;
     file := file attr; line := line attr; function := f; time := time attr;
     code := code attr; details := details attr |}.

Module StreamLogHandler.
Section Format.
(** The level names of [levelName] and the conversions of [printf], which
    are not among the sources: "%010u", "%d" and "%" PRIiPTR. *)
Variable levelName : LogLevel -> string.
Variable printf_010u : Z -> string.
Variable printf_d : Z -> string.
Variable printf_iPTR : Z -> string.

(** [write(data, size)] on the bytes written so far. *)
Definition write_n (out data : string) (size : nat) : string :=
  (out ++ substring 0 size data)%string.

(** [write(str)] and [write(c)]. *)
Definition write (out str : string) : string := (out ++ str)%string.

Definition write_char (out : string) (c : ascii) : string := (out ++ String c EmptyString)%string.

(** The bytes that [logMessage] writes to the stream. *)
Definition logMessage (msg : option string) (level : LogLevel) (category : option string)
    (attr : LogAttributes) : string :=
  let out := EmptyString in
  (* timestamp *)
  let out := if has_time attr then write (write out (printf_010u (time attr mod 2 ^ 32))) " "
             else out in
  (* category *)
  let out := match category with
             | Some c => write_n (write (write_char out "["%char) c) "] " 2
             | None => out
             end in
  (* source file *)
  let out :=
    if has_file attr then
      let s := extractFileName (file attr) in   (* strip directory path *)
      let out := write out s in
      let out := if has_line attr then write (write_char out ":"%char) (printf_d (line attr))
                 else out in
      if has_function attr then write_n out ", " 2 else write_n out ": " 2
    else out in
  (* function name *)
  let out :=
    if has_function attr then
      let '(s, n) := extractFuncName (function attr) in   (* strip argument and return types *)
      write_n (write_n out s n) "(): " 4
    else out in
  (* level *)
  let out := write_n (write out (levelName level)) ": " 2 in
  (* message *)
  let out := match msg with
             | Some m => write out m
             | None => out
             end in
  (* additional attributes *)
  let out :=
    if has_code attr || has_details attr then
      let out := write_n out " [" 2 in
      let out := if has_code attr then write (write_n out "code = " 7) (printf_iPTR (code attr))
                 else out in
      let out :=
        if has_details attr then
          let out := if has_code attr then write_n out ", " 2 else out in
          write (write_n out "details = " 10) (details attr)
        else out in
      write_char out "]"%char
    else out in
  write_n out (String "013"%char (String "010"%char EmptyString)) 2.
End Format.
End StreamLogHandler.

(** ** Further vocabulary of the filter *)

(** Whether the loops take [category] to its end: every subcategory name
    is non-empty and the string ends with the last one (or one '.' after
    it), so that the constructor records the level. *)
Fixpoint complete (fuel : nat) (category : string) : bool :=
  match fuel with
  | O => false
  | S fuel' =>
      match nextSubcategoryName category with
      | None => false
      | Some (_, _, category') =>
          match category' with
          | EmptyString => true
          | String _ _ => complete fuel' category'
          end
      end
  end.

(** The subcategory names that the loops take from [category], up to the
    place where they stop. *)
Fixpoint names_loop (fuel : nat) (category : string) : list string :=
  match fuel with
  | O => []
  | S fuel' =>
      match nextSubcategoryName category with
      | None => []
      | Some (name, _, category') => name :: names_loop fuel' category'
      end
  end.

Definition names (category : string) : list string :=
  names_loop (String.length category) category.

(** The node of a sibling set that has the name [n]. *)
Definition find_node (l : list Node.t) (n : string) : option Node.t :=
  find (fun x => String.eqb (Node.name x) n) l.

(** The walk of [LogFilter::level] along a list of names. *)
Fixpoint walk (l : list Node.t) (ns : list string) (d : LogLevel) : LogLevel :=
  match ns with
  | [] => d
  | n :: ns' =>
      match find_node l n with
      | None => d
      | Some x => walk (Node.nodes x) ns' (if 0 <=? Node.level x then Node.level x else d)
      end
  end.

(** The level that a tree holds for the path [ns], if any. *)
Fixpoint explicit (l : list Node.t) (ns : list string) : option LogLevel :=
  match ns with
  | [] => None
  | n :: ns' =>
      match find_node l n with
      | None => None
      | Some x =>
          match ns' with
          | [] => if 0 <=? Node.level x then Some (Node.level x) else None
          | _ :: _ => explicit (Node.nodes x) ns'
          end
      end
  end.

(** ** Resolution in the words of the specification *)

(** The level that the filters give to the path [p] itself: that of the
    last filter whose category has exactly the names [p].  A category that
    the constructor does not take to its end gives no level. *)
Fixpoint last_level (fs : LogCategoryFilters) (p : list string) : option LogLevel :=
  match fs with
  | [] => None
  | f :: rest =>
      match last_level rest p with
      | Some l => Some l
      | None =>
          match cat_ f with
          | Some c =>
              if complete (String.length c) c then
                if list_eq_dec string_dec (names c) p then Some (level_ f) else None
              else None
          | None => None
          end
      end
  end.

(** The level of the longest of the paths [pre ++ q1], [pre ++ q1 ++ q2],
    ... that [e] gives a level to, and [d] when there is none. *)
Fixpoint longest_prefix_level (e : list string -> option LogLevel) (pre qs : list string)
    (d : LogLevel) : LogLevel :=
  match qs with
  | [] => d
  | q :: qs' =>
      longest_prefix_level e (pre ++ [q]) qs'
        (match e (pre ++ [q]) with
         | Some l => l
         | None => d
         end)
  end.

(** The most specific filter decides, the last one among those of the same
    category, and the default level when no filter applies. *)
Definition resolve (d : LogLevel) (fs : LogCategoryFilters) (category : string) : LogLevel :=
  longest_prefix_level (last_level fs) [] (names category) d.

(** The filters that the characterisation covers: subcategory names shorter
    than 65536 bytes and levels that an int16_t holds as they are. *)
Definition plain_filter (f : LogCategoryFilter) : Prop :=
  LogFilter.short_filter f = true /\ 0 <= level_ f < 32768.

(** * Properties *)

(** ** Subcategory names *)

Lemma strchrnul_no_dot :
  forall s, no_dot s -> strchrnul s dot = (s, EmptyString).
Proof.
  induction s as [|a r IH]; simpl; intros H; [ reflexivity | ].
  destruct H as [Ha Hr]. destruct (Ascii.eqb_spec a dot) as [E|E]; [ contradiction | ].
  rewrite (IH Hr). reflexivity.
Qed.

Lemma strchrnul_dot :
  forall s r, no_dot s -> strchrnul (s ++ String dot r)%string dot = (s, String dot r).
Proof.
  induction s as [|a s IH]; simpl; intros r H.
  - reflexivity.
  - destruct H as [Ha Hr]. destruct (Ascii.eqb_spec a dot) as [E|E]; [ contradiction | ].
    rewrite (IH r Hr). reflexivity.
Qed.

(** A string either has no '.', or splits at its first '.'. *)
Lemma first_dot :
  forall s, no_dot s \/ exists n r, s = (n ++ String dot r)%string /\ no_dot n.
Proof.
  induction s as [|a s IH]; [ left; exact I | ].
  destruct (Ascii.eqb_spec a dot) as [E|E].
  - right. exists EmptyString, s. subst a. split; [ reflexivity | exact I ].
  - destruct IH as [H | [n [r [-> H]]]].
    + left. split; assumption.
    + right. exists (String a n), r. split; [ reflexivity | split; assumption ].
Qed.

Lemma length_append :
  forall a b, String.length (a ++ b)%string = (String.length a + String.length b)%nat.
Proof. induction a as [|x a IH]; intros b; simpl; [ | rewrite IH ]; reflexivity. Qed.

Lemma append_assoc :
  forall a b c, ((a ++ b) ++ c)%string = (a ++ (b ++ c))%string.
Proof. induction a as [|x a IH]; intros b c; simpl; [ | rewrite IH ]; reflexivity. Qed.

Lemma append_empty_r : forall a, (a ++ EmptyString)%string = a.
Proof. induction a as [|x a IH]; simpl; [ | rewrite IH ]; reflexivity. Qed.

Lemma next_no_dot :
  forall s, no_dot s -> s <> EmptyString ->
    nextSubcategoryName s = Some (s, Z.of_nat (String.length s), EmptyString).
Proof.
  intros s H Hne. unfold nextSubcategoryName. fold dot. rewrite (strchrnul_no_dot s H).
  destruct s as [|a r]; [ contradiction | ].
  destruct (Z.eqb_spec (Z.of_nat (String.length (String a r))) 0) as [E|E];
    [ simpl in E; lia | reflexivity ].
Qed.

Lemma next_dot :
  forall n r, no_dot n -> n <> EmptyString ->
    nextSubcategoryName (n ++ String dot r)%string = Some (n, Z.of_nat (String.length n), r).
Proof.
  intros n r H Hne. unfold nextSubcategoryName. fold dot. rewrite (strchrnul_dot n r H).
  destruct n as [|a n]; [ contradiction | ].
  destruct (Z.eqb_spec (Z.of_nat (String.length (String a n))) 0) as [E|E];
    [ simpl in E; lia | reflexivity ].
Qed.

Lemma category_shapes : forall c, category_shape c.
Proof.
  intros c. destruct (first_dot c) as [H | [n [r [-> H]]]].
  - destruct c as [|a c].
    + apply shape_end; [ reflexivity | left; reflexivity ].
    + apply shape_last; [ exact H | discriminate | apply next_no_dot; [ exact H | discriminate ] ].
  - destruct n as [|a n].
    + apply shape_end; [ reflexivity | right; exists r; reflexivity ].
    + apply (shape_more _ (String a n) r); [ reflexivity | exact H | discriminate | ].
      apply next_dot; [ exact H | discriminate ].
Qed.

Lemma next_shorter :
  forall c n z c', nextSubcategoryName c = Some (n, z, c') ->
    (String.length c' < String.length c)%nat.
Proof.
  intros c n z c' H. destruct (category_shapes c) as [E _ | Hd Hne E | n0 r -> Hd Hne E];
    rewrite E in H; [ discriminate H | | ]; injection H as <- <- <-.
  - destruct c; [ contradiction | simpl; lia ].
  - rewrite length_append. simpl. lia.
Qed.

(** ** The loops do not depend on spare fuel *)

Lemma bind_ext :
  forall (A B : Type) (m : M A) (k1 k2 : A -> M B) (h : Heap),
    (forall a h', k1 a h' = k2 a h') -> bind m k1 h = bind m k2 h.
Proof.
  intros A B m k1 k2 h H. unfold bind. destruct (m h) as [[a|] h']; [ apply H | reflexivity ].
Qed.

Lemma lower_bound_fuel :
  forall n m nodes value first len found,
    (len <= n)%nat -> (len <= m)%nat ->
    LogFilter.lower_bound n nodes value first len found
    = LogFilter.lower_bound m nodes value first len found.
Proof.
  induction n as [|n IH]; intros [|m] nodes value first len found Hn Hm; try reflexivity.
  - assert (len = 0%nat) by lia. subst len. reflexivity.
  - assert (len = 0%nat) by lia. subst len. reflexivity.
  - destruct len as [|len']; [ reflexivity | ].
    cbn [LogFilter.lower_bound].
    set (len := S len') in *.
    assert (Hhalf : (Nat.div2 len < len)%nat) by (apply Nat.lt_div2; unfold len; lia).
    set (half := Nat.div2 len) in *.
    destruct (nth_error nodes (first + half)); [ | reflexivity ].
    destruct (LogFilter.comp t value found) as [lt found'].
    destruct lt; apply IH; lia.
Qed.

Lemma level_loop_fuel :
  forall n m pNodes c lvl,
    (String.length c <= n)%nat -> (String.length c <= m)%nat ->
    LogFilter.level_loop n pNodes c lvl = LogFilter.level_loop m pNodes c lvl.
Proof.
  induction n as [|n IH]; intros [|m] pNodes c lvl Hn Hm; try reflexivity.
  - destruct c; [ reflexivity | simpl in Hn; lia ].
  - destruct c; [ reflexivity | simpl in Hm; lia ].
  - cbn [LogFilter.level_loop].
    destruct (nextSubcategoryName c) as [[[name size] c']|] eqn:E; [ | reflexivity ].
    apply next_shorter in E.
    destruct (LogFilter.nodeIndex pNodes name size) as [index found].
    destruct (negb found); [ reflexivity | ].
    destruct (nth_error pNodes index); [ | reflexivity ].
    apply IH; lia.
Qed.

Lemma level_loop_step :
  forall pNodes c lvl,
    LogFilter.level_loop (String.length c) pNodes c lvl =
    match nextSubcategoryName c with
    | None => lvl
    | Some (name, size, c') =>
        let '(index, found) := LogFilter.nodeIndex pNodes name size in
        if negb found then lvl
        else
          match nth_error pNodes index with
          | None => lvl
          | Some node =>
              LogFilter.level_loop (String.length c') (Node.nodes node) c'
                (if 0 <=? Node.level node then Node.level node else lvl)
          end
    end.
Proof.
  intros pNodes c lvl. destruct c as [|a c]; [ reflexivity | ].
  cbn [String.length LogFilter.level_loop].
  destruct (nextSubcategoryName (String a c)) as [[[name size] c']|] eqn:E; [ | reflexivity ].
  apply next_shorter in E. simpl in E.
  destruct (LogFilter.nodeIndex pNodes name size) as [index found].
  destruct (negb found); [ reflexivity | ].
  destruct (nth_error pNodes index); [ | reflexivity ].
  apply level_loop_fuel; lia.
Qed.

Lemma node_at_loop_fuel :
  forall n m pNodes c,
    (String.length c <= n)%nat -> (String.length c <= m)%nat ->
    LogFilter.node_at_loop n pNodes c = LogFilter.node_at_loop m pNodes c.
Proof.
  induction n as [|n IH]; intros [|m] pNodes c Hn Hm; try reflexivity.
  - destruct c; [ reflexivity | simpl in Hn; lia ].
  - destruct c; [ reflexivity | simpl in Hm; lia ].
  - cbn [LogFilter.node_at_loop].
    destruct (nextSubcategoryName c) as [[[name size] c']|] eqn:E; [ | reflexivity ].
    apply next_shorter in E.
    destruct (LogFilter.nodeIndex pNodes name size) as [index found].
    destruct (negb found); [ reflexivity | ].
    destruct (nth_error pNodes index); [ | reflexivity ].
    destruct c'; [ reflexivity | ].
    apply IH; lia.
Qed.

Lemma node_at_loop_step :
  forall pNodes c,
    LogFilter.node_at_loop (String.length c) pNodes c =
    match nextSubcategoryName c with
    | None => None
    | Some (name, size, c') =>
        let '(index, found) := LogFilter.nodeIndex pNodes name size in
        if negb found then None
        else
          match nth_error pNodes index with
          | None => None
          | Some node =>
              match c' with
              | EmptyString => Some node
              | String _ _ => LogFilter.node_at_loop (String.length c') (Node.nodes node) c'
              end
          end
    end.
Proof.
  intros pNodes c. destruct c as [|a c]; [ reflexivity | ].
  cbn [String.length LogFilter.node_at_loop].
  destruct (nextSubcategoryName (String a c)) as [[[name size] c']|] eqn:E; [ | reflexivity ].
  apply next_shorter in E. simpl in E.
  destruct (LogFilter.nodeIndex pNodes name size) as [index found].
  destruct (negb found); [ reflexivity | ].
  destruct (nth_error pNodes index); [ | reflexivity ].
  destruct c' as [|b c']; [ reflexivity | ].
  apply node_at_loop_fuel; simpl in *; lia.
Qed.

Lemma insert_loop_fuel :
  forall n m pNodes c lvl h,
    (String.length c <= n)%nat -> (String.length c <= m)%nat ->
    LogFilter.insert_loop n pNodes c lvl h = LogFilter.insert_loop m pNodes c lvl h.
Proof.
  induction n as [|n IH]; intros [|m] pNodes c lvl h Hn Hm; try reflexivity.
  - destruct c; [ reflexivity | simpl in Hn; lia ].
  - destruct c; [ reflexivity | simpl in Hm; lia ].
  - cbn [LogFilter.insert_loop].
    destruct (nextSubcategoryName c) as [[[name size] c']|] eqn:E; [ | reflexivity ].
    apply next_shorter in E.
    destruct (LogFilter.nodeIndex pNodes name size) as [index found].
    apply bind_ext. intros pNodes1 h1.
    destruct (nth_error pNodes1 index); [ | reflexivity ].
    unfold bind. rewrite (IH m) by lia. reflexivity.
Qed.

Lemma insert_loop_step :
  forall pNodes c lvl h,
    LogFilter.insert_loop (String.length c) pNodes c lvl h =
    match nextSubcategoryName c with
    | None => ret pNodes h
    | Some (name, size, c') =>
        let '(index, found) := LogFilter.nodeIndex pNodes name size in
        bind (if found then ret pNodes
              else Array.insert pNodes index (Node.new name size))
             (fun pNodes1 =>
                match nth_error pNodes1 index with
                | None => ret pNodes1
                | Some node =>
                    let lvl1 := match c' with
                                | EmptyString => to_int16 lvl
                                | String _ _ => Node.level node
                                end in
                    bind (LogFilter.insert_loop (String.length c') (Node.nodes node) c' lvl)
                         (fun children =>
                            ret (Array.set pNodes1 index
                                   (Node.mk (Node.name node) (Node.size node) lvl1 children)))
                end) h
    end.
Proof.
  intros pNodes c lvl h. destruct c as [|a c]; [ reflexivity | ].
  cbn [String.length LogFilter.insert_loop].
  destruct (nextSubcategoryName (String a c)) as [[[name size] c']|] eqn:E; [ | reflexivity ].
  apply next_shorter in E. simpl in E.
  destruct (LogFilter.nodeIndex pNodes name size) as [index found].
  apply bind_ext. intros pNodes1 h1.
  destruct (nth_error pNodes1 index); [ | reflexivity ].
  unfold bind. rewrite (insert_loop_fuel (String.length c) (String.length c')) by lia.
  reflexivity.
Qed.

(** ** Empty subcategory names *)

Lemma app_dot_assoc :
  forall n r t, ((n ++ String dot r) ++ t)%string = (n ++ String dot (r ++ t))%string.
Proof. intros n r t. rewrite append_assoc. reflexivity. Qed.

Lemma level_loop_end :
  forall pNodes c lvl,
    nextSubcategoryName c = None ->
    LogFilter.level_loop (String.length c) pNodes c lvl = lvl.
Proof. intros pNodes c lvl E. rewrite level_loop_step, E. reflexivity. Qed.

Lemma insert_loop_end :
  forall pNodes c lvl h,
    nextSubcategoryName c = None ->
    LogFilter.insert_loop (String.length c) pNodes c lvl h = (Some pNodes, h).
Proof. intros pNodes c lvl h E. rewrite insert_loop_step, E. reflexivity. Qed.

Lemma level_loop_double_dot :
  forall n p, (String.length p <= n)%nat ->
    forall pNodes q lvl,
      LogFilter.level_loop (String.length (p ++ String dot (String dot q))%string) pNodes
        (p ++ String dot (String dot q))%string lvl
      = LogFilter.level_loop (String.length p) pNodes p lvl.
Proof.
  induction n as [|n IH]; intros p Hn pNodes q lvl.
  - destruct p; [ | simpl in Hn; lia ]. reflexivity.
  - rewrite (level_loop_step pNodes p), level_loop_step.
    destruct (category_shapes p) as [E [->| [r ->]] | Hd Hne E | n0 r -> Hd Hne E].
    + reflexivity.
    + reflexivity.
    + rewrite E, (next_dot p (String dot q) Hd Hne).
      destruct (LogFilter.nodeIndex pNodes p (Z.of_nat (String.length p))) as [index found].
      destruct (negb found); [ reflexivity | ].
      destruct (nth_error pNodes index); [ | reflexivity ].
      rewrite level_loop_end by reflexivity. reflexivity.
    + rewrite E, app_dot_assoc, (next_dot n0 _ Hd Hne).
      destruct (LogFilter.nodeIndex pNodes n0 (Z.of_nat (String.length n0))) as [index found].
      destruct (negb found); [ reflexivity | ].
      destruct (nth_error pNodes index); [ | reflexivity ].
      apply IH. rewrite length_append in Hn. simpl in Hn. lia.
Qed.

Lemma insert_loop_double_dot :
  forall n p, (String.length p <= n)%nat ->
    forall pNodes q q' lvl lvl' h,
      LogFilter.insert_loop (String.length (p ++ String dot (String dot q))%string) pNodes
        (p ++ String dot (String dot q))%string lvl h
      = LogFilter.insert_loop (String.length (p ++ String dot (String dot q'))%string) pNodes
          (p ++ String dot (String dot q'))%string lvl' h.
Proof.
  induction n as [|n IH]; intros p Hn pNodes q q' lvl lvl' h.
  - destruct p; [ | simpl in Hn; lia ]. reflexivity.
  - rewrite !insert_loop_step.
    destruct (category_shapes p) as [E [->| [r ->]] | Hd Hne E | n0 r -> Hd Hne E].
    + reflexivity.
    + reflexivity.
    + rewrite !(next_dot p _ Hd Hne).
      destruct (LogFilter.nodeIndex pNodes p (Z.of_nat (String.length p))) as [index found].
      apply bind_ext. intros pNodes1 h1.
      destruct (nth_error pNodes1 index); [ | reflexivity ].
      unfold bind. rewrite !insert_loop_end by reflexivity. reflexivity.
    + rewrite !app_dot_assoc, !(next_dot n0 _ Hd Hne).
      destruct (LogFilter.nodeIndex pNodes n0 (Z.of_nat (String.length n0))) as [index found].
      apply bind_ext. intros pNodes1 h1.
      destruct (nth_error pNodes1 index) as [node|]; [ | reflexivity ].
      unfold bind.
      rewrite (IH r ltac:(rewrite length_append in Hn; simpl in Hn; lia)
                 (Node.nodes node) q q' lvl lvl' h1).
      destruct r; reflexivity.
Qed.

Lemma process_filters_app :
  forall fs1 fs2 nodes h,
    LogFilter.process_filters (fs1 ++ fs2) nodes h
    = bind (LogFilter.process_filters fs1 nodes) (LogFilter.process_filters fs2) h.
Proof.
  induction fs1 as [|f fs1 IH]; intros fs2 nodes h; simpl.
  - reflexivity.
  - destruct (cat_ f) as [c|]; [ | apply IH ].
    unfold bind in *.
    destruct (LogFilter.insert_loop (String.length c) nodes c (level_ f) h) as [[nodes1|] h1];
      [ apply IH | reflexivity ].
Qed.

(** In a filter list, replacing one filter by another that is processed
    with the same effect leaves the nodes and the default level of the
    filter the same. *)
Lemma new_same_insertion :
  forall (level : LogLevel) fs1 fs2 c l c' l' h,
    (forall nodes h0,
        LogFilter.insert_loop (String.length c) nodes c l h0
        = LogFilter.insert_loop (String.length c') nodes c' l' h0) ->
    LogFilter.nodes_ (fst (LogFilter.new level (fs1 ++ filt c l :: fs2) h))
    = LogFilter.nodes_ (fst (LogFilter.new level (fs1 ++ filt c' l' :: fs2) h)) /\
    LogFilter.level__ (fst (LogFilter.new level (fs1 ++ filt c l :: fs2) h))
    = LogFilter.level__ (fst (LogFilter.new level (fs1 ++ filt c' l' :: fs2) h)).
Proof.
  intros level fs1 fs2 c l c' l' h H.
  unfold LogFilter.new, LogFilter.build.
  rewrite !length_app. cbn [List.length].
  unfold bind.
  destruct (Array.reserve (List.length fs1 + S (List.length fs2)) h) as [[u|] h1];
    [ | split; reflexivity ].
  rewrite !process_filters_app. unfold bind.
  destruct (LogFilter.process_filters fs1 [] h1) as [[nodes1|] h2]; [ | split; reflexivity ].
  cbn [LogFilter.process_filters filt cat_ level_]. unfold bind.
  rewrite (H nodes1 h2).
  destruct (LogFilter.insert_loop (String.length c') nodes1 c' l' h2) as [[nodes2|] h3];
    [ | split; reflexivity ].
  destruct (LogFilter.process_filters fs2 nodes2 h3) as [[nodes3|] h4]; split; reflexivity.
Qed.

(** C10 (as amended): the splitting of a category stops at the first empty
    subcategory name.  An empty category and one that begins with '.'
    resolve to the default level; a category with two dots in a row resolves
    as what precedes them.  In the construction the same splitting makes
    the tree independent of what follows such dots in a filter's category,
    but also of the filter's level: the level is recorded only when the
    category ends with its last name. *)
Theorem empty_subcategory_name_stops :
  (forall f, LogFilter.level f (Some EmptyString) = LogFilter.level__ f) /\
  (forall f s, LogFilter.level f (Some (String dot s)) = LogFilter.level__ f) /\
  (forall f p q,
      LogFilter.level f (Some (p ++ String dot (String dot q))%string)
      = LogFilter.level f (Some p)) /\
  (forall level fs1 fs2 p q l q' l' h,
      let f := fst (LogFilter.new level
                      (fs1 ++ filt (p ++ String dot (String dot q))%string l :: fs2) h) in
      let f' := fst (LogFilter.new level
                       (fs1 ++ filt (p ++ String dot (String dot q'))%string l' :: fs2) h) in
      LogFilter.nodes_ f = LogFilter.nodes_ f' /\ LogFilter.level__ f = LogFilter.level__ f') /\
  (forall level fs1 fs2 q l q' l' h,
      let f := fst (LogFilter.new level (fs1 ++ filt (String dot q) l :: fs2) h) in
      let f' := fst (LogFilter.new level (fs1 ++ filt (String dot q') l' :: fs2) h) in
      LogFilter.nodes_ f = LogFilter.nodes_ f' /\ LogFilter.level__ f = LogFilter.level__ f').
Proof.
  split; [ | split; [ | split; [ | split ] ] ].
  - intros f. unfold LogFilter.level. destruct (LogFilter.nodes_ f); reflexivity.
  - intros f s. unfold LogFilter.level. destruct (LogFilter.nodes_ f); reflexivity.
  - intros f p q. unfold LogFilter.level.
    destruct (LogFilter.nodes_ f) as [|n0 l]; [ reflexivity | ].
    apply (level_loop_double_dot (String.length p)). lia.
  - intros level fs1 fs2 p q l q' l' h.
    apply new_same_insertion. intros nodes h0.
    apply (insert_loop_double_dot (String.length p)). lia.
  - intros level fs1 fs2 q l q' l' h.
    apply new_same_insertion. intros nodes h0.
    rewrite !insert_loop_end by reflexivity. reflexivity.
Qed.

(** C10, counterexample: the filter a..b (trace) is not built as the filter
    a (trace): it makes the node a without a level, so that the category a
    resolves to the default level. *)
Lemma double_dot_filter_records_no_level :
  LogFilter.level (fst (LogFilter.new LOG_LEVEL_NONE [filt "a..b" LOG_LEVEL_TRACE] [])) (Some "a")
    = LOG_LEVEL_NONE /\
  LogFilter.level (fst (LogFilter.new LOG_LEVEL_NONE [filt "a" LOG_LEVEL_TRACE] [])) (Some "a")
    = LOG_LEVEL_TRACE /\
  LogFilter.nodes_ (fst (LogFilter.new LOG_LEVEL_NONE [filt "a..b" LOG_LEVEL_TRACE] []))
    <> LogFilter.nodes_ (fst (LogFilter.new LOG_LEVEL_NONE [filt "a" LOG_LEVEL_TRACE] [])).
Proof.
  vm_compute. repeat split; discriminate.
Qed.

(** ** Inheritance of levels *)

Lemma explicit_at_last :
  forall pNodes n, no_dot n -> n <> EmptyString ->
    LogFilter.explicit_at pNodes n =
    let '(index, found) := LogFilter.nodeIndex pNodes n (Z.of_nat (String.length n)) in
    if negb found then false
    else match nth_error pNodes index with
         | None => false
         | Some node => 0 <=? Node.level node
         end.
Proof.
  intros pNodes n Hd Hne. unfold LogFilter.explicit_at.
  rewrite node_at_loop_step, (next_no_dot n Hd Hne).
  destruct (LogFilter.nodeIndex pNodes n (Z.of_nat (String.length n))) as [index found].
  destruct (negb found); [ reflexivity | ].
  destruct (nth_error pNodes index); reflexivity.
Qed.

Lemma explicit_at_more :
  forall pNodes n c, no_dot n -> n <> EmptyString -> c <> EmptyString ->
    LogFilter.explicit_at pNodes (n ++ String dot c)%string =
    let '(index, found) := LogFilter.nodeIndex pNodes n (Z.of_nat (String.length n)) in
    if negb found then false
    else match nth_error pNodes index with
         | None => false
         | Some node => LogFilter.explicit_at (Node.nodes node) c
         end.
Proof.
  intros pNodes n c Hd Hne Hc. unfold LogFilter.explicit_at.
  rewrite node_at_loop_step, (next_dot n c Hd Hne).
  destruct (LogFilter.nodeIndex pNodes n (Z.of_nat (String.length n))) as [index found].
  destruct (negb found); [ reflexivity | ].
  destruct (nth_error pNodes index); [ | reflexivity ].
  destruct c; [ contradiction | reflexivity ].
Qed.

Lemma on_path_more :
  forall n r s, LogFilter.on_path r s -> LogFilter.on_path (n ++ String dot r) (n ++ String dot s).
Proof.
  intros n r s [Hne [rest [-> Hrest]]]. split.
  - destruct n; discriminate.
  - exists rest. split; [ rewrite app_dot_assoc; reflexivity | exact Hrest ].
Qed.

(** Along a path without explicit levels the level stays what it is. *)
Lemma level_loop_transparent :
  forall n suffix, (String.length suffix <= n)%nat ->
    forall pNodes lvl,
      (forall s, LogFilter.on_path suffix s -> LogFilter.explicit_at pNodes s = false) ->
      LogFilter.level_loop (String.length suffix) pNodes suffix lvl = lvl.
Proof.
  induction n as [|n IH]; intros suffix Hn pNodes lvl H.
  - destruct suffix; [ reflexivity | simpl in Hn; lia ].
  - rewrite level_loop_step.
    destruct (category_shapes suffix) as [E _ | Hd Hne E | n0 r -> Hd Hne E]; rewrite E.
    + reflexivity.
    + assert (Hs : LogFilter.explicit_at pNodes suffix = false).
      { apply H. split; [ exact Hne | ]. exists EmptyString.
        rewrite append_empty_r. split; [ reflexivity | left; reflexivity ]. }
      rewrite (explicit_at_last pNodes suffix Hd Hne) in Hs.
      destruct (LogFilter.nodeIndex pNodes suffix (Z.of_nat (String.length suffix)))
        as [index found].
      destruct (negb found); [ reflexivity | ].
      destruct (nth_error pNodes index); [ | reflexivity ].
      rewrite Hs. reflexivity.
    + assert (Hs : LogFilter.explicit_at pNodes n0 = false).
      { apply H. split; [ exact Hne | ]. exists (String dot r).
        split; [ reflexivity | right; exists r; reflexivity ]. }
      rewrite (explicit_at_last pNodes n0 Hd Hne) in Hs.
      assert (Hr : forall s, LogFilter.on_path r s ->
                     LogFilter.explicit_at pNodes (n0 ++ String dot s)%string = false).
      { intros s Hs'. apply H. apply on_path_more. exact Hs'. }
      destruct (LogFilter.nodeIndex pNodes n0 (Z.of_nat (String.length n0)))
        as [index found] eqn:EI.
      destruct (negb found) eqn:EF; [ reflexivity | ].
      destruct (nth_error pNodes index) as [node|] eqn:EN; [ | reflexivity ].
      rewrite Hs. apply IH.
      * rewrite length_append in Hn. simpl in Hn. lia.
      * intros s Hs'. specialize (Hr s Hs').
        rewrite (explicit_at_more pNodes n0 s Hd Hne (proj1 Hs')), EI, EF, EN in Hr. exact Hr.
Qed.

Lemma level_loop_inherits :
  forall n c2, (String.length c2 <= n)%nat ->
    forall pNodes suffix lvl,
      (forall s, LogFilter.on_path suffix s ->
                 LogFilter.explicit_at pNodes (c2 ++ String dot s)%string = false) ->
      LogFilter.level_loop (String.length (c2 ++ String dot suffix)%string) pNodes
        (c2 ++ String dot suffix)%string lvl
      = LogFilter.level_loop (String.length c2) pNodes c2 lvl.
Proof.
  induction n as [|n IH]; intros c2 Hn pNodes suffix lvl H.
  - destruct c2; [ reflexivity | simpl in Hn; lia ].
  - rewrite (level_loop_step pNodes c2), level_loop_step.
    destruct (category_shapes c2) as [E [->| [r ->]] | Hd Hne E | n0 r -> Hd Hne E].
    + reflexivity.
    + reflexivity.
    + rewrite E, (next_dot c2 suffix Hd Hne).
      destruct (LogFilter.nodeIndex pNodes c2 (Z.of_nat (String.length c2)))
        as [index found] eqn:EI.
      destruct (negb found) eqn:EF; [ reflexivity | ].
      destruct (nth_error pNodes index) as [node|] eqn:EN; [ | reflexivity ].
      rewrite (level_loop_end _ EmptyString) by reflexivity.
      apply (level_loop_transparent (String.length suffix)); [ lia | ].
      intros s Hs. specialize (H s Hs).
      rewrite (explicit_at_more pNodes c2 s Hd Hne (proj1 Hs)), EI, EF, EN in H. exact H.
    + rewrite E, app_dot_assoc, (next_dot n0 _ Hd Hne).
      destruct (LogFilter.nodeIndex pNodes n0 (Z.of_nat (String.length n0)))
        as [index found] eqn:EI.
      destruct (negb found) eqn:EF; [ reflexivity | ].
      destruct (nth_error pNodes index) as [node|] eqn:EN; [ | reflexivity ].
      apply IH.
      * rewrite length_append in Hn. simpl in Hn. lia.
      * intros s Hs. specialize (H s Hs).
        rewrite app_dot_assoc in H.
        rewrite (explicit_at_more pNodes n0 _ Hd Hne) in H by (destruct r; discriminate).
        rewrite EI, EF, EN in H. exact H.
Qed.

(** C4 (as amended): for every filter and all category strings c2 and
    c1 = c2 + "." + suffix, if no category on the way from c2 to c1, c1
    included and c2 excluded, carries an explicit level, then c1 resolves to
    the level of c2. *)
Theorem level_inherited :
  forall (f : LogFilter.t) (c2 suffix : string),
    (forall s, LogFilter.on_path suffix s ->
               LogFilter.has_explicit_level f (c2 ++ String dot s)%string = false) ->
    LogFilter.level f (Some (c2 ++ String dot suffix)%string) = LogFilter.level f (Some c2).
Proof.
  intros f c2 suffix H. unfold LogFilter.level.
  destruct (LogFilter.nodes_ f) as [|n0 l] eqn:E; [ reflexivity | ].
  rewrite <- E. apply (level_loop_inherits (String.length c2)); [ lia | exact H ].
Qed.

(** In the scenario a.b inherits from a. *)
Lemma level_inherited_witness :
  LogFilter.level scenario (Some "a.b") = LogFilter.level scenario (Some "a").
Proof.
  apply (level_inherited scenario "a" "b").
  intros s [Hne [rest [E _]]].
  destruct s as [|x s]; [ contradiction | ].
  simpl in E. injection E as <- E. destruct s; [ reflexivity | discriminate E ].
Defined.

(** C4, counterexample: aa carries a level, aa.b extends it, and no
    category lies strictly between the two; yet aa.b carries a level of its
    own and does not resolve to the level of aa. *)
Lemma extension_with_own_level :
  LogFilter.has_explicit_level scenario "aa" = true /\
  (forall s r, "b" = (s ++ String dot r)%string ->
               LogFilter.has_explicit_level scenario ("aa" ++ String dot s)%string = false) /\
  LogFilter.level scenario (Some ("aa" ++ String dot "b")%string)
    <> LogFilter.level scenario (Some "aa").
Proof.
  split; [ reflexivity | split ].
  - intros s r E. destruct s as [|x s]; [ discriminate E | ].
    simpl in E. injection E as _ E. destruct s; discriminate E.
  - vm_compute. discriminate.
Qed.

(** ** The node ordering *)

Lemma byte_of_inj : forall x y, byte_of x = byte_of y -> x = y.
Proof.
  intros x y H. unfold byte_of in H. apply N2Z.inj in H.
  rewrite <- (ascii_N_embedding x), <- (ascii_N_embedding y), H. reflexivity.
Qed.

Lemma segment_compare_refl : forall a, segment_compare a a = Eq.
Proof.
  induction a as [|x a IH]; simpl; [ reflexivity | ].
  rewrite Z.compare_refl. exact IH.
Qed.

Lemma segment_compare_eq : forall a b, segment_compare a b = Eq -> a = b.
Proof.
  induction a as [|x a IH]; intros [|y b] H; simpl in H; try discriminate; [ reflexivity | ].
  destruct (byte_of x ?= byte_of y) eqn:E; try discriminate.
  apply Z.compare_eq in E. apply byte_of_inj in E. rewrite E, (IH b H). reflexivity.
Qed.

Lemma segment_compare_antisym :
  forall a b, segment_compare b a = CompOpp (segment_compare a b).
Proof.
  induction a as [|x a IH]; intros [|y b]; simpl; try reflexivity.
  rewrite (Z.compare_antisym (byte_of x) (byte_of y)).
  destruct (byte_of x ?= byte_of y); simpl; [ apply IH | reflexivity | reflexivity ].
Qed.

Lemma segment_compare_trans :
  forall a b c, segment_compare a b = Lt -> segment_compare b c = Lt -> segment_compare a c = Lt.
Proof.
  induction a as [|x a IH]; intros [|y b] [|z c] H1 H2; simpl in *; try discriminate;
    try reflexivity.
  destruct (byte_of x ?= byte_of y) eqn:E1; try discriminate;
    destruct (byte_of y ?= byte_of z) eqn:E2; try discriminate.
  - apply Z.compare_eq in E1, E2. rewrite E1, E2, Z.compare_refl. exact (IH b c H1 H2).
  - apply Z.compare_eq in E1. rewrite E1, E2. reflexivity.
  - apply Z.compare_eq in E2. rewrite <- E2, E1. reflexivity.
  - rewrite Z.compare_lt_iff in E1, E2.
    assert (E : (byte_of x ?= byte_of z) = Lt) by (apply Z.compare_lt_iff; lia).
    rewrite E. reflexivity.
Qed.

Lemma segment_compare_gt_lt :
  forall a b, segment_compare a b = Gt <-> segment_compare b a = Lt.
Proof.
  intros a b. rewrite (segment_compare_antisym a b).
  destruct (segment_compare a b); simpl; split; intros H; try discriminate; reflexivity.
Qed.

(** [strncmp] on the common length decides the ordering together with the
    lengths. *)
Lemma strncmp_segment_compare :
  forall a b,
    segment_compare a b =
    let cmp := strncmp a b (Nat.min (String.length a) (String.length b)) in
    if cmp =? 0 then Nat.compare (String.length a) (String.length b)
    else if cmp <? 0 then Lt else Gt.
Proof.
  induction a as [|x a IH]; intros [|y b]; simpl; try reflexivity.
  destruct (Z.compare_spec (byte_of x) (byte_of y)) as [E|E|E].
  - rewrite E, Z.eqb_refl. apply IH.
  - destruct (Z.eqb_spec (byte_of x) (byte_of y)) as [E'|E']; [ lia | ].
    destruct (Z.eqb_spec (byte_of x - byte_of y) 0) as [E0|E0]; [ lia | ].
    destruct (Z.ltb_spec (byte_of x - byte_of y) 0); [ reflexivity | lia ].
  - destruct (Z.eqb_spec (byte_of x) (byte_of y)) as [E'|E']; [ lia | ].
    destruct (Z.eqb_spec (byte_of x - byte_of y) 0) as [E0|E0]; [ lia | ].
    destruct (Z.ltb_spec (byte_of x - byte_of y) 0); [ lia | reflexivity ].
Qed.

(** The comparator of [nodeIndex] implements the ordering when the size
    fields are the lengths. *)
Lemma comp_segment_compare :
  forall node v found,
    Node.size node = Z.of_nat (String.length (Node.name node)) ->
    LogFilter.comp node (v, Z.of_nat (String.length v)) found =
    match segment_compare (Node.name node) v with
    | Lt => (true, found)
    | Eq => (false, true)
    | Gt => (false, found)
    end.
Proof.
  intros node v found Hs. unfold LogFilter.comp. cbn [fst snd]. rewrite Hs.
  rewrite <- Nat2Z.inj_min, Nat2Z.id.
  rewrite (strncmp_segment_compare (Node.name node) v). cbv zeta.
  destruct (strncmp (Node.name node) v
              (Nat.min (String.length (Node.name node)) (String.length v)) =? 0).
  - destruct (Nat.compare_spec (String.length (Node.name node)) (String.length v)) as [E|E|E].
    + rewrite E, Z.eqb_refl. reflexivity.
    + destruct (Z.eqb_spec (Z.of_nat (String.length (Node.name node)))
                  (Z.of_nat (String.length v))); [ lia | ].
      destruct (Z.ltb_spec (Z.of_nat (String.length (Node.name node)))
                  (Z.of_nat (String.length v))); [ reflexivity | lia ].
    + destruct (Z.eqb_spec (Z.of_nat (String.length (Node.name node)))
                  (Z.of_nat (String.length v))); [ lia | ].
      destruct (Z.ltb_spec (Z.of_nat (String.length (Node.name node)))
                  (Z.of_nat (String.length v))); [ lia | reflexivity ].
  - destruct (strncmp (Node.name node) v
                (Nat.min (String.length (Node.name node)) (String.length v)) <? 0);
      reflexivity.
Qed.

Lemma substring_all : forall a, substring 0 (String.length a) a = a.
Proof. induction a as [|x a IH]; simpl; [ | rewrite IH ]; reflexivity. Qed.

(** ** Sorted sibling sets *)

Lemma wf_app_elim :
  forall l1 l2, well_formed (l1 ++ l2) ->
    well_formed l1 /\ well_formed l2 /\
    (forall a b, In a l1 -> In b l2 ->
                 segment_compare (Node.name a) (Node.name b) = Lt).
Proof.
  induction l1 as [|n l1 IH]; intros l2 H; simpl in *.
  - split; [ constructor | split; [ exact H | intros a b [] ] ].
  - inversion H as [|n' l' Hs Hc Hlt Hl]; subst.
    destruct (IH l2 Hl) as [W1 [W2 W12]].
    split; [ | split ].
    + constructor; auto. intros m Hm. apply Hlt. apply in_or_app. left; exact Hm.
    + exact W2.
    + intros a b [<-|Ha] Hb; [ apply Hlt; apply in_or_app; right; exact Hb | auto ].
Qed.

Lemma wf_app_intro :
  forall l1 l2, well_formed l1 -> well_formed l2 ->
    (forall a b, In a l1 -> In b l2 ->
                 segment_compare (Node.name a) (Node.name b) = Lt) ->
    well_formed (l1 ++ l2).
Proof.
  induction l1 as [|n l1 IH]; intros l2 W1 W2 W12; simpl; [ exact W2 | ].
  inversion W1 as [|n' l' Hs Hc Hlt Hl]; subst.
  constructor; auto.
  - intros m Hm. apply in_app_or in Hm. destruct Hm as [Hm|Hm];
      [ apply Hlt; exact Hm | apply W12; [ left; reflexivity | exact Hm ] ].
  - apply IH; auto. intros a b Ha Hb. apply W12; [ right; exact Ha | exact Hb ].
Qed.

Lemma wf_In :
  forall l n, well_formed l -> In n l ->
    Node.size n = Z.of_nat (String.length (Node.name n)) /\ well_formed (Node.nodes n).
Proof.
  induction l as [|m l IH]; intros n W Hin; [ destruct Hin | ].
  inversion W; subst. destruct Hin as [<-|Hin]; [ split; assumption | apply IH; assumption ].
Qed.

(** A node may be put between two parts of a sibling set that it
    separates, or in the place of a node of the same name. *)
Lemma wf_insert :
  forall l1 l2 n,
    well_formed (l1 ++ l2) ->
    (forall a, In a l1 -> segment_compare (Node.name a) (Node.name n) = Lt) ->
    (forall b, In b l2 -> segment_compare (Node.name n) (Node.name b) = Lt) ->
    Node.size n = Z.of_nat (String.length (Node.name n)) ->
    well_formed (Node.nodes n) ->
    well_formed (l1 ++ n :: l2).
Proof.
  intros l1 l2 n W H1 H2 Hs Hc.
  destruct (wf_app_elim l1 l2 W) as [W1 [W2 W12]].
  apply wf_app_intro; [ exact W1 | constructor; assumption | ].
  intros a b Ha [<-|Hb]; [ apply H1; exact Ha | apply W12; assumption ].
Qed.

Lemma wf_replace :
  forall l1 l2 n n',
    well_formed (l1 ++ n :: l2) ->
    Node.name n' = Node.name n -> Node.size n' = Node.size n ->
    well_formed (Node.nodes n') ->
    well_formed (l1 ++ n' :: l2).
Proof.
  intros l1 l2 n n' W En Es Hc.
  destruct (wf_app_elim l1 (n :: l2) W) as [W1 [W2 W12]].
  inversion W2 as [|n0 l0 Hs Hc0 Hlt Hl]; subst.
  apply wf_app_intro; [ exact W1 | | ].
  - constructor; [ rewrite Es, En; exact Hs | exact Hc | rewrite En; exact Hlt | exact Hl ].
  - intros a b Ha [<-|Hb].
    + rewrite En. apply W12; [ exact Ha | left; reflexivity ].
    + apply W12; [ exact Ha | right; exact Hb ].
Qed.

Lemma wf_index_lt :
  forall l i j a b, well_formed l -> (i < j)%nat ->
    nth_error l i = Some a -> nth_error l j = Some b ->
    segment_compare (Node.name a) (Node.name b) = Lt.
Proof.
  induction l as [|n l IH]; intros i j a b W Hij Ha Hb.
  - destruct i; discriminate Ha.
  - inversion W as [|n' l' Hs Hc Hlt Hl]; subst.
    destruct j as [|j]; [ lia | ]. simpl in Hb.
    destruct i as [|i]; simpl in Ha.
    + injection Ha as <-. apply Hlt. apply (nth_error_In _ _ Hb).
    + apply (IH i j a b Hl); [ lia | exact Ha | exact Hb ].
Qed.

Lemma wf_sorted :
  forall l, well_formed l ->
    StronglySorted (fun a b => segment_compare (Node.name a) (Node.name b) = Lt) l.
Proof.
  induction l as [|n l IH]; intros W; [ constructor | ].
  inversion W; subst. constructor; [ apply IH; assumption | ].
  apply Forall_forall. assumption.
Qed.

Lemma wf_names_NoDup :
  forall l, well_formed l -> NoDup (map Node.name l).
Proof.
  induction l as [|n l IH]; intros W; simpl; [ constructor | ].
  inversion W as [|n' l' Hs Hc Hlt Hl]; subst.
  constructor; [ | apply IH; exact Hl ].
  intros Hin. apply in_map_iff in Hin. destruct Hin as [m [Em Hm]].
  specialize (Hlt m Hm). rewrite Em, segment_compare_refl in Hlt. discriminate Hlt.
Qed.

Lemma wf_text :
  forall l n, well_formed l -> In n l -> LogFilter.text n = Node.name n.
Proof.
  intros l n W Hin. destruct (wf_In l n W Hin) as [Hs _].
  unfold LogFilter.text. rewrite Hs, Nat2Z.id. apply substring_all.
Qed.

(** *** The binary search *)

Lemma lower_bound_spec :
  forall fuel l v first len found,
    well_formed l ->
    (len <= fuel)%nat -> (first + len <= List.length l)%nat ->
    (forall k n, (k < first)%nat -> nth_error l k = Some n ->
                 segment_compare (Node.name n) v = Lt) ->
    (found = true ->
     exists n, nth_error l (first + len) = Some n /\ segment_compare (Node.name n) v = Eq) ->
    (found = false ->
     forall k n, (first + len <= k)%nat -> nth_error l k = Some n ->
                 segment_compare (Node.name n) v = Gt) ->
    let r := LogFilter.lower_bound fuel l (v, Z.of_nat (String.length v)) first len found in
    (fst r <= List.length l)%nat /\
    (forall k n, (k < fst r)%nat -> nth_error l k = Some n ->
                 segment_compare (Node.name n) v = Lt) /\
    (snd r = true ->
     exists n, nth_error l (fst r) = Some n /\ segment_compare (Node.name n) v = Eq) /\
    (snd r = false ->
     forall k n, (fst r <= k)%nat -> nth_error l k = Some n ->
                 segment_compare (Node.name n) v = Gt).
Proof.
  induction fuel as [|fuel IH]; intros l v first len found W Hf Hb P1 P3 P4.
  - assert (len = 0%nat) by lia. subst len. rewrite Nat.add_0_r in *.
    simpl. repeat split; auto; lia.
  - destruct len as [|len'].
    + rewrite Nat.add_0_r in *. simpl. repeat split; auto; lia.
    + cbn [LogFilter.lower_bound].
      set (len := S len') in *.
      assert (Hhalf : (Nat.div2 len < len)%nat) by (apply Nat.lt_div2; unfold len; lia).
      set (half := Nat.div2 len) in *.
      destruct (nth_error l (first + half)) as [node|] eqn:EN;
        [ | apply nth_error_None in EN; lia ].
      destruct (wf_In l node W (nth_error_In _ _ EN)) as [Hs _].
      rewrite (comp_segment_compare node v found Hs).
      destruct (segment_compare (Node.name node) v) eqn:EC.
      * (* the middle node is the value *)
        assert (Q3 : true = true ->
                     exists n, nth_error l (first + half) = Some n /\
                               segment_compare (Node.name n) v = Eq).
        { intros _. exists node. split; assumption. }
        assert (Q4 : true = false ->
                     forall k n, (first + half <= k)%nat -> nth_error l k = Some n ->
                                 segment_compare (Node.name n) v = Gt).
        { intros Hx; discriminate Hx. }
        apply (IH l v first half true W ltac:(lia) ltac:(lia) P1 Q3 Q4).
      * (* the middle node is less *)
        replace (first + len)%nat with (S (first + half) + (len - half - 1))%nat in P3, P4, Hb
          by lia.
        assert (Q1 : forall k n, (k < S (first + half))%nat -> nth_error l k = Some n ->
                                 segment_compare (Node.name n) v = Lt).
        { intros k n Hk Hn.
          destruct (Nat.lt_ge_cases k (first + half)) as [Hlt|Hge].
          - apply (segment_compare_trans _ (Node.name node));
              [ apply (wf_index_lt l k (first + half) n node W Hlt Hn EN) | exact EC ].
          - assert (k = (first + half)%nat) by lia. subst k.
            rewrite EN in Hn. injection Hn as <-. exact EC. }
        apply (IH l v (S (first + half)) (len - half - 1)%nat found W ltac:(lia) Hb Q1 P3 P4).
      * (* the middle node is greater *)
        assert (Q3 : found = true ->
                     exists n, nth_error l (first + half) = Some n /\
                               segment_compare (Node.name n) v = Eq).
        { intros Hfound. exfalso.
          destruct (P3 Hfound) as [nb [Hnb Eb]].
          apply segment_compare_eq in Eb.
          pose proof (wf_index_lt l (first + half) (first + len) node nb W
                        ltac:(lia) EN Hnb) as Hlt.
          rewrite Eb in Hlt. rewrite Hlt in EC. discriminate EC. }
        assert (Q4 : found = false ->
                     forall k n, (first + half <= k)%nat -> nth_error l k = Some n ->
                                 segment_compare (Node.name n) v = Gt).
        { intros _ k n Hk Hn.
          destruct (Nat.eq_dec k (first + half)) as [->|Hne].
          - rewrite EN in Hn. injection Hn as <-. exact EC.
          - apply segment_compare_gt_lt.
            apply (segment_compare_trans _ (Node.name node));
              [ apply segment_compare_gt_lt; exact EC
              | apply (wf_index_lt l (first + half) k node n W ltac:(lia) EN Hn) ]. }
        apply (IH l v first half found W ltac:(lia) ltac:(lia) P1 Q3 Q4).
Qed.

Lemma skipn_nth_error :
  forall (A : Type) (l : list A) i x, nth_error l i = Some x -> skipn i l = x :: skipn (S i) l.
Proof.
  induction l as [|y l IH]; intros i x H; destruct i; simpl in *; try discriminate.
  - injection H as <-. reflexivity.
  - apply IH. exact H.
Qed.

Lemma In_firstn_index :
  forall (A : Type) (l : list A) i x, In x (firstn i l) ->
    exists k, (k < i)%nat /\ nth_error l k = Some x.
Proof.
  induction l as [|y l IH]; intros i x H; destruct i; simpl in *; try contradiction.
  destruct H as [<-|H].
  - exists 0%nat. split; [ lia | reflexivity ].
  - destruct (IH i x H) as [k [Hk Hn]]. exists (S k). split; [ lia | exact Hn ].
Qed.

Lemma In_skipn_index :
  forall (A : Type) (l : list A) i x, In x (skipn i l) ->
    exists k, (i <= k)%nat /\ nth_error l k = Some x.
Proof.
  induction l as [|y l IH]; intros i x H; destruct i; try (simpl in H; contradiction).
  - rewrite skipn_O in H. destruct (In_nth_error _ _ H) as [k Hk].
    exists k. split; [ lia | exact Hk ].
  - simpl in H. destruct (IH i x H) as [k [Hk Hn]]. exists (S k). split; [ lia | exact Hn ].
Qed.

(** [nodeIndex] on a sorted sibling set: the nodes before the index are
    less than the name; when the name is found the node at the index has it;
    when it is not, the nodes from the index on are greater. *)
Lemma nodeIndex_spec :
  forall l v, well_formed l ->
    let r := LogFilter.nodeIndex l v (Z.of_nat (String.length v)) in
    (fst r <= List.length l)%nat /\
    (forall a, In a (firstn (fst r) l) -> segment_compare (Node.name a) v = Lt) /\
    (snd r = true ->
     exists n, nth_error l (fst r) = Some n /\ Node.name n = v) /\
    (snd r = false ->
     forall b, In b (skipn (fst r) l) -> segment_compare (Node.name b) v = Gt).
Proof.
  intros l v W r. subst r. unfold LogFilter.nodeIndex.
  assert (P1 : forall k n, (k < 0)%nat -> nth_error l k = Some n ->
                           segment_compare (Node.name n) v = Lt) by (intros k n Hk; lia).
  assert (P3 : false = true ->
               exists n, nth_error l (0 + List.length l) = Some n /\
                         segment_compare (Node.name n) v = Eq) by (intros Hx; discriminate Hx).
  assert (P4 : false = false ->
               forall k n, (0 + List.length l <= k)%nat -> nth_error l k = Some n ->
                           segment_compare (Node.name n) v = Gt).
  { intros _ k n Hk Hn.
    assert (Hlt : (k < List.length l)%nat) by (apply nth_error_Some; congruence).
    simpl in Hk. lia. }
  destruct (lower_bound_spec (List.length l) l v 0 (List.length l) false W
              (Nat.le_refl _) (Nat.le_refl _) P1 P3 P4) as [B [L [F G]]].
  - split; [ exact B | split; [ | split ] ].
    + intros a Ha. destruct (In_firstn_index _ _ _ _ Ha) as [k [Hk Hn]]. apply (L k a Hk Hn).
    + intros Hf. destruct (F Hf) as [n [Hn En]]. exists n. split; [ exact Hn | ].
      apply segment_compare_eq. exact En.
    + intros Hf b Hb. destruct (In_skipn_index _ _ _ _ Hb) as [k [Hk Hn]].
      apply (G Hf k b Hk Hn).
Qed.

Lemma nodeIndex_found_iff :
  forall l v, well_formed l ->
    (snd (LogFilter.nodeIndex l v (Z.of_nat (String.length v))) = true <->
     exists n, In n l /\ Node.name n = v).
Proof.
  intros l v W. destruct (nodeIndex_spec l v W) as [B [L [F G]]]. split.
  - intros Hf. destruct (F Hf) as [n [Hn En]]. exists n.
    split; [ apply (nth_error_In _ _ Hn) | exact En ].
  - intros [n [Hin En]].
    destruct (snd (LogFilter.nodeIndex l v (Z.of_nat (String.length v)))) eqn:E;
      [ reflexivity | exfalso ].
    rewrite <- (firstn_skipn (fst (LogFilter.nodeIndex l v (Z.of_nat (String.length v)))) l)
      in Hin.
    apply in_app_or in Hin.
    pose proof (segment_compare_refl v) as R.
    destruct Hin as [Hin|Hin].
    + specialize (L n Hin). rewrite En in L. congruence.
    + specialize (G eq_refl n Hin). rewrite En in G. congruence.
Qed.

(** *** The construction keeps the sibling sets sorted *)

Lemma next_size :
  forall c n z c', nextSubcategoryName c = Some (n, z, c') -> z = Z.of_nat (String.length n).
Proof.
  intros c n z c' H. destruct (category_shapes c) as [E _ | Hd Hne E | n0 r -> Hd Hne E];
    rewrite E in H; [ discriminate H | | ]; injection H as <- <- <-; reflexivity.
Qed.

Lemma nth_error_middle :
  forall (A : Type) (l1 l2 : list A) x i,
    List.length l1 = i -> nth_error (l1 ++ x :: l2) i = Some x.
Proof.
  intros A l1 l2 x i <-. rewrite nth_error_app2 by lia. rewrite Nat.sub_diag. reflexivity.
Qed.

Lemma set_middle :
  forall (A : Type) (l1 l2 : list A) x y i,
    List.length l1 = i -> Array.set (l1 ++ x :: l2) i y = l1 ++ y :: l2.
Proof.
  intros A l1 l2 x y i <-. unfold Array.set.
  rewrite firstn_app, firstn_all, Nat.sub_diag, firstn_O, app_nil_r.
  rewrite skipn_app, (skipn_all2 l1) by lia.
  replace (S (List.length l1) - List.length l1)%nat with 1%nat by lia. reflexivity.
Qed.

Lemma insert_loop_wf :
  forall fuel c pNodes lvl h r h',
    well_formed pNodes ->
    LogFilter.short_names fuel c = true ->
    LogFilter.insert_loop fuel pNodes c lvl h = (Some r, h') ->
    well_formed r.
Proof.
  induction fuel as [|fuel IH]; intros c pNodes lvl h r h' W Hshort H.
  - simpl in H. injection H as <- _. exact W.
  - cbn [LogFilter.insert_loop LogFilter.short_names] in H, Hshort.
    destruct (nextSubcategoryName c) as [[[name size] c']|] eqn:E;
      [ | injection H as <- _; exact W ].
    apply andb_true_iff in Hshort. destruct Hshort as [Hsz Hrest].
    apply Z.ltb_lt in Hsz.
    pose proof (next_size c name size c' E) as Hsize. subst size.
    destruct (nodeIndex_spec pNodes name W) as [B [L [F G]]].
    destruct (LogFilter.nodeIndex pNodes name (Z.of_nat (String.length name)))
      as [index found].
    cbn [fst snd] in B, L, F, G.
    assert (Hlen : List.length (firstn index pNodes) = index) by (apply firstn_length_le; exact B).
    destruct found.
    + (* the node exists *)
      destruct (F eq_refl) as [node [Hn En]].
      unfold bind in H. cbn [ret] in H. rewrite Hn in H.
      destruct (LogFilter.insert_loop fuel (Node.nodes node) c' lvl h)
        as [[children|] h1] eqn:EI; [ | discriminate H ].
      injection H as <- _.
      assert (Hsplit : pNodes = firstn index pNodes ++ node :: skipn (S index) pNodes).
      { rewrite <- (skipn_nth_error _ _ _ _ Hn), firstn_skipn. reflexivity. }
      unfold Array.set.
      apply (wf_replace _ _ node); [ rewrite <- Hsplit; exact W | reflexivity | reflexivity | ].
      cbn [Node.nodes].
      apply (IH c' (Node.nodes node) lvl h children h1);
        [ apply (wf_In pNodes node W (nth_error_In _ _ Hn)) | exact Hrest | exact EI ].
    + (* a node is added *)
      unfold bind in H.
      destruct (Array.insert pNodes index (Node.new name (Z.of_nat (String.length name))) h)
        as [[pNodes1|] h1] eqn:EA; [ | discriminate H ].
      assert (E1 : pNodes1 = firstn index pNodes
                             ++ Node.new name (Z.of_nat (String.length name))
                             :: skipn index pNodes).
      { unfold Array.insert, bind, ret in EA.
        destruct (alloc h) as [[u|] h2]; [ | discriminate EA ].
        injection EA as <- _. reflexivity. }
      subst pNodes1.
      rewrite (nth_error_middle _ _ _ _ _ Hlen) in H.
      cbn [Node.new Node.nodes Node.name Node.size Node.level] in H.
      destruct (LogFilter.insert_loop fuel [] c' lvl h1) as [[children|] h2] eqn:EI;
        [ | discriminate H ].
      injection H as <- _.
      rewrite (set_middle _ _ _ _ _ _ Hlen).
      apply wf_insert.
      * rewrite firstn_skipn. exact W.
      * intros a Ha. cbn [Node.name]. apply L. exact Ha.
      * intros b Hb. cbn [Node.name]. apply segment_compare_gt_lt. apply (G eq_refl). exact Hb.
      * cbn [Node.name Node.size]. unfold to_uint16. apply Z.mod_small. lia.
      * cbn [Node.nodes].
        apply (IH c' [] lvl h1 children h2); [ constructor | exact Hrest | exact EI ].
Qed.

Lemma process_filters_wf :
  forall filters nodes h r h',
    (forall f, In f filters -> LogFilter.short_filter f = true) ->
    well_formed nodes ->
    LogFilter.process_filters filters nodes h = (Some r, h') ->
    well_formed r.
Proof.
  induction filters as [|f filters IH]; intros nodes h r h' Hshort W H; simpl in H.
  - injection H as <- _. exact W.
  - assert (Hf : LogFilter.short_filter f = true) by (apply Hshort; left; reflexivity).
    assert (Hrest : forall g, In g filters -> LogFilter.short_filter g = true)
      by (intros g Hg; apply Hshort; right; exact Hg).
    unfold LogFilter.short_filter in Hf.
    destruct (cat_ f) as [c|]; [ | apply (IH nodes h r h' Hrest W H) ].
    unfold bind in H.
    destruct (LogFilter.insert_loop (String.length c) nodes c (level_ f) h)
      as [[nodes1|] h1] eqn:EI; [ | discriminate H ].
    apply (IH nodes1 h1 r h' Hrest); [ | exact H ].
    apply (insert_loop_wf _ _ _ _ _ _ _ W Hf EI).
Qed.

Lemma new_wf :
  forall level filters h,
    (forall f, In f filters -> LogFilter.short_filter f = true) ->
    well_formed (LogFilter.nodes_ (fst (LogFilter.new level filters h))).
Proof.
  intros level filters h Hshort. unfold LogFilter.new, LogFilter.build, bind.
  destruct (Array.reserve (List.length filters) h) as [[u|] h1]; [ | constructor ].
  destruct (LogFilter.process_filters filters [] h1) as [[nodes|] h2] eqn:EP; [ | constructor ].
  cbn [ret fst LogFilter.nodes_].
  apply (process_filters_wf filters [] h1 nodes h2 Hshort); [ constructor | exact EP ].
Qed.

Lemma sibling_set_wf :
  forall root l, well_formed root -> LogFilter.sibling_set root l -> well_formed l.
Proof.
  intros root l W S. induction S as [|l n S IH Hin]; [ exact W | ].
  apply (wf_In l n IH Hin).
Qed.

(** C7 (as amended): for every filter list whose subcategory names are
    shorter than 65536 bytes, every sibling set of the tree built from it is
    sorted strictly, hence without duplicates, under the node ordering; the
    comparator of nodeIndex decides that ordering; and nodeIndex finds a
    name exactly when a sibling with that text exists. *)
Theorem sibling_sets_sorted :
  forall (level : LogLevel) (filters : LogCategoryFilters) (h : Heap),
    (forall f, In f filters -> LogFilter.short_filter f = true) ->
    forall l, LogFilter.sibling_set (LogFilter.nodes_ (fst (LogFilter.new level filters h))) l ->
      StronglySorted
        (fun a b => segment_compare (LogFilter.text a) (LogFilter.text b) = Lt) l /\
      NoDup (map LogFilter.text l) /\
      (forall n v found, In n l ->
         LogFilter.comp n (v, Z.of_nat (String.length v)) found =
         match segment_compare (LogFilter.text n) v with
         | Lt => (true, found)
         | Eq => (false, true)
         | Gt => (false, found)
         end) /\
      (forall v,
         snd (LogFilter.nodeIndex l v (Z.of_nat (String.length v))) = true <->
         exists n, In n l /\ LogFilter.text n = v).
Proof.
  intros level filters h Hshort l S.
  assert (W : well_formed l).
  { apply (sibling_set_wf _ l (new_wf level filters h Hshort) S). }
  split; [ | split; [ | split ] ].
  - assert (G : forall l0, (forall n, In n l0 -> LogFilter.text n = Node.name n) ->
                 StronglySorted
                   (fun a b => segment_compare (Node.name a) (Node.name b) = Lt) l0 ->
                 StronglySorted
                   (fun a b => segment_compare (LogFilter.text a) (LogFilter.text b) = Lt) l0).
    { induction l0 as [|n l0 IH]; intros T SS; [ constructor | ].
      inversion SS as [|n' l' SS' F]; subst.
      constructor.
      - apply IH; [ intros m Hm; apply T; right; exact Hm | exact SS' ].
      - rewrite Forall_forall in *. intros m Hm.
        rewrite (T n (or_introl eq_refl)), (T m (or_intror Hm)). apply F. exact Hm. }
    apply G; [ intros n Hn; apply (wf_text l n W Hn) | apply wf_sorted; exact W ].
  - rewrite (map_ext_in LogFilter.text Node.name l (fun n Hn => wf_text l n W Hn)).
    apply wf_names_NoDup. exact W.
  - intros n v found Hn. rewrite (wf_text l n W Hn).
    apply comp_segment_compare. apply (wf_In l n W Hn).
  - intros v. rewrite (nodeIndex_found_iff l v W). split.
    + intros [n [Hn En]]. exists n. split; [ exact Hn | ]. rewrite (wf_text l n W Hn). exact En.
    + intros [n [Hn En]]. exists n. split; [ exact Hn | ]. rewrite <- (wf_text l n W Hn). exact En.
Qed.

(** The root nodes of the scenario and the name aa. *)
Lemma sibling_sets_sorted_witness :
  snd (LogFilter.nodeIndex (LogFilter.nodes_ scenario) "aa" (Z.of_nat (String.length "aa"))) = true <->
  exists n, In n (LogFilter.nodes_ scenario) /\ LogFilter.text n = "aa".
Proof.
  refine (proj2 (proj2 (proj2 (sibling_sets_sorted LOG_LEVEL_NONE scenario_filters [] _
                                 (LogFilter.nodes_ scenario) _))) "aa").
  - intros f Hf. repeat (destruct Hf as [<-|Hf]; [ reflexivity | ]). destruct Hf.
  - apply LogFilter.siblings_root.
Defined.

(** C7, counterexample: the filters a (error) and a name of 65537 letters
    a (trace) make two root nodes that both stand for the text a, the size
    field of the second having wrapped to 1; the root nodes are not sorted
    strictly, and the long name is not found although a node was made for
    it. *)
Lemma long_name_duplicates :
  let root := LogFilter.nodes_
                (fst (LogFilter.new LOG_LEVEL_NONE
                        [filt "a" LOG_LEVEL_ERROR; filt long_name LOG_LEVEL_TRACE] [])) in
  LogFilter.constructed [filt "a" LOG_LEVEL_ERROR; filt long_name LOG_LEVEL_TRACE] [] = true /\
  map LogFilter.text root = ["a"; "a"] /\
  snd (LogFilter.nodeIndex root long_name (Z.of_nat (String.length long_name))) = false /\
  ~ NoDup (map LogFilter.text root) /\
  ~ StronglySorted
      (fun a b => segment_compare (LogFilter.text a) (LogFilter.text b) = Lt) root.
Proof.
  intros root.
  assert (T : map LogFilter.text root = ["a"; "a"]) by (vm_compute; reflexivity).
  split; [ vm_compute; reflexivity | ].
  split; [ exact T | ].
  split; [ vm_compute; reflexivity | ].
  split.
  { rewrite T. intros D. inversion D as [|x l Hx _]; subst. apply Hx. left; reflexivity. }
  intros SS.
  destruct root as [|n1 [|n2 [|n3 root]]]; try discriminate T.
  injection T as T1 T2.
  inversion SS as [|a l SS' F]; subst.
  inversion F as [|b l' E F']; subst.
  rewrite T1, T2 in E. discriminate E.
Qed.

(** ** The concrete filter scenario *)

(** C3: for the tree built from the filters a (error), a.b.c (trace),
    a.b.x (trace), aa (error), aa.b (warn) with default level NONE, whatever
    the allocator does as long as the construction runs to its end, the
    categories a, a.b, a.b.c, a.b.c.d, aa.b and z resolve to ERROR, ERROR,
    TRACE, TRACE, WARN and NONE. *)
Theorem scenario_levels :
  forall h : Heap,
    LogFilter.constructed scenario_filters h = true ->
    let f := fst (LogFilter.new LOG_LEVEL_NONE scenario_filters h) in
    LogFilter.level f (Some "a") = LOG_LEVEL_ERROR /\
    LogFilter.level f (Some "a.b") = LOG_LEVEL_ERROR /\
    LogFilter.level f (Some "a.b.c") = LOG_LEVEL_TRACE /\
    LogFilter.level f (Some "a.b.c.d") = LOG_LEVEL_TRACE /\
    LogFilter.level f (Some "aa.b") = LOG_LEVEL_WARN /\
    LogFilter.level f (Some "z") = LOG_LEVEL_NONE.
Proof.
  intros h.
  do 7 (destruct h as [|[|] h];
        [ | | intros H; vm_compute in H; discriminate H ];
        [ intros _; vm_compute; repeat split; reflexivity | ]).
  intros _. vm_compute. repeat split; reflexivity.
Qed.

(** The scenario without allocation failures. *)
Lemma scenario_levels_witness :
  LogFilter.constructed scenario_filters [] = true /\
  LogFilter.level scenario (Some "aa.b") = LOG_LEVEL_WARN.
Proof.
  split; [ reflexivity | ].
  apply (scenario_levels [] eq_refl).
Defined.

(** ** Construction failures of the filter *)

(** The construction fails only when the allocator does. *)
Lemma alloc_succeeds :
  forall h, Forall (eq true) h -> exists h', alloc h = (Some tt, h') /\ Forall (eq true) h'.
Proof.
  intros h H. destruct H as [|b h Hb H]; simpl.
  - exists []. split; [ reflexivity | constructor ].
  - subst b. exists h. split; [ reflexivity | exact H ].
Qed.

Lemma insert_loop_succeeds :
  forall fuel pNodes c lvl h, Forall (eq true) h ->
    exists r h', LogFilter.insert_loop fuel pNodes c lvl h = (Some r, h') /\ Forall (eq true) h'.
Proof.
  induction fuel as [|fuel IH]; intros pNodes c lvl h H; cbn [LogFilter.insert_loop].
  - exists pNodes, h. split; [ reflexivity | exact H ].
  - destruct (nextSubcategoryName c) as [[[name size] c']|];
      [ | exists pNodes, h; split; [ reflexivity | exact H ] ].
    destruct (LogFilter.nodeIndex pNodes name size) as [index found].
    assert (E : exists p1 h1,
               (if found then ret pNodes
                else Array.insert pNodes index (Node.new name size)) h = (Some p1, h1) /\
               Forall (eq true) h1).
    { destruct found; [ exists pNodes, h; split; [ reflexivity | exact H ] | ].
      destruct (alloc_succeeds h H) as [h1 [E1 H1]].
      unfold Array.insert, bind. rewrite E1. eexists; eexists; split; [ reflexivity | exact H1 ]. }
    destruct E as [p1 [h1 [E1 H1]]]. unfold bind at 1. rewrite E1.
    destruct (nth_error p1 index) as [node|];
      [ | exists p1, h1; split; [ reflexivity | exact H1 ] ].
    destruct (IH (Node.nodes node) c' lvl h1 H1) as [r [h2 [E2 H2]]].
    unfold bind. rewrite E2. eexists; eexists; split; [ reflexivity | exact H2 ].
Qed.

Lemma construction_succeeds :
  forall filters h, Forall (eq true) h -> LogFilter.constructed filters h = true.
Proof.
  intros filters h H. unfold LogFilter.constructed, LogFilter.build.
  assert (R : exists h1, Array.reserve (List.length filters) h = (Some tt, h1) /\
                         Forall (eq true) h1).
  { unfold Array.reserve. destruct (List.length filters);
      [ exists h; split; [ reflexivity | exact H ] | apply alloc_succeeds; exact H ]. }
  destruct R as [h1 [E1 H1]]. unfold bind at 1. rewrite E1.
  assert (P : forall fs nodes h0, Forall (eq true) h0 ->
                exists r h', LogFilter.process_filters fs nodes h0 = (Some r, h')).
  { induction fs as [|f fs IH]; intros nodes h0 H0; simpl.
    - exists nodes, h0. reflexivity.
    - destruct (cat_ f) as [c|]; [ | apply IH; exact H0 ].
      destruct (insert_loop_succeeds (String.length c) nodes c (level_ f) h0 H0)
        as [r [h' [E H']]].
      unfold bind. rewrite E. apply IH. exact H'. }
  destruct (P filters [] h1 H1) as [r [h' E]]. unfold bind. rewrite E. reflexivity.
Qed.

(** C5 (as amended): when the construction of the filter hits an allocation
    failure, the filter has no nodes and resolves every category to
    LOG_LEVEL_NONE, the fallback level, whatever default level was asked
    for. *)
Theorem failed_construction_fallback :
  forall (level : LogLevel) (filters : LogCategoryFilters) (h : Heap),
    LogFilter.constructed filters h = false ->
    let f := fst (LogFilter.new level filters h) in
    LogFilter.nodes_ f = [] /\
    forall category, LogFilter.level f category = LOG_LEVEL_NONE.
Proof.
  intros level filters h Hc. unfold LogFilter.constructed in Hc.
  unfold LogFilter.new.
  destruct (LogFilter.build filters h) as [[[cats nodes]|] h']; simpl in *.
  - discriminate Hc.
  - split; [ reflexivity | ].
    intros [c|]; reflexivity.
Qed.

(** The insertion of the first node fails. *)
Lemma failed_construction_fallback_witness :
  LogFilter.constructed [filt "a" LOG_LEVEL_TRACE] [true; false] = false /\
  LogFilter.level (fst (LogFilter.new LOG_LEVEL_INFO [filt "a" LOG_LEVEL_TRACE] [true; false]))
                  (Some "a") = LOG_LEVEL_NONE.
Proof.
  split; [ reflexivity | ].
  apply (failed_construction_fallback LOG_LEVEL_INFO [filt "a" LOG_LEVEL_TRACE] [true; false] eq_refl).
Defined.

(** C5, counterexample: with the default level INFO and an allocation
    failure at the insertion of the first node, the category a does not
    resolve to the configured default level. *)
Lemma failed_construction_not_default :
  LogFilter.constructed [filt "a" LOG_LEVEL_TRACE] [true; false] = false /\
  LogFilter.level (fst (LogFilter.new LOG_LEVEL_INFO [filt "a" LOG_LEVEL_TRACE] [true; false]))
                  (Some "a") <> LOG_LEVEL_INFO.
Proof.
  split; [ reflexivity | ].
  vm_compute. discriminate.
Qed.

(** ** The "param" member of a request *)

(** With the member named "params" the baud rate reaches the stream. *)
Lemma params_member_forwarded :
  forall N : Z,
    let '(ok, _, s) := JSONRequestHandler.process (serial1_request "params" N)
                         (LogManager_new photon [] Devices.init) in
    ok = true /\ Devices.Serial1_begun (LogManager.world s) = Some N.
Proof. intros N. cbv. split; reflexivity. Qed.

(** C6, the code at the failing input: a request whose "strm" object
    carries "param":{"baud":N} is accepted, and Serial1 is begun with the
    default 9600 baud, whatever N is. *)
Theorem param_member_ignored :
  forall N : Z,
    let '(ok, _, s) := JSONRequestHandler.process (serial1_request "param" N)
                         (LogManager_new photon [] Devices.init) in
    ok = true /\ Devices.Serial1_begun (LogManager.world s) = Some 9600.
Proof. intros N. cbv. split; reflexivity. Qed.

(** ** logEnabled *)

Section LogEnabled.
Context {W : Type}.

Lemma min_fold_le_init :
  forall category l m, fold_left (LogManager.logEnabled_body category) l m <= m.
Proof.
  induction l as [|x l IH]; intros m; simpl; [ lia | ].
  specialize (IH (LogManager.logEnabled_body category m x)). unfold LogManager.logEnabled_body in *.
  destruct (LogHandler.level x category <? m) eqn:E;
    [ apply Z.ltb_lt in E | apply Z.ltb_ge in E ]; lia.
Qed.

Lemma min_fold_le_each :
  forall category l m x, In x l ->
    fold_left (LogManager.logEnabled_body category) l m <= LogHandler.level x category.
Proof.
  induction l as [|y l IH]; intros m x Hin; simpl; [ destruct Hin | ].
  destruct Hin as [->|Hin].
  - pose proof (min_fold_le_init category l (LogManager.logEnabled_body category m x)) as H.
    unfold LogManager.logEnabled_body in *.
    destruct (LogHandler.level x category <? m) eqn:E;
      [ apply Z.ltb_lt in E | apply Z.ltb_ge in E ]; lia.
  - apply IH; exact Hin.
Qed.

Lemma min_fold_attained :
  forall category l m,
    fold_left (LogManager.logEnabled_body category) l m = m \/
    exists x, In x l /\ fold_left (LogManager.logEnabled_body category) l m = LogHandler.level x category.
Proof.
  induction l as [|y l IH]; intros m; simpl; [ left; reflexivity | ].
  destruct (IH (LogManager.logEnabled_body category m y)) as [E | [x [Hin E]]].
  - rewrite E. unfold LogManager.logEnabled_body.
    destruct (LogHandler.level y category <? m); [ right; exists y; auto | left; reflexivity ].
  - right. exists x; auto.
Qed.

(** C2 (as amended): for every state of the manager, every category and
    every level below LOG_LEVEL_NONE, logEnabled accepts the level exactly
    when some active handler resolves the category to a threshold that is at
    most the level; it tests the level against the minimum of LOG_LEVEL_NONE
    and the thresholds of the active handlers, so that without active
    handlers it accepts exactly the levels from LOG_LEVEL_NONE on. *)
Theorem logEnabled_below_none :
  forall (s : LogManager.t W) (level : Z) (category : option string),
    (level < LOG_LEVEL_NONE ->
     (LogManager.logEnabled level category s = true <->
      exists hnd, In hnd (LogManager.activeHandlers_ s) /\
                  LogHandler.level hnd category <= level)) /\
    (LogManager.logEnabled level category s = true <->
     (LOG_LEVEL_NONE <= level \/
      exists hnd, In hnd (LogManager.activeHandlers_ s) /\
                  LogHandler.level hnd category <= level)) /\
    (LogManager.activeHandlers_ s = [] ->
     LogManager.logEnabled level category s = (LOG_LEVEL_NONE <=? level)).
Proof.
  intros s level category.
  assert (Hgen : LogManager.logEnabled level category s = true <->
     (LOG_LEVEL_NONE <= level \/
      exists hnd, In hnd (LogManager.activeHandlers_ s) /\
                  LogHandler.level hnd category <= level)).
  { unfold LogManager.logEnabled.
    cbv zeta. rewrite Z.geb_le. split.
    - intros H.
      destruct (min_fold_attained category (LogManager.activeHandlers_ s) LOG_LEVEL_NONE)
        as [E | [x [Hin E]]]; rewrite E in H.
      + left. exact H.
      + right. exists x. split; [ exact Hin | exact H ].
    - intros [H | [x [Hin H]]].
      + pose proof (min_fold_le_init category (LogManager.activeHandlers_ s) LOG_LEVEL_NONE). lia.
      + pose proof (min_fold_le_each category (LogManager.activeHandlers_ s) LOG_LEVEL_NONE x Hin).
        lia. }
  split; [ | split ].
  - intros Hlt. rewrite Hgen. split.
    + intros [H | H]; [ lia | exact H ].
    + intros H; right; exact H.
  - exact Hgen.
  - intros E. unfold LogManager.logEnabled. rewrite E. simpl.
    rewrite Z.geb_leb. reflexivity.
Qed.

End LogEnabled.

(** Two active handlers, with the thresholds WARN and TRACE, and a message
    of level INFO. *)
Lemma logEnabled_below_none_witness :
  LOG_LEVEL_INFO < LOG_LEVEL_NONE /\
  (LogManager.logEnabled LOG_LEVEL_INFO (Some "app")
     (manager_with [one_handler 20 LOG_LEVEL_WARN; one_handler 21 LOG_LEVEL_TRACE]) = true <->
   exists hnd, In hnd [one_handler 20 LOG_LEVEL_WARN; one_handler 21 LOG_LEVEL_TRACE] /\
               LogHandler.level hnd (Some "app") <= LOG_LEVEL_INFO).
Proof.
  split; [ reflexivity | ].
  apply (proj1 (logEnabled_below_none
                  (manager_with [one_handler 20 LOG_LEVEL_WARN; one_handler 21 LOG_LEVEL_TRACE])
                  LOG_LEVEL_INFO (Some "app"))).
  reflexivity.
Defined.

(** C2, counterexample: without active handlers the level LOG_LEVEL_NONE is
    reported as enabled, although no handler accepts it. *)
Lemma logEnabled_none_without_handlers :
  LogManager.activeHandlers_ (manager_with []) = [] /\
  LogManager.logEnabled LOG_LEVEL_NONE (Some "app") (manager_with []) = true.
Proof. split; reflexivity. Qed.

(** ** The manager: frame facts *)

Section ManagerFacts.
Context {W : Type}.
Implicit Types s : LogManager.t W.
#[local] Arguments LogManager.delete_stream : simpl never.
#[local] Arguments LogManager.delete_handler : simpl never.

Lemma try_alloc_inv :
  forall s, exists b h, LogManager.try_alloc s = (b, LogManager.with_heap s h).
Proof.
  intros s. unfold LogManager.try_alloc.
  destruct (alloc (LogManager.heap s)) as [[u|] h]; eauto.
Qed.

Lemma destroy_record_frame :
  forall r s,
    LogManager.factoryHandlers_ (LogManager.destroy_record r s) = LogManager.factoryHandlers_ s /\
    LogManager.log_set_callbacks_calls (LogManager.destroy_record r s)
      = LogManager.log_set_callbacks_calls s /\
    LogManager.activeHandlers_ (LogManager.destroy_record r s)
      = fst (LogManager.removeOne (LogManager.activeHandlers_ s) (LogManager.handler r)).
Proof.
  intros r s. unfold LogManager.destroy_record, LogManager.delete_stream, LogManager.delete_handler.
  simpl. destruct (LogManager.handlerFactory_ s); simpl;
    destruct (LogManager.stream r); simpl;
    destruct (LogManager.streamFactory_ s); simpl; auto.
Qed.

Lemma destroy_loop_calls :
  forall rest i id0 s,
    LogManager.log_set_callbacks_calls (LogManager.destroyFactoryHandler_loop i rest id0 s)
    = LogManager.log_set_callbacks_calls s.
Proof.
  induction rest as [|r rest IH]; intros i id0 s; simpl; [ reflexivity | ].
  destruct (String.eqb (LogManager.id r) id0); [ | apply IH ].
  simpl. apply (destroy_record_frame r s).
Qed.

Lemma destroy_loop_unknown :
  forall rest i id0 s,
    (forall r, In r rest -> LogManager.id r <> id0) ->
    LogManager.destroyFactoryHandler_loop i rest id0 s = s.
Proof.
  induction rest as [|r rest IH]; intros i id0 s H; simpl; [ reflexivity | ].
  destruct (String.eqb_spec (LogManager.id r) id0) as [E|E].
  - exfalso. apply (H r); [ left; reflexivity | exact E ].
  - apply IH. intros r' Hin. apply H. right; exact Hin.
Qed.

Lemma destroy_loop_found :
  forall l1 r l2 i id0 s,
    (forall r', In r' l1 -> LogManager.id r' <> id0) ->
    LogManager.id r = id0 ->
    LogManager.destroyFactoryHandler_loop i (l1 ++ r :: l2) id0 s
    = LogManager.with_records (LogManager.destroy_record r s)
        (LogManager.remove (LogManager.factoryHandlers_ (LogManager.destroy_record r s))
                           (i + List.length l1)).
Proof.
  induction l1 as [|r1 l1 IH]; intros r l2 i id0 s H E; simpl.
  - rewrite <- E, String.eqb_refl, Nat.add_0_r. reflexivity.
  - destruct (String.eqb_spec (LogManager.id r1) id0) as [E1|E1].
    + exfalso. apply (H r1); [ left; reflexivity | exact E1 ].
    + rewrite IH; [ | intros r' Hin; apply H; right; exact Hin | exact E ].
      rewrite Nat.add_succ_r. reflexivity.
Qed.

Lemma remove_last_index :
  forall (A : Type) (l : list A) (x : A), LogManager.remove (l ++ [x]) (List.length l) = l.
Proof.
  intros A l x. unfold LogManager.remove.
  rewrite firstn_app, firstn_all, Nat.sub_diag, firstn_O, app_nil_r.
  rewrite skipn_app.
  rewrite (skipn_all2 l) by lia.
  replace (S (List.length l) - List.length l)%nat with 1%nat by lia.
  simpl. rewrite app_nil_r. reflexivity.
Qed.

Lemma removeOne_absent_last :
  forall l x,
    LogManager.contains l x = false ->
    LogManager.removeOne (l ++ [x]) x = (l, true).
Proof.
  induction l as [|y l IH]; intros x H; simpl in *.
  - unfold LogHandler.same. rewrite Nat.eqb_refl. reflexivity.
  - apply Bool.orb_false_iff in H. destruct H as [H1 H2].
    unfold LogHandler.same in *. rewrite Nat.eqb_sym in H1. rewrite H1.
    rewrite (IH x H2). reflexivity.
Qed.

Lemma same_lists_refl : forall s, LogManager.same_lists s s.
Proof. intros s; repeat split. Qed.

Lemma same_lists_trans :
  forall s1 s2 s3, LogManager.same_lists s1 s2 -> LogManager.same_lists s2 s3 -> LogManager.same_lists s1 s3.
Proof.
  intros s1 s2 s3 [a1 [b1 c1]] [a2 [b2 c2]].
  repeat split; congruence.
Qed.

Lemma try_alloc_same : forall s, LogManager.same_lists s (snd (LogManager.try_alloc s)).
Proof.
  intros s. destruct (try_alloc_inv s) as [b [h ->]]. repeat split.
Qed.

Lemma delete_stream_same : forall p s, LogManager.same_lists s (LogManager.delete_stream p s).
Proof.
  intros p s. unfold LogManager.delete_stream.
  destruct p; [ destruct (LogManager.streamFactory_ s) | ]; repeat split.
Qed.

Lemma delete_handler_same : forall p s, LogManager.same_lists s (LogManager.delete_handler p s).
Proof.
  intros p s. unfold LogManager.delete_handler.
  destruct p; [ destruct (LogManager.handlerFactory_ s) | ]; repeat split.
Qed.

Lemma create_stream_same :
  forall st sp s, LogManager.same_lists s (snd (LogManager.create_stream st sp s)).
Proof.
  intros st sp s. unfold LogManager.create_stream.
  destruct st; [ destruct (LogManager.streamFactory_ s) as [f|] | ]; try apply same_lists_refl.
  destruct (createStream f s0 sp (LogManager.world s)); repeat split.
Qed.

Lemma create_handler_same :
  forall ht lvl fs strm hp s,
    LogManager.same_lists s (snd (LogManager.create_handler ht lvl fs strm hp s)).
Proof.
  intros ht lvl fs strm hp s. unfold LogManager.create_handler.
  destruct ht; [ destruct (LogManager.handlerFactory_ s) as [f|] | ]; try apply same_lists_refl.
  destruct (createHandler f s0 lvl fs strm hp (LogManager.world s)); repeat split.
Qed.

Lemma register_outcome :
  forall h s,
    let r := LogManager.register h s in
    LogManager.log_set_callbacks_calls (snd r) = LogManager.log_set_callbacks_calls s /\
    (fst r = false -> LogManager.same_lists s (snd r)) /\
    (fst r = true ->
     LogManager.activeHandlers_ (snd r) = LogManager.activeHandlers_ s ++ [LogManager.handler h] /\
     LogManager.factoryHandlers_ (snd r) = LogManager.factoryHandlers_ s ++ [h]).
Proof.
  intros h s r. subst r. unfold LogManager.register.
  destruct (try_alloc_inv s) as [b1 [h1 ->]].
  destruct b1; simpl.
  - match goal with |- context [LogManager.try_alloc ?z] =>
      destruct (try_alloc_inv z) as [b2 [h2 ->]] end.
    destruct b2; simpl.
    + repeat split; intros; try discriminate; reflexivity.
    + match goal with |- context [LogManager.delete_stream ?p (LogManager.delete_handler ?q ?z)] =>
        pose proof (same_lists_trans _ _ _ (delete_handler_same q z)
                      (delete_stream_same p (LogManager.delete_handler q z))) as [a1 [a2 a3]]
      end.
      simpl in a1, a2, a3. unfold LogManager.takeLast in *. rewrite removelast_last in *.
      repeat split; intros; try discriminate; assumption.
  - match goal with |- context [LogManager.delete_stream ?p (LogManager.delete_handler ?q ?z)] =>
      pose proof (same_lists_trans _ _ _ (delete_handler_same q z)
                    (delete_stream_same p (LogManager.delete_handler q z))) as [a1 [a2 a3]]
    end.
    simpl in a1, a2, a3.
    repeat split; intros; try discriminate; assumption.
Qed.

(** The outcome of [addFactoryHandler] on the lists and the call log, in
    terms of the state [d] reached by the initial [destroyFactoryHandler]. *)
Lemma addFactoryHandler_outcome :
  forall s id0 ht lvl fs hp st sp,
    let d := LogManager.destroyFactoryHandler id0 s in
    let r := LogManager.addFactoryHandler id0 ht lvl fs hp st sp s in
    LogManager.log_set_callbacks_calls (snd r) = LogManager.log_set_callbacks_calls d /\
    (fst r = false ->
     LogManager.activeHandlers_ (snd r) = LogManager.activeHandlers_ d /\
     LogManager.factoryHandlers_ (snd r) = LogManager.factoryHandlers_ d) /\
    (fst r = true ->
     exists hnd strm,
       LogManager.activeHandlers_ (snd r) = LogManager.activeHandlers_ d ++ [hnd] /\
       LogManager.factoryHandlers_ (snd r)
       = LogManager.factoryHandlers_ d
           ++ [{| LogManager.id := id0; LogManager.handler := hnd; LogManager.stream := strm |}]).
Proof.
  intros s id0 ht lvl fs hp st sp d r. subst r.
  unfold LogManager.addFactoryHandler. fold d.
  pose proof (try_alloc_same d) as T1.
  destruct (LogManager.try_alloc d) as [copied d1]. simpl in T1.
  destruct copied; simpl;
    [ | destruct T1 as [a [b c]]; repeat split; intros; try discriminate; assumption ].
  destruct (Nat.eqb (String.length id0) 0);
    [ destruct T1 as [a [b c]]; repeat split; intros; try discriminate; assumption | ].
  pose proof (create_stream_same st sp d1) as T2.
  destruct (LogManager.create_stream st sp d1) as [strm d2]. simpl in T2.
  pose proof (same_lists_trans _ _ _ T1 T2) as T12.
  assert (K : forall x : bool * LogManager.t W,
             x = (let '(hnd, s0) := LogManager.create_handler ht lvl fs strm hp d2 in
                  match hnd with
                  | None => (false, LogManager.delete_stream strm s0)
                  | Some hp0 =>
                      LogManager.register
                        {| LogManager.id := id0; LogManager.handler := hp0;
                           LogManager.stream := strm |} s0
                  end) ->
             LogManager.log_set_callbacks_calls (snd x) = LogManager.log_set_callbacks_calls d /\
             (fst x = false ->
              LogManager.activeHandlers_ (snd x) = LogManager.activeHandlers_ d /\
              LogManager.factoryHandlers_ (snd x) = LogManager.factoryHandlers_ d) /\
             (fst x = true ->
              exists hnd strm0,
                LogManager.activeHandlers_ (snd x) = LogManager.activeHandlers_ d ++ [hnd] /\
                LogManager.factoryHandlers_ (snd x)
                = LogManager.factoryHandlers_ d
                    ++ [{| LogManager.id := id0; LogManager.handler := hnd;
                           LogManager.stream := strm0 |}])).
  { intros x ->.
    pose proof (create_handler_same ht lvl fs strm hp d2) as T3.
    destruct (LogManager.create_handler ht lvl fs strm hp d2) as [hnd d3]. simpl in T3.
    pose proof (same_lists_trans _ _ _ T12 T3) as T123.
    destruct hnd as [hp0|].
    - destruct (register_outcome
                  {| LogManager.id := id0; LogManager.handler := hp0; LogManager.stream := strm |} d3)
        as [C [F S]].
      destruct T123 as [a [b c]]. split; [ congruence | split ].
      + intros E. destruct (F E) as [a' [b' c']]. split; congruence.
      + intros E. destruct (S E) as [a' b']. simpl in a', b'.
        exists hp0, strm. rewrite a', b', a, b. split; reflexivity.
    - pose proof (same_lists_trans _ _ _ T123 (delete_stream_same strm d3)) as [a [b c]].
      simpl. repeat split; intros; try discriminate; assumption. }
  destruct st as [ty|]; [ destruct strm as [p|] | ]; try (apply K; reflexivity).
  destruct T12 as [a [b c]]. simpl. repeat split; intros; try discriminate; assumption.
Qed.

(** C1 (as amended): when [addFactoryHandler] returns failure, the active
    handlers and the records are those of the state before the call with the
    record of the same id, if any, destroyed (the effect of
    [removeFactoryHandler] for that id); they are those of the state before
    the call when no record had that id. *)
Theorem addFactoryHandler_failure_state :
  forall s id0 ht lvl fs hp st sp,
    fst (LogManager.addFactoryHandler id0 ht lvl fs hp st sp s) = false ->
    let s' := snd (LogManager.addFactoryHandler id0 ht lvl fs hp st sp s) in
    (LogManager.activeHandlers_ s'
       = LogManager.activeHandlers_ (LogManager.removeFactoryHandler id0 s) /\
     LogManager.factoryHandlers_ s'
       = LogManager.factoryHandlers_ (LogManager.removeFactoryHandler id0 s)) /\
    ((forall r, In r (LogManager.factoryHandlers_ s) -> LogManager.id r <> id0) ->
     LogManager.activeHandlers_ s' = LogManager.activeHandlers_ s /\
     LogManager.factoryHandlers_ s' = LogManager.factoryHandlers_ s).
Proof.
  intros s id0 ht lvl fs hp st sp Hf s'. subst s'.
  destruct (addFactoryHandler_outcome s id0 ht lvl fs hp st sp) as [_ [F _]].
  specialize (F Hf). split; [ exact F | ].
  intros Hun. unfold LogManager.destroyFactoryHandler in F.
  rewrite (destroy_loop_unknown _ 0%nat id0 s Hun) in F. exact F.
Qed.

(** C8 (as amended): for an id that no record has, a successful
    [addFactoryHandler] followed by [removeFactoryHandler] leaves the active
    handlers and the records, in contents and order, as they were before the
    add, provided the handler that the factory returned was not active
    already. *)
Theorem add_then_remove_factory_handler :
  forall s id0 ht lvl fs hp st sp,
    (forall r, In r (LogManager.factoryHandlers_ s) -> LogManager.id r <> id0) ->
    fst (LogManager.addFactoryHandler id0 ht lvl fs hp st sp s) = true ->
    let s' := snd (LogManager.addFactoryHandler id0 ht lvl fs hp st sp s) in
    (forall r, In r (LogManager.factoryHandlers_ s') -> LogManager.id r = id0 ->
               LogManager.contains (LogManager.activeHandlers_ s) (LogManager.handler r) = false) ->
    LogManager.activeHandlers_ (LogManager.removeFactoryHandler id0 s')
      = LogManager.activeHandlers_ s /\
    LogManager.factoryHandlers_ (LogManager.removeFactoryHandler id0 s')
      = LogManager.factoryHandlers_ s.
Proof.
  intros s id0 ht lvl fs hp st sp Hun Hok s' Hfresh.
  destruct (addFactoryHandler_outcome s id0 ht lvl fs hp st sp) as [_ [_ S]].
  destruct (S Hok) as [hnd [strm [Ha Hr]]]. clear S.
  unfold LogManager.destroyFactoryHandler in Ha, Hr.
  rewrite (destroy_loop_unknown _ 0%nat id0 s Hun) in Ha, Hr.
  fold s' in Ha, Hr.
  set (rec := {| LogManager.id := id0; LogManager.handler := hnd; LogManager.stream := strm |}) in *.
  assert (Hc : LogManager.contains (LogManager.activeHandlers_ s) hnd = false).
  { apply (Hfresh rec); [ rewrite Hr; apply in_or_app; right; left; reflexivity | reflexivity ]. }
  unfold LogManager.removeFactoryHandler, LogManager.destroyFactoryHandler.
  pose proof (destroy_loop_found (LogManager.factoryHandlers_ s) rec [] 0%nat id0 s' Hun eq_refl)
    as E.
  rewrite <- Hr in E. rewrite E. clear E.
  destruct (destroy_record_frame rec s') as [Fr [_ Fa]].
  simpl. rewrite Fa, Fr, Hr, Ha. simpl.
  rewrite (removeOne_absent_last _ _ Hc), remove_last_index. split; reflexivity.
Qed.

(** C9: [addFactoryHandler], [removeFactoryHandler], [setHandlerFactory] and
    [setStreamFactory] make no call of [log_set_callbacks], so that the
    registration is what it was: unregistered after an [addFactoryHandler]
    that made the first handler active, registered after a
    [removeFactoryHandler] that removed the last one.  [addHandler] calls it
    when it made the first handler active, [removeHandler] when it removed
    the last one, and the destructor always. *)
Theorem factory_handlers_leave_callbacks :
  forall s id0 ht lvl fs hp st sp,
    let s' := snd (LogManager.addFactoryHandler id0 ht lvl fs hp st sp s) in
    (LogManager.log_set_callbacks_calls s' = LogManager.log_set_callbacks_calls s /\
     LogManager.log_set_callbacks_calls (LogManager.removeFactoryHandler id0 s)
       = LogManager.log_set_callbacks_calls s) /\
    (LogManager.activeHandlers_ s = [] -> LogManager.callbacks_registered s = false ->
     fst (LogManager.addFactoryHandler id0 ht lvl fs hp st sp s) = true ->
     List.length (LogManager.activeHandlers_ s') = 1%nat /\
     LogManager.callbacks_registered s' = false) /\
    (List.length (LogManager.activeHandlers_ s) = 1%nat ->
     LogManager.callbacks_registered s = true ->
     LogManager.activeHandlers_ (LogManager.removeFactoryHandler id0 s) = [] ->
     LogManager.callbacks_registered (LogManager.removeFactoryHandler id0 s) = true) /\
    (forall f, LogManager.log_set_callbacks_calls (LogManager.setHandlerFactory f s)
               = LogManager.log_set_callbacks_calls s) /\
    (forall f, LogManager.log_set_callbacks_calls (LogManager.setStreamFactory f s)
               = LogManager.log_set_callbacks_calls s) /\
    (forall h, LogManager.log_set_callbacks_calls (snd (LogManager.addHandler h s))
               = if fst (LogManager.addHandler h s)
                    && Nat.eqb (List.length (LogManager.activeHandlers_ s)) 0
                 then true :: LogManager.log_set_callbacks_calls s
                 else LogManager.log_set_callbacks_calls s) /\
    (forall h, LogManager.log_set_callbacks_calls (LogManager.removeHandler h s)
               = if snd (LogManager.removeOne (LogManager.activeHandlers_ s) h)
                    && Nat.eqb (List.length (LogManager.activeHandlers_ (LogManager.removeHandler h s))) 0
                 then false :: LogManager.log_set_callbacks_calls s
                 else LogManager.log_set_callbacks_calls s) /\
    LogManager.log_set_callbacks_calls (LogManager.destroy s)
      = false :: LogManager.log_set_callbacks_calls s.
Proof.
  intros s id0 ht lvl fs hp st sp s'. subst s'.
  assert (Hrem : forall i, LogManager.log_set_callbacks_calls (LogManager.removeFactoryHandler i s)
                   = LogManager.log_set_callbacks_calls s).
  { intros i. apply destroy_loop_calls. }
  assert (Hall : forall s0, LogManager.log_set_callbacks_calls (LogManager.destroyFactoryHandlers s0)
                   = LogManager.log_set_callbacks_calls s0).
  { intros s0. unfold LogManager.destroyFactoryHandlers. simpl.
    generalize (LogManager.factoryHandlers_ s0) as l. intros l. revert s0.
    induction l as [|r l IH]; intros s0; simpl; [ reflexivity | ].
    rewrite IH. apply (destroy_record_frame r s0). }
  destruct (addFactoryHandler_outcome s id0 ht lvl fs hp st sp) as [C [_ S]].
  fold (LogManager.removeFactoryHandler id0 s) in C, S.
  assert (Hadd : LogManager.log_set_callbacks_calls
                   (snd (LogManager.addFactoryHandler id0 ht lvl fs hp st sp s))
                 = LogManager.log_set_callbacks_calls s).
  { rewrite C. apply Hrem. }
  split; [ split; [ exact Hadd | apply Hrem ] | ].
  split.
  { intros Hempty Hunreg Hok. destruct (S Hok) as [hnd [strm [Ha _]]].
    split.
    - rewrite Ha, length_app. simpl.
      assert (E : LogManager.activeHandlers_ (LogManager.removeFactoryHandler id0 s) = []).
      { unfold LogManager.removeFactoryHandler, LogManager.destroyFactoryHandler.
        generalize 0%nat. generalize (LogManager.factoryHandlers_ s) as l.
        induction l as [|r l IH]; intros i; simpl; [ exact Hempty | ].
        destruct (String.eqb (LogManager.id r) id0); [ | apply IH ].
        simpl. destruct (destroy_record_frame r s) as [_ [_ Fa]]. rewrite Fa, Hempty. reflexivity. }
      rewrite E. reflexivity.
    - unfold LogManager.callbacks_registered in *. rewrite Hadd. exact Hunreg. }
  split.
  { intros _ Hreg _. unfold LogManager.callbacks_registered in *. rewrite Hrem. exact Hreg. }
  split.
  { intros f. unfold LogManager.setHandlerFactory.
    destruct (LogManager.same_handlerFactory (LogManager.handlerFactory_ s) f);
      [ reflexivity | simpl; apply Hall ]. }
  split.
  { intros f. unfold LogManager.setStreamFactory.
    destruct (LogManager.same_streamFactory (LogManager.streamFactory_ s) f);
      [ reflexivity | simpl; apply Hall ]. }
  split.
  { intros h. unfold LogManager.addHandler.
    destruct (LogManager.contains (LogManager.activeHandlers_ s) h); [ reflexivity | ].
    destruct (try_alloc_inv s) as [b [h0 ->]].
    destruct b; simpl; [ | reflexivity ].
    rewrite length_app. simpl.
    destruct (LogManager.activeHandlers_ s) as [|x l]; simpl; [ reflexivity | ].
    rewrite Nat.add_comm. simpl.
    destruct (List.length l); reflexivity. }
  split.
  { intros h. unfold LogManager.removeHandler.
    destruct (LogManager.removeOne (LogManager.activeHandlers_ s) h) as [a removed].
    simpl. destruct removed; simpl; [ | reflexivity ].
    destruct (Nat.eqb (List.length a) 0) eqn:E; simpl; rewrite ?E; reflexivity. }
  unfold LogManager.destroy. rewrite Hall. reflexivity.
Qed.

End ManagerFacts.

(** ** The manager: concrete runs *)

(** An unknown handler type, with one handler active and no record. *)
Lemma addFactoryHandler_failure_state_witness :
  fst (add_serial1 "h1" "NoSuchHandler" (manager_with [one_handler 20 LOG_LEVEL_WARN])) = false /\
  LogManager.activeHandlers_
    (snd (add_serial1 "h1" "NoSuchHandler" (manager_with [one_handler 20 LOG_LEVEL_WARN])))
  = [one_handler 20 LOG_LEVEL_WARN].
Proof.
  split; [ reflexivity | ].
  apply (proj2 (addFactoryHandler_failure_state
                  (manager_with [one_handler 20 LOG_LEVEL_WARN])
                  "h1" (Some "NoSuchHandler") LOG_LEVEL_WARN [] JSON_INVALID
                  (Some "Serial1") JSON_INVALID eq_refl)).
  intros r [].
Defined.

(** C1, counterexample: the handler h1 exists; a second
    [addFactoryHandler] for h1 with an unknown handler type returns failure,
    and neither the record nor the active handler of h1 is there any more. *)
Lemma failed_replace_loses_record :
  let s := snd (add_serial1 "h1" "StreamLogHandler" (manager_with [])) in
  let r := add_serial1 "h1" "NoSuchHandler" s in
  map LogManager.id (LogManager.factoryHandlers_ s) = ["h1"] /\
  fst r = false /\
  LogManager.factoryHandlers_ (snd r) <> LogManager.factoryHandlers_ s /\
  LogManager.activeHandlers_ (snd r) <> LogManager.activeHandlers_ s.
Proof.
  vm_compute. repeat split; discriminate.
Qed.

(** The default factories, with one handler active and no record. *)
Lemma add_then_remove_factory_handler_witness :
  let s := manager_with [one_handler 20 LOG_LEVEL_WARN] in
  let r := add_serial1 "h1" "StreamLogHandler" s in
  fst r = true /\
  LogManager.activeHandlers_ (LogManager.removeFactoryHandler "h1" (snd r))
    = [one_handler 20 LOG_LEVEL_WARN] /\
  LogManager.factoryHandlers_ (LogManager.removeFactoryHandler "h1" (snd r)) = [].
Proof.
  split; [ reflexivity | ].
  apply (add_then_remove_factory_handler
           (manager_with [one_handler 20 LOG_LEVEL_WARN])
           "h1" (Some "StreamLogHandler") LOG_LEVEL_WARN [] JSON_INVALID
           (Some "Serial1") JSON_INVALID).
  - intros r [].
  - reflexivity.
  - intros r [<-|[]] _. reflexivity.
Defined.

(** C8, counterexample: the factory returns the handler at address 20,
    which is active already and followed by another handler; after the add
    and the remove the two active handlers have changed places. *)
Lemma add_then_remove_reorders :
  let a := one_handler 20 LOG_LEVEL_WARN in
  let b := one_handler 21 LOG_LEVEL_INFO in
  let s := manager_of [a; b] (static_handler_factory a) in
  let r := LogManager.addFactoryHandler "h1" (Some "Static") LOG_LEVEL_WARN [] JSON_INVALID
             None JSON_INVALID s in
  LogManager.factoryHandlers_ s = [] /\
  fst r = true /\
  LogManager.activeHandlers_ (LogManager.removeFactoryHandler "h1" (snd r)) = [b; a] /\
  LogManager.activeHandlers_ (LogManager.removeFactoryHandler "h1" (snd r))
    <> LogManager.activeHandlers_ s.
Proof.
  vm_compute. repeat split; discriminate.
Qed.

(** Two runs from the fresh manager: a factory handler alone, which leaves
    the callbacks unregistered; and a handler added, a factory handler
    added, the handler removed, and the factory handler removed, which leaves
    them registered. *)
Lemma factory_handlers_leave_callbacks_witness :
  let s0 := manager_with [] in
  let s1 := snd (add_serial1 "h1" "StreamLogHandler" s0) in
  let s2 := snd (LogManager.addHandler (one_handler 20 LOG_LEVEL_WARN) s0) in
  let s3 := snd (add_serial1 "h1" "StreamLogHandler" s2) in
  let s4 := LogManager.removeHandler (one_handler 20 LOG_LEVEL_WARN) s3 in
  (List.length (LogManager.activeHandlers_ s1) = 1%nat /\
   LogManager.callbacks_registered s1 = false) /\
  (List.length (LogManager.activeHandlers_ s4) = 1%nat /\
   LogManager.callbacks_registered (LogManager.removeFactoryHandler "h1" s4) = true).
Proof.
  intros s0 s1 s2 s3 s4. split.
  - apply (proj1 (proj2 (factory_handlers_leave_callbacks s0 "h1" (Some "StreamLogHandler")
                           LOG_LEVEL_WARN [] JSON_INVALID (Some "Serial1") JSON_INVALID)));
      reflexivity.
  - split; [ reflexivity | ].
    apply (proj1 (proj2 (proj2 (factory_handlers_leave_callbacks s4 "h1" None
                           LOG_LEVEL_WARN [] JSON_INVALID None JSON_INVALID))));
      reflexivity.
Defined.

(** * Further properties of the manager *)

Section ManagerMore.
Context {W : Type}.
Implicit Types s : LogManager.t W.
#[local] Arguments LogManager.delete_stream : simpl never.
#[local] Arguments LogManager.delete_handler : simpl never.

Lemma contains_false_iff :
  forall l x, LogManager.contains l x = false <-> ~ In (LogHandler.addr x) (map LogHandler.addr l).
Proof.
  induction l as [|y l IH]; intros x; simpl.
  - split; [ intros _ H; exact H | reflexivity ].
  - rewrite Bool.orb_false_iff, IH. unfold LogHandler.same.
    rewrite Nat.eqb_neq. split.
    + intros [H1 H2] [E|E]; [ apply H1; symmetry; exact E | exact (H2 E) ].
    + intros H. split; [ intros E; apply H; left; symmetry; exact E | intros E; apply H; right; exact E ].
Qed.

Lemma removeOne_not_found :
  forall l x, snd (LogManager.removeOne l x) = false -> fst (LogManager.removeOne l x) = l.
Proof.
  induction l as [|y l IH]; intros x H; simpl in *; [ reflexivity | ].
  destruct (LogHandler.same y x); [ discriminate H | ].
  destruct (LogManager.removeOne l x) as [r b] eqn:E. simpl in *.
  specialize (IH x). rewrite E in IH. simpl in IH. rewrite (IH H). reflexivity.
Qed.

Lemma removeOne_shorter :
  forall l x, snd (LogManager.removeOne l x) = true ->
    S (List.length (fst (LogManager.removeOne l x))) = List.length l.
Proof.
  induction l as [|y l IH]; intros x H; simpl in *; [ discriminate H | ].
  destruct (LogHandler.same y x); [ reflexivity | ].
  destruct (LogManager.removeOne l x) as [r b] eqn:E. simpl in *.
  specialize (IH x). rewrite E in IH. simpl in IH. rewrite (IH H). reflexivity.
Qed.

Lemma NoDup_app_single :
  forall (A : Type) (l : list A) (x : A), NoDup l -> ~ In x l -> NoDup (l ++ [x]).
Proof.
  induction l as [|y l IH]; intros x D H; simpl.
  - constructor; [ intros [] | constructor ].
  - inversion D as [|y' l' Hy D']; subst. constructor.
    + intros Hin. apply in_app_or in Hin. destruct Hin as [Hin|[E|[]]];
        [ exact (Hy Hin) | apply H; left; symmetry; exact E ].
    + apply IH; [ exact D' | intros Hin; apply H; right; exact Hin ].
Qed.

(** X1: [addHandler] refuses a handler that is active already and changes
    nothing then; handlers that were pairwise distinct stay so. *)
Theorem addHandler_refuses_duplicates :
  forall s h,
    (LogManager.contains (LogManager.activeHandlers_ s) h = true ->
     LogManager.addHandler h s = (false, s)) /\
    (NoDup (map LogHandler.addr (LogManager.activeHandlers_ s)) ->
     NoDup (map LogHandler.addr (LogManager.activeHandlers_ (snd (LogManager.addHandler h s))))).
Proof.
  intros s h. split.
  - intros H. unfold LogManager.addHandler. rewrite H. reflexivity.
  - intros D. unfold LogManager.addHandler.
    destruct (LogManager.contains (LogManager.activeHandlers_ s) h) eqn:E; [ exact D | ].
    destruct (try_alloc_inv s) as [b [h0 ->]].
    destruct b; simpl; [ | exact D ].
    assert (D' : NoDup (map LogHandler.addr (LogManager.activeHandlers_ s ++ [h]))).
    { rewrite map_app. simpl. apply NoDup_app_single; [ exact D | ].
      apply contains_false_iff. exact E. }
    destruct (Nat.eqb (List.length (LogManager.activeHandlers_ s ++ [h])) 1); exact D'.
Qed.

(** X2: a handler that is not active, added with success and removed
    again, leaves the active handlers and the records as they were; the
    callbacks end up unregistered when there was no active handler, and as
    they were otherwise. *)
Theorem addHandler_then_removeHandler :
  forall s h,
    LogManager.contains (LogManager.activeHandlers_ s) h = false ->
    fst (LogManager.addHandler h s) = true ->
    let s' := LogManager.removeHandler h (snd (LogManager.addHandler h s)) in
    LogManager.activeHandlers_ s' = LogManager.activeHandlers_ s /\
    LogManager.factoryHandlers_ s' = LogManager.factoryHandlers_ s /\
    LogManager.callbacks_registered s'
    = match LogManager.activeHandlers_ s with
      | [] => false
      | _ :: _ => LogManager.callbacks_registered s
      end.
Proof.
  intros s h Hc Hok.
  assert (S1 : exists h0,
             snd (LogManager.addHandler h s)
             = match LogManager.activeHandlers_ s with
               | [] => LogManager.log_set_callbacks true
                         (LogManager.with_active (LogManager.with_heap s h0)
                            (LogManager.activeHandlers_ s ++ [h]))
               | _ :: _ => LogManager.with_active (LogManager.with_heap s h0)
                             (LogManager.activeHandlers_ s ++ [h])
               end).
  { unfold LogManager.addHandler in *. rewrite Hc in *.
    destruct (try_alloc_inv s) as [b [h0 E]]. rewrite E in *.
    destruct b; [ | discriminate Hok ]. exists h0. simpl.
    destruct (LogManager.activeHandlers_ s) as [|x l]; simpl; [ reflexivity | ].
    replace (Nat.eqb (List.length (l ++ [h])) 0) with false
      by (symmetry; apply Nat.eqb_neq; rewrite length_app; simpl; lia).
    reflexivity. }
  destruct S1 as [h0 S1]. rewrite S1. clear S1 Hok.
  unfold LogManager.removeHandler.
  assert (R : LogManager.removeOne (LogManager.activeHandlers_ s ++ [h]) h
              = (LogManager.activeHandlers_ s, true))
    by (apply removeOne_absent_last; exact Hc).
  destruct (LogManager.activeHandlers_ s) as [|x l] eqn:EA.
  - simpl in R |- *. rewrite R. simpl. rewrite ?EA. repeat split.
  - cbn [LogManager.activeHandlers_ LogManager.with_active]. rewrite R. simpl.
    rewrite ?EA. repeat split.
Qed.

(** X3: as long as only [addHandler] and [removeHandler] are used, the
    callbacks are registered exactly when there is an active handler: both
    operations keep this. *)
Theorem handlers_keep_callbacks_consistent :
  forall s h,
    (LogManager.callbacks_registered s = true <-> LogManager.activeHandlers_ s <> []) ->
    (LogManager.callbacks_registered (snd (LogManager.addHandler h s)) = true <->
     LogManager.activeHandlers_ (snd (LogManager.addHandler h s)) <> []) /\
    (LogManager.callbacks_registered (LogManager.removeHandler h s) = true <->
     LogManager.activeHandlers_ (LogManager.removeHandler h s) <> []).
Proof.
  intros s h Inv. split.
  - unfold LogManager.addHandler.
    destruct (LogManager.contains (LogManager.activeHandlers_ s) h); [ exact Inv | ].
    destruct (try_alloc_inv s) as [b [h0 ->]].
    destruct b; simpl; [ | exact Inv ].
    destruct (LogManager.activeHandlers_ s) as [|x l] eqn:EA; simpl.
    + split; [ intros _; discriminate | reflexivity ].
    + replace (Nat.eqb (List.length (l ++ [h])) 0) with false
        by (symmetry; apply Nat.eqb_neq; rewrite length_app; simpl; lia).
      simpl. unfold LogManager.callbacks_registered in *. simpl.
      split; [ intros _; discriminate | intros _; apply Inv; discriminate ].
  - unfold LogManager.removeHandler.
    destruct (LogManager.removeOne (LogManager.activeHandlers_ s) h) as [a removed] eqn:E.
    destruct removed; simpl.
    + destruct a as [|x a]; simpl.
      * split; [ intros H; discriminate H | intros H; contradiction ].
      * unfold LogManager.callbacks_registered in *. simpl.
        split; [ intros _; discriminate | intros _ ].
        apply Inv. intros EA. rewrite EA in E. simpl in E. discriminate E.
    + pose proof (removeOne_not_found (LogManager.activeHandlers_ s) h) as N.
      rewrite E in N. simpl in N. rewrite (N eq_refl).
      unfold LogManager.callbacks_registered in *. simpl. exact Inv.
Qed.

Lemma split_first_id :
  forall (l : list LogManager.FactoryHandler) id0,
    (forall r, In r l -> LogManager.id r <> id0) \/
    exists l1 r l2, l = l1 ++ r :: l2 /\
                    (forall r', In r' l1 -> LogManager.id r' <> id0) /\ LogManager.id r = id0.
Proof.
  induction l as [|x l IH]; intros id0.
  - left. intros r [].
  - destruct (String.eqb_spec (LogManager.id x) id0) as [E|E].
    + right. exists [], x, l. split; [ reflexivity | split; [ intros r' [] | exact E ] ].
    + destruct (IH id0) as [H | [l1 [r [l2 [-> [H1 H2]]]]]].
      * left. intros r [<-|Hr]; [ exact E | apply H; exact Hr ].
      * right. exists (x :: l1), r, l2.
        split; [ reflexivity | split; [ | exact H2 ] ].
        intros r' [<-|Hr]; [ exact E | apply H1; exact Hr ].
Qed.

Lemma remove_middle :
  forall (A : Type) (l1 l2 : list A) (x : A),
    LogManager.remove (l1 ++ x :: l2) (List.length l1) = l1 ++ l2.
Proof.
  intros A l1 l2 x. unfold LogManager.remove.
  rewrite firstn_app, firstn_all, Nat.sub_diag, firstn_O, app_nil_r.
  rewrite skipn_app, (skipn_all2 l1) by lia.
  replace (S (List.length l1) - List.length l1)%nat with 1%nat by lia. reflexivity.
Qed.

Lemma destroyFactoryHandler_found :
  forall s id0 l1 r l2,
    LogManager.factoryHandlers_ s = l1 ++ r :: l2 ->
    (forall r', In r' l1 -> LogManager.id r' <> id0) ->
    LogManager.id r = id0 ->
    LogManager.destroyFactoryHandler id0 s
    = LogManager.with_records (LogManager.destroy_record r s) (l1 ++ l2).
Proof.
  intros s id0 l1 r l2 E H1 H2. unfold LogManager.destroyFactoryHandler.
  rewrite E at 1. rewrite (destroy_loop_found l1 r l2 0%nat id0 s H1 H2).
  destruct (destroy_record_frame r s) as [Fr _]. rewrite Fr, E. simpl.
  rewrite remove_middle. reflexivity.
Qed.

(** X4: [removeFactoryHandler] does nothing for an id that no record has.
    Otherwise it takes the first record with the id out of the list, its
    handler out of the active handlers, and destroys the handler and then
    the stream through the current factories; the other records keep their
    order. *)
Theorem removeFactoryHandler_effect :
  forall s id0,
    ((forall r, In r (LogManager.factoryHandlers_ s) -> LogManager.id r <> id0) ->
     LogManager.removeFactoryHandler id0 s = s) /\
    (forall l1 r l2,
        LogManager.factoryHandlers_ s = l1 ++ r :: l2 ->
        (forall r', In r' l1 -> LogManager.id r' <> id0) ->
        LogManager.id r = id0 ->
        let s' := LogManager.removeFactoryHandler id0 s in
        LogManager.factoryHandlers_ s' = l1 ++ l2 /\
        LogManager.activeHandlers_ s'
        = fst (LogManager.removeOne (LogManager.activeHandlers_ s) (LogManager.handler r)) /\
        LogManager.world s'
        = match LogManager.stream r, LogManager.streamFactory_ s with
          | Some p, Some sf => destroyStream sf p
          | _, _ => fun w => w
          end (match LogManager.handlerFactory_ s with
               | Some hf => destroyHandler hf (LogManager.handler r)
               | None => fun w => w
               end (LogManager.world s))).
Proof.
  intros s id0. split.
  - intros H. apply destroy_loop_unknown. exact H.
  - intros l1 r l2 E H1 H2 s'. subst s'. unfold LogManager.removeFactoryHandler.
    rewrite (destroyFactoryHandler_found s id0 l1 r l2 E H1 H2).
    split; [ reflexivity | ].
    destruct (destroy_record_frame r s) as [_ [_ Fa]].
    split; [ exact Fa | ].
    unfold LogManager.destroy_record, LogManager.delete_stream, LogManager.delete_handler.
    simpl. destruct (LogManager.handlerFactory_ s); simpl;
      destruct (LogManager.stream r); simpl;
      destruct (LogManager.streamFactory_ s); reflexivity.
Qed.

Lemma empty_id_fails :
  forall s ht lvl fs hp st sp,
    fst (LogManager.addFactoryHandler EmptyString ht lvl fs hp st sp s) = false.
Proof.
  intros s ht lvl fs hp st sp. unfold LogManager.addFactoryHandler.
  destruct (try_alloc_inv (LogManager.destroyFactoryHandler EmptyString s)) as [b [h ->]].
  destruct b; reflexivity.
Qed.

Lemma destroyFactoryHandler_ids :
  forall s id0,
    NoDup (map LogManager.id (LogManager.factoryHandlers_ s)) ->
    NoDup (map LogManager.id (LogManager.factoryHandlers_ (LogManager.destroyFactoryHandler id0 s)))
    /\ ~ In id0 (map LogManager.id
                   (LogManager.factoryHandlers_ (LogManager.destroyFactoryHandler id0 s))).
Proof.
  intros s id0 D.
  destruct (split_first_id (LogManager.factoryHandlers_ s) id0) as [H | [l1 [r [l2 [E [H1 H2]]]]]].
  - unfold LogManager.destroyFactoryHandler. rewrite (destroy_loop_unknown _ 0%nat id0 s H).
    split; [ exact D | ].
    intros Hin. apply in_map_iff in Hin. destruct Hin as [r [Er Hr]]. exact (H r Hr Er).
  - rewrite (destroyFactoryHandler_found s id0 l1 r l2 E H1 H2). simpl.
    rewrite E, map_app in D. simpl in D.
    split; [ rewrite map_app; apply (NoDup_remove_1 _ _ _ D) | ].
    rewrite map_app. rewrite <- H2. apply (NoDup_remove_2 _ _ _ D).
Qed.

(** X5: [addFactoryHandler] keeps the ids of the records pairwise
    distinct.  After a success the record of the id is the last one and the
    only one with that id, and the id is not empty; after a failure no
    record has the id. *)
Theorem addFactoryHandler_keeps_ids_unique :
  forall s id0 ht lvl fs hp st sp,
    NoDup (map LogManager.id (LogManager.factoryHandlers_ s)) ->
    let r := LogManager.addFactoryHandler id0 ht lvl fs hp st sp s in
    NoDup (map LogManager.id (LogManager.factoryHandlers_ (snd r))) /\
    (fst r = true ->
     id0 <> EmptyString /\
     exists l, map LogManager.id (LogManager.factoryHandlers_ (snd r)) = l ++ [id0] /\
               ~ In id0 l) /\
    (fst r = false ->
     ~ In id0 (map LogManager.id (LogManager.factoryHandlers_ (snd r)))).
Proof.
  intros s id0 ht lvl fs hp st sp D r. subst r.
  destruct (destroyFactoryHandler_ids s id0 D) as [D' N'].
  destruct (addFactoryHandler_outcome s id0 ht lvl fs hp st sp) as [_ [F S]].
  destruct (fst (LogManager.addFactoryHandler id0 ht lvl fs hp st sp s)) eqn:E.
  - destruct (S eq_refl) as [hnd [strm [_ Hr]]]. rewrite Hr, map_app. simpl.
    split; [ apply NoDup_app_single; assumption | ].
    split; [ | intros Hx; discriminate Hx ].
    intros _. split.
    + intros ->. rewrite empty_id_fails in E. discriminate E.
    + eexists. split; [ reflexivity | exact N' ].
  - destruct (F eq_refl) as [_ Hr]. rewrite Hr.
    split; [ exact D' | split; [ intros Hx; discriminate Hx | intros _; exact N' ] ].
Qed.

Lemma fold_left_written :
  forall (l : list LogManager.FactoryHandler) (acc : list string),
    fold_left (fun d h => d ++ [LogManager.id h]) l acc = acc ++ map LogManager.id l.
Proof.
  induction l as [|x l IH]; intros acc; simpl; [ rewrite app_nil_r; reflexivity | ].
  rewrite IH, <- app_assoc. reflexivity.
Qed.

(** X6: [enumFactoryHandlers] calls the callback once per record, in the
    stored order, so that the reply of enumHandlers is the list of the ids
    in that order; a successful [addFactoryHandler] of an id that no record
    had puts the id at the end of the reply. *)
Theorem enumHandlers_in_stored_order :
  forall s req id0 ht lvl fs hp st sp,
    (forall (D : Type) (callback : string -> D -> D) (data : D),
        LogManager.enumFactoryHandlers callback data s
        = fold_left (fun d i => callback i d) (map LogManager.id (LogManager.factoryHandlers_ s))
            data) /\
    snd (JSONRequestHandler.enumHandlers req s) = map LogManager.id (LogManager.factoryHandlers_ s) /\
    ((forall r, In r (LogManager.factoryHandlers_ s) -> LogManager.id r <> id0) ->
     fst (LogManager.addFactoryHandler id0 ht lvl fs hp st sp s) = true ->
     snd (JSONRequestHandler.enumHandlers req
            (snd (LogManager.addFactoryHandler id0 ht lvl fs hp st sp s)))
     = snd (JSONRequestHandler.enumHandlers req s) ++ [id0]).
Proof.
  intros s req id0 ht lvl fs hp st sp.
  assert (Hreply : forall s0 : LogManager.t W,
             snd (JSONRequestHandler.enumHandlers req s0)
             = map LogManager.id (LogManager.factoryHandlers_ s0)).
  { intros s0. unfold JSONRequestHandler.enumHandlers, LogManager.enumFactoryHandlers. simpl.
    apply (fold_left_written (LogManager.factoryHandlers_ s0) []). }
  split; [ | split ].
  - intros D callback data. unfold LogManager.enumFactoryHandlers.
    generalize data. induction (LogManager.factoryHandlers_ s) as [|x l IH]; intros d; simpl;
      [ reflexivity | apply IH ].
  - apply Hreply.
  - intros Hun Hok. rewrite !Hreply.
    destruct (addFactoryHandler_outcome s id0 ht lvl fs hp st sp) as [_ [_ S]].
    destruct (S Hok) as [hnd [strm [_ Hr]]]. rewrite Hr.
    unfold LogManager.destroyFactoryHandler. rewrite (destroy_loop_unknown _ 0%nat id0 s Hun).
    rewrite map_app. reflexivity.
Qed.

Lemma destroy_record_factories :
  forall r s,
    LogManager.handlerFactory_ (LogManager.destroy_record r s) = LogManager.handlerFactory_ s /\
    LogManager.streamFactory_ (LogManager.destroy_record r s) = LogManager.streamFactory_ s /\
    LogManager.heap (LogManager.destroy_record r s) = LogManager.heap s /\
    LogManager.world (LogManager.destroy_record r s)
    = match LogManager.stream r, LogManager.streamFactory_ s with
      | Some p, Some sf => destroyStream sf p
      | _, _ => fun w => w
      end (match LogManager.handlerFactory_ s with
           | Some hf => destroyHandler hf (LogManager.handler r)
           | None => fun w => w
           end (LogManager.world s)).
Proof.
  intros r s. unfold LogManager.destroy_record, LogManager.delete_stream, LogManager.delete_handler.
  simpl. destruct (LogManager.handlerFactory_ s) eqn:E1; simpl;
    destruct (LogManager.stream r) eqn:E2; simpl;
    destruct (LogManager.streamFactory_ s) eqn:E3; simpl; repeat split; assumption.
Qed.

(** The world, the active handlers and the rest after the loop of
    [destroyFactoryHandlers] over the records [l]. *)
Lemma destroy_all_fold :
  forall (l : list LogManager.FactoryHandler) s,
    let s' := fold_left (fun s0 h => LogManager.destroy_record h s0) l s in
    LogManager.handlerFactory_ s' = LogManager.handlerFactory_ s /\
    LogManager.streamFactory_ s' = LogManager.streamFactory_ s /\
    LogManager.log_set_callbacks_calls s' = LogManager.log_set_callbacks_calls s /\
    LogManager.activeHandlers_ s'
    = fold_left (fun a r => fst (LogManager.removeOne a (LogManager.handler r))) l
        (LogManager.activeHandlers_ s) /\
    LogManager.world s'
    = fold_left (fun w r =>
                   match LogManager.stream r, LogManager.streamFactory_ s with
                   | Some p, Some sf => destroyStream sf p
                   | _, _ => fun w0 => w0
                   end (match LogManager.handlerFactory_ s with
                        | Some hf => destroyHandler hf (LogManager.handler r)
                        | None => fun w0 => w0
                        end w)) l (LogManager.world s).
Proof.
  induction l as [|r l IH]; intros s; simpl; [ repeat split | ].
  destruct (IH (LogManager.destroy_record r s)) as [A [B [C [D E]]]].
  destruct (destroy_record_factories r s) as [F1 [F2 [_ F4]]].
  destruct (destroy_record_frame r s) as [_ [G2 G3]].
  rewrite A, B, C, D, E, F1, F2, F4, G2, G3. repeat split.
Qed.

(** X7: [setHandlerFactory] and [setStreamFactory] do nothing for the
    factory that is current.  For another one, every record is destroyed
    first, handler then stream, through the factories that were current
    before the call, each handler leaves the active handlers, no record is
    left, and only then the new factory is installed.  The destructor
    unregisters the callbacks and destroys the records in the same way. *)
Theorem replaced_factory_destroys_with_the_old :
  forall s,
    let destroyed := fold_left (fun w r =>
                   match LogManager.stream r, LogManager.streamFactory_ s with
                   | Some p, Some sf => destroyStream sf p
                   | _, _ => fun w0 => w0
                   end (match LogManager.handlerFactory_ s with
                        | Some hf => destroyHandler hf (LogManager.handler r)
                        | None => fun w0 => w0
                        end w)) (LogManager.factoryHandlers_ s) (LogManager.world s) in
    let remaining := fold_left (fun a r => fst (LogManager.removeOne a (LogManager.handler r)))
                       (LogManager.factoryHandlers_ s) (LogManager.activeHandlers_ s) in
    (forall f,
        (LogManager.same_handlerFactory (LogManager.handlerFactory_ s) f = true ->
         LogManager.setHandlerFactory f s = s) /\
        (LogManager.same_handlerFactory (LogManager.handlerFactory_ s) f = false ->
         let s' := LogManager.setHandlerFactory f s in
         LogManager.factoryHandlers_ s' = [] /\ LogManager.handlerFactory_ s' = f /\
         LogManager.streamFactory_ s' = LogManager.streamFactory_ s /\
         LogManager.activeHandlers_ s' = remaining /\ LogManager.world s' = destroyed)) /\
    (forall f,
        (LogManager.same_streamFactory (LogManager.streamFactory_ s) f = true ->
         LogManager.setStreamFactory f s = s) /\
        (LogManager.same_streamFactory (LogManager.streamFactory_ s) f = false ->
         let s' := LogManager.setStreamFactory f s in
         LogManager.factoryHandlers_ s' = [] /\ LogManager.streamFactory_ s' = f /\
         LogManager.handlerFactory_ s' = LogManager.handlerFactory_ s /\
         LogManager.activeHandlers_ s' = remaining /\ LogManager.world s' = destroyed)) /\
    (let s' := LogManager.destroy s in
     LogManager.factoryHandlers_ s' = [] /\ LogManager.callbacks_registered s' = false /\
     LogManager.activeHandlers_ s' = remaining /\ LogManager.world s' = destroyed).
Proof.
  intros s destroyed remaining.
  destruct (destroy_all_fold (LogManager.factoryHandlers_ s) s) as [A [B [C [D E]]]].
  split; [ | split ].
  - intros f. unfold LogManager.setHandlerFactory. split.
    + intros ->. reflexivity.
    + intros ->. unfold LogManager.destroyFactoryHandlers. simpl.
      repeat split; assumption.
  - intros f. unfold LogManager.setStreamFactory. split.
    + intros ->. reflexivity.
    + intros ->. unfold LogManager.destroyFactoryHandlers. simpl.
      repeat split; assumption.
  - unfold LogManager.destroy, LogManager.destroyFactoryHandlers.
    destruct (destroy_all_fold (LogManager.factoryHandlers_ s)
                (LogManager.log_set_callbacks false s)) as [A' [B' [C' [D' E']]]].
    simpl in *. unfold LogManager.callbacks_registered. simpl. rewrite C'.
    repeat split; assumption.
Qed.

(** X8: [logEnabled] is monotone: a level at least as severe as an enabled
    one is enabled, and what is enabled stays enabled when a handler is
    added with [addHandler]. *)
Theorem logEnabled_monotone :
  forall s level level' category h,
    LogManager.logEnabled level category s = true ->
    level <= level' ->
    LogManager.logEnabled level' category s = true /\
    LogManager.logEnabled level category (snd (LogManager.addHandler h s)) = true.
Proof.
  intros s level level' category h H Hle. unfold LogManager.logEnabled in *.
  rewrite Z.geb_le in *. split; [ lia | ].
  assert (A : LogManager.activeHandlers_ (snd (LogManager.addHandler h s))
              = LogManager.activeHandlers_ s \/
              LogManager.activeHandlers_ (snd (LogManager.addHandler h s))
              = LogManager.activeHandlers_ s ++ [h]).
  { unfold LogManager.addHandler.
    destruct (LogManager.contains (LogManager.activeHandlers_ s) h); [ left; reflexivity | ].
    destruct (try_alloc_inv s) as [b [h0 ->]].
    destruct b; simpl; [ right | left; reflexivity ].
    destruct (Nat.eqb (List.length (LogManager.activeHandlers_ s ++ [h])) 1); reflexivity. }
  destruct A as [-> | ->]; apply Z.geb_le; [ exact H | ].
  rewrite fold_left_app. simpl. unfold LogManager.logEnabled_body at 1.
  destruct (LogHandler.level h category <?
            fold_left (LogManager.logEnabled_body category) (LogManager.activeHandlers_ s)
              LOG_LEVEL_NONE) eqn:E; [ apply Z.ltb_lt in E; lia | exact H ].
Qed.

End ManagerMore.

(** * Names of files and functions in messages *)

Lemma lacks_append :
  forall c a b, lacks c (a ++ b)%string <-> lacks c a /\ lacks c b.
Proof.
  induction a as [|x a IH]; intros b; simpl.
  - split; [ intros H; split; [ exact I | exact H ] | intros [_ H]; exact H ].
  - rewrite IH. split; [ intros [H1 [H2 H3]] | intros [[H1 H2] H3] ]; repeat split; assumption.
Qed.

Lemma strrchr_lacks : forall c s, lacks c s -> strrchr s c = None.
Proof.
  induction s as [|a s IH]; simpl; intros H; [ reflexivity | ].
  destruct H as [Ha Hs]. rewrite (IH Hs).
  destruct (Ascii.eqb_spec a c); [ contradiction | reflexivity ].
Qed.

Lemma strrchr_last :
  forall c d b, lacks c b -> strrchr (d ++ String c b)%string c = Some (String c b).
Proof.
  induction d as [|a d IH]; intros b H; simpl.
  - rewrite (strrchr_lacks c b H), Ascii.eqb_refl. reflexivity.
  - rewrite (IH b H). reflexivity.
Qed.

(** A string has no [c], or splits at its last [c]. *)
Lemma last_occurrence :
  forall c s, lacks c s \/ exists d b, s = (d ++ String c b)%string /\ lacks c b.
Proof.
  induction s as [|a s IH]; [ left; exact I | ].
  destruct IH as [H | [d [b [-> H]]]].
  - destruct (Ascii.eqb_spec a c) as [E|E].
    + right. exists EmptyString, s. subst a. split; [ reflexivity | exact H ].
    + left. split; assumption.
  - right. exists (String a d), b. split; [ reflexivity | exact H ].
Qed.

Lemma extractFileName_plain :
  forall s, lacks "/"%char s -> extractFileName s = s.
Proof. intros s H. unfold extractFileName. rewrite (strrchr_lacks _ s H). reflexivity. Qed.

Lemma extractFileName_path :
  forall dir base, lacks "/"%char base ->
                   extractFileName (dir ++ String "/"%char base)%string = base.
Proof.
  intros dir base H. unfold extractFileName. rewrite (strrchr_last _ dir base H). reflexivity.
Qed.

(** X9: [extractFileName] returns what follows the last '/' of a path, and
    the path itself when it has none; the result never holds a '/'. *)
Theorem extractFileName_strips_directories :
  (forall s, lacks "/"%char s -> extractFileName s = s) /\
  (forall dir base, lacks "/"%char base ->
                    extractFileName (dir ++ String "/"%char base)%string = base) /\
  (forall s, lacks "/"%char (extractFileName s) /\
             exists dir, s = (dir ++ extractFileName s)%string).
Proof.
  split; [ exact extractFileName_plain | split; [ exact extractFileName_path | ] ].
  intros s. destruct (last_occurrence "/"%char s) as [H | [d [b [-> H]]]].
  - rewrite (extractFileName_plain s H). split; [ exact H | exists EmptyString; reflexivity ].
  - rewrite (extractFileName_path d b H). split; [ exact H | ].
    exists (d ++ String "/"%char EmptyString)%string. rewrite append_assoc. reflexivity.
Qed.

Lemma substring_prefix :
  forall a b, substring 0 (String.length a) (a ++ b)%string = a.
Proof. induction a as [|x a IH]; intros b; simpl; [ destruct b | rewrite IH ]; reflexivity. Qed.

Lemma funcName_loop_skips :
  forall rtype t s1, lacks "("%char rtype ->
    extractFuncName_loop (rtype ++ String " "%char t)%string s1 = extractFuncName_loop t t.
Proof.
  induction rtype as [|a rtype IH]; intros t s1 H; simpl.
  - reflexivity.
  - destruct H as [Ha Hrt].
    destruct (Ascii.eqb_spec a " "%char) as [E|E]; [ apply IH; exact Hrt | ].
    destruct (Ascii.eqb_spec a "("%char) as [E'|E']; [ contradiction | ].
    apply IH. exact Hrt.
Qed.

(** The loop from a position after which the name goes on: the name ends
    at the first '(' or space-free end, and starts after the last space. *)
Lemma funcName_loop_name :
  forall s pre,
    lacks " "%char pre -> lacks "("%char pre ->
    exists name s',
      extractFuncName_loop s (pre ++ s)%string = ((name ++ s')%string, s') /\
      lacks " "%char name /\ lacks "("%char name /\
      (s' = EmptyString \/ exists r, s' = String "("%char r).
Proof.
  induction s as [|a s IH]; intros pre H1 H2; simpl.
  - exists pre, EmptyString. repeat split; auto.
  - destruct (Ascii.eqb_spec a " "%char) as [E|E].
    + destruct (IH EmptyString I I) as [name [s' [E1 [N1 [N2 N3]]]]].
      simpl in E1. exists name, s'. repeat split; assumption.
    + destruct (Ascii.eqb_spec a "("%char) as [E'|E'].
      * subst a. exists pre, (String "("%char s). repeat split; auto.
        right. exists s. reflexivity.
      * destruct (IH (pre ++ String a EmptyString)%string) as [name [s' [E1 [N1 [N2 N3]]]]].
        -- apply lacks_append. split; [ exact H1 | split; [ exact E | exact I ] ].
        -- apply lacks_append. split; [ exact H2 | split; [ exact E' | exact I ] ].
        -- rewrite append_assoc in E1. simpl in E1.
           exists name, s'. repeat split; assumption.
Qed.

Lemma funcName_loop_plain :
  forall name t,
    lacks " "%char name -> lacks "("%char name ->
    (t = EmptyString \/ exists r, t = String "("%char r) ->
    forall pre,
      extractFuncName_loop (name ++ t)%string (pre ++ name ++ t)%string
      = ((pre ++ name ++ t)%string, t).
Proof.
  induction name as [|a name IH]; intros t H1 H2 Ht pre; simpl.
  - destruct Ht as [->|[r ->]]; reflexivity.
  - destruct H1 as [A1 B1], H2 as [A2 B2].
    destruct (Ascii.eqb_spec a " "%char); [ contradiction | ].
    destruct (Ascii.eqb_spec a "("%char); [ contradiction | ].
    specialize (IH t B1 B2 Ht (pre ++ String a EmptyString)%string).
    rewrite append_assoc in IH. simpl in IH. exact IH.
Qed.

Lemma extractFuncName_signature :
  forall rtype name args,
    lacks "("%char rtype -> lacks " "%char name -> lacks "("%char name ->
    let '(s1, size) :=
      extractFuncName (rtype ++ String " "%char (name ++ String "("%char args))%string in
    substring 0 size s1 = name.
Proof.
  intros rtype name args Hrt H1 H2. unfold extractFuncName.
  rewrite (funcName_loop_skips rtype _ _ Hrt).
  pose proof (funcName_loop_plain name (String "("%char args) H1 H2
                (or_intror (ex_intro _ args eq_refl)) EmptyString) as E.
  simpl in E. rewrite E.
  rewrite length_append.
  replace (String.length name + String.length (String "("%char args)
           - String.length (String "("%char args))%nat with (String.length name) by lia.
  apply substring_prefix.
Qed.

Lemma extractFuncName_plain :
  forall name,
    lacks " "%char name -> lacks "("%char name ->
    extractFuncName name = (name, String.length name).
Proof.
  intros name H1 H2. unfold extractFuncName.
  pose proof (funcName_loop_plain name EmptyString H1 H2 (or_introl eq_refl) EmptyString) as E.
  simpl in E. rewrite append_empty_r in E. rewrite E. simpl. rewrite Nat.sub_0_r. reflexivity.
Qed.

(** X10: [extractFuncName] returns the name of a function from its
    signature: what stands between the last space before the first '(' and
    that '(' (or the end).  The name it returns never holds a space or a
    '('. *)
Theorem extractFuncName_strips_types :
  (forall rtype name args,
      lacks "("%char rtype -> lacks " "%char name -> lacks "("%char name ->
      let '(s1, size) :=
        extractFuncName (rtype ++ String " "%char (name ++ String "("%char args))%string in
      substring 0 size s1 = name) /\
  (forall name,
      lacks " "%char name -> lacks "("%char name ->
      extractFuncName name = (name, String.length name)) /\
  (forall s,
      let '(s1, size) := extractFuncName s in
      lacks " "%char (substring 0 size s1) /\ lacks "("%char (substring 0 size s1)).
Proof.
  split; [ exact extractFuncName_signature | split; [ exact extractFuncName_plain | ] ].
  intros s. unfold extractFuncName.
  destruct (funcName_loop_name s EmptyString I I) as [name [s' [E [N1 [N2 _]]]]].
  simpl in E. rewrite E. rewrite length_append.
  replace (String.length name + String.length s' - String.length s')%nat
    with (String.length name) by lia.
  rewrite substring_prefix. split; assumption.
Qed.

Lemma extractFuncName_strips_types_witness :
  let '(s1, size) := extractFuncName "const char* spark::extractFileName(const char*)" in
  substring 0 size s1 = "spark::extractFileName".
Proof.
  apply (proj1 extractFuncName_strips_types "const char*" "spark::extractFileName" "const char*)").
  - repeat split; discriminate.
  - repeat split; discriminate.
  - repeat split; discriminate.
Defined.

Section StreamFormat.
Variable levelName : LogLevel -> string.
Variables printf_010u printf_d printf_iPTR : Z -> string.

(** X11: the line that [StreamLogHandler::logMessage] writes does not
    depend on the directories of the source file path nor on the return and
    argument types of the function signature, and it always ends with
    CR LF. *)
Theorem logMessage_strips_path_and_types :
  forall msg level category attr,
    (forall dir base,
        lacks "/"%char base ->
        StreamLogHandler.logMessage levelName printf_010u printf_d printf_iPTR msg level category
          (set_file attr (dir ++ String "/"%char base)%string)
        = StreamLogHandler.logMessage levelName printf_010u printf_d printf_iPTR msg level category
            (set_file attr base)) /\
    (forall rtype name args,
        lacks "("%char rtype -> lacks " "%char name -> lacks "("%char name ->
        StreamLogHandler.logMessage levelName printf_010u printf_d printf_iPTR msg level category
          (set_function attr (rtype ++ String " "%char (name ++ String "("%char args))%string)
        = StreamLogHandler.logMessage levelName printf_010u printf_d printf_iPTR msg level category
            (set_function attr name)) /\
    exists body,
      StreamLogHandler.logMessage levelName printf_010u printf_d printf_iPTR msg level category attr
      = (body ++ String "013"%char (String "010"%char EmptyString))%string.
Proof.
  intros msg level category attr.
  pose proof extractFileName_plain as FA. pose proof extractFileName_path as FB.
  pose proof extractFuncName_signature as GA. pose proof extractFuncName_plain as GB.
  split; [ | split ].
  - intros dir base H. unfold StreamLogHandler.logMessage. cbn [set_file has_file has_line
      has_function has_time has_code has_details file line function time code details].
    rewrite (FB dir base H), (FA base H). reflexivity.
  - intros rtype name args Hrt H1 H2. unfold StreamLogHandler.logMessage. cbn [set_function has_file
      has_line has_function has_time has_code has_details file line function time code details].
    specialize (GA rtype name args Hrt H1 H2). rewrite (GB name H1 H2).
    destruct (extractFuncName (rtype ++ String " "%char (name ++ String "("%char args))%string)
      as [s1 size].
    unfold StreamLogHandler.write_n. rewrite GA, substring_all. reflexivity.
  - unfold StreamLogHandler.logMessage, StreamLogHandler.write_n at 1.
    eexists. reflexivity.
Qed.

End StreamFormat.

(** * The manager on concrete handlers *)

Lemma addHandler_then_removeHandler_witness :
  let s := manager_with [one_handler 20 LOG_LEVEL_WARN] in
  let h := one_handler 21 LOG_LEVEL_INFO in
  let s' := LogManager.removeHandler h (snd (LogManager.addHandler h s)) in
  LogManager.activeHandlers_ s' = [one_handler 20 LOG_LEVEL_WARN] /\
  LogManager.factoryHandlers_ s' = [] /\
  LogManager.callbacks_registered s' = LogManager.callbacks_registered s.
Proof.
  apply (addHandler_then_removeHandler
           (manager_with [one_handler 20 LOG_LEVEL_WARN]) (one_handler 21 LOG_LEVEL_INFO)).
  - reflexivity.
  - reflexivity.
Defined.

Lemma handlers_keep_callbacks_consistent_witness :
  let s := manager_with [] in
  let h := one_handler 21 LOG_LEVEL_INFO in
  (LogManager.callbacks_registered (snd (LogManager.addHandler h s)) = true <->
   LogManager.activeHandlers_ (snd (LogManager.addHandler h s)) <> []) /\
  (LogManager.callbacks_registered (LogManager.removeHandler h s) = true <->
   LogManager.activeHandlers_ (LogManager.removeHandler h s) <> []).
Proof.
  apply (handlers_keep_callbacks_consistent (manager_with []) (one_handler 21 LOG_LEVEL_INFO)).
  split; [ discriminate | intros H; exfalso; apply H; reflexivity ].
Defined.

Lemma addFactoryHandler_keeps_ids_unique_witness :
  let r := add_serial1 "h1" "StreamLogHandler" (snd (add_serial1 "h0" "StreamLogHandler" (manager_with []))) in
  fst r = true /\
  NoDup (map LogManager.id (LogManager.factoryHandlers_ (snd r))).
Proof.
  split; [ reflexivity | ].
  apply (addFactoryHandler_keeps_ids_unique
           (snd (add_serial1 "h0" "StreamLogHandler" (manager_with [])))
           "h1" (Some "StreamLogHandler") LOG_LEVEL_WARN [] JSON_INVALID
           (Some "Serial1") JSON_INVALID).
  apply NoDup_cons; [ intros [] | apply NoDup_nil ].
Defined.

Lemma logEnabled_monotone_witness :
  let s := manager_with [one_handler 20 LOG_LEVEL_WARN] in
  LogManager.logEnabled LOG_LEVEL_ERROR (Some "app") s = true /\
  LogManager.logEnabled LOG_LEVEL_WARN (Some "app")
    (snd (LogManager.addHandler (one_handler 21 LOG_LEVEL_PANIC) s)) = true.
Proof.
  apply (logEnabled_monotone (manager_with [one_handler 20 LOG_LEVEL_WARN])
           LOG_LEVEL_WARN LOG_LEVEL_ERROR (Some "app") (one_handler 21 LOG_LEVEL_PANIC)).
  - reflexivity.
  - discriminate.
Defined.

(** * Configuration requests *)

Lemma parseLevel_loop_none :
  forall name table,
    JSONRequestHandler.parseLevel_loop name table = None <-> ~ In name (map fst table).
Proof.
  induction table as [|[n l] table IH]; simpl.
  - split; [ intros _ [] | reflexivity ].
  - destruct (String.eqb_spec name n) as [E|E].
    + split; [ discriminate | intros H; exfalso; apply H; left; symmetry; exact E ].
    + rewrite IH. split.
      * intros H [H1|H1]; [ apply E; symmetry; exact H1 | exact (H H1) ].
      * intros H H1. apply H. right. exact H1.
Qed.

Lemma parseFilter_unknown_level :
  forall ms v cat lvl,
    In ("lvl", v) ms -> JSONRequestHandler.parseLevel v = None ->
    JSONRequestHandler.parseFilter ms cat lvl = None.
Proof.
  induction ms as [|[n v0] ms IH]; intros v cat lvl Hin Hv; [ destruct Hin | ].
  destruct Hin as [E|Hin].
  - injection E as -> ->. simpl. rewrite Hv. reflexivity.
  - simpl. destruct (String.eqb n "cat"); [ apply (IH v); assumption | ].
    destruct (String.eqb n "lvl").
    + destruct (JSONRequestHandler.parseLevel v0); [ apply (IH v); assumption | reflexivity ].
    + apply (IH v); assumption.
Qed.

Lemma parseFilters_loop_unknown_level :
  forall items it v fs h,
    In it items -> In ("lvl", v) (JSON.members it) -> JSONRequestHandler.parseLevel v = None ->
    fst (JSONRequestHandler.parseFilters_loop items fs h) = None.
Proof.
  induction items as [|x items IH]; intros it v fs h Hin Hm Hv; [ destruct Hin | ].
  simpl. destruct Hin as [->|Hin].
  - rewrite (parseFilter_unknown_level _ v _ _ Hm Hv). reflexivity.
  - destruct (JSONRequestHandler.parseFilter (JSON.members x) EmptyString LOG_LEVEL_NONE)
      as [[cat lvl]|]; [ | reflexivity ].
    destruct (alloc h) as [copied h']. apply (IH it v); assumption.
Qed.

Lemma parseFilters_unknown_level :
  forall fv it v fs h,
    In it (JSON.items fv) -> In ("lvl", v) (JSON.members it) ->
    JSONRequestHandler.parseLevel v = None ->
    fst (JSONRequestHandler.parseFilters fv fs h) = None.
Proof.
  intros fv it v fs h Hin Hm Hv. unfold JSONRequestHandler.parseFilters.
  destruct (Array.reserve (List.length (JSON.items fv)) h) as [[u|] h']; [ | reflexivity ].
  apply (parseFilters_loop_unknown_level _ it v); assumption.
Qed.

(** A member that fails makes the whole request fail, whatever comes before
    or after it. *)
Lemma parseRequest_loop_fails :
  forall ms n v,
    In (n, v) ms ->
    (forall req h,
        fst (JSONRequestHandler.parseRequest_loop [(n, v)] req h) = None) ->
    forall req h, fst (JSONRequestHandler.parseRequest_loop ms req h) = None.
Proof.
  induction ms as [|[n0 v0] ms IH]; intros n v Hin Hf req h; [ destruct Hin | ].
  destruct Hin as [E|Hin].
  - injection E as -> ->. specialize (Hf req h). simpl in Hf |- *.
    destruct (String.eqb n "cmd"); [ discriminate Hf | ].
    destruct (String.eqb n "id"); [ discriminate Hf | ].
    destruct (String.eqb n "hnd"); [ discriminate Hf | ].
    destruct (String.eqb n "strm"); [ discriminate Hf | ].
    destruct (String.eqb n "filt").
    { destruct (JSONRequestHandler.parseFilters v (JSONRequestHandler.filters req) h)
        as [[fs|] h']; [ discriminate Hf | reflexivity ]. }
    destruct (String.eqb n "lvl"); [ | discriminate Hf ].
    destruct (JSONRequestHandler.parseLevel v); [ discriminate Hf | reflexivity ].
  - simpl.
    destruct (String.eqb n0 "cmd"); [ apply (IH n v); assumption | ].
    destruct (String.eqb n0 "id"); [ apply (IH n v); assumption | ].
    destruct (String.eqb n0 "hnd"); [ simpl; apply (IH n v); assumption | ].
    destruct (String.eqb n0 "strm"); [ simpl; apply (IH n v); assumption | ].
    destruct (String.eqb n0 "filt").
    { destruct (JSONRequestHandler.parseFilters v0 (JSONRequestHandler.filters req) h)
        as [[fs|] h']; [ apply (IH n v); assumption | reflexivity ]. }
    destruct (String.eqb n0 "lvl"); [ | apply (IH n v); assumption ].
    destruct (JSONRequestHandler.parseLevel v0); [ apply (IH n v); assumption | reflexivity ].
Qed.

Section RequestFacts.
Context {W : Type}.
Implicit Types s : LogManager.t W.

Lemma process_parse_failure :
  forall ms s,
    fst (JSONRequestHandler.parseRequest (JSON_OBJECT ms) (LogManager.heap s)) = None ->
    exists h, JSONRequestHandler.process (JSON_OBJECT ms) s = (false, None, LogManager.with_heap s h).
Proof.
  intros ms s H. unfold JSONRequestHandler.process.
  destruct (JSONRequestHandler.parseRequest (JSON_OBJECT ms) (LogManager.heap s)) as [[req|] h].
  - discriminate H.
  - exists h. reflexivity.
Qed.

(** X12: the level names that a request may use are none, trace, info,
    warn, error, panic and all.  A request with another name for its "lvl"
    member, or for the "lvl" member of an element of a "filt" member, is
    rejected without a reply whatever its other members are, and the
    handlers, the records, the callbacks and the devices stay as they
    were. *)
Theorem unknown_level_name_rejects_request :
  forall ms v s,
    ~ In (JSON.toString v) ["none"; "trace"; "info"; "warn"; "error"; "panic"; "all"] ->
    In ("lvl", v) ms \/
    (exists fv it, In ("filt", fv) ms /\ In it (JSON.items fv) /\ In ("lvl", v) (JSON.members it)) ->
    exists h, JSONRequestHandler.process (JSON_OBJECT ms) s = (false, None, LogManager.with_heap s h).
Proof.
  intros ms v s Hv Hin.
  assert (Hl : JSONRequestHandler.parseLevel v = None).
  { apply parseLevel_loop_none. exact Hv. }
  apply process_parse_failure. unfold JSONRequestHandler.parseRequest. simpl JSON.members.
  destruct Hin as [Hin | [fv [it [Hin [Hit Hm]]]]].
  - apply (parseRequest_loop_fails ms "lvl" v Hin). intros req h. simpl. rewrite Hl. reflexivity.
  - apply (parseRequest_loop_fails ms "filt" fv Hin). intros req h. simpl.
    pose proof (parseFilters_unknown_level fv it v (JSONRequestHandler.filters req) h Hit Hm Hl) as E.
    destruct (JSONRequestHandler.parseFilters fv (JSONRequestHandler.filters req) h) as [[fs|] h'];
      [ discriminate E | reflexivity ].
Qed.

(** X13: only addHandler and removeHandler requests change the manager.  A
    request that cannot be parsed or whose command is another one leaves
    the handlers, the records, the callbacks, the factories and the devices
    as they were; it succeeds only for enumHandlers, and only then there is
    a reply, the ids of the records in their order.  A request without a
    "cmd" member is among the rejected ones. *)
Theorem other_requests_change_nothing :
  forall v s,
    let '(ok, reply, s') := JSONRequestHandler.process v s in
    let parsed := fst (JSONRequestHandler.parseRequest v (LogManager.heap s)) in
    let command := match parsed with
                   | Some req => JSONRequestHandler.cmd req
                   | None => EmptyString
                   end in
    (v = JSON_INVALID \/ parsed = None \/
     (command <> "addHandler" /\ command <> "removeHandler") ->
     (exists h, s' = LogManager.with_heap s h) /\
     (ok = true <-> v <> JSON_INVALID /\ parsed <> None /\ command = "enumHandlers") /\
     reply = (if ok then Some (map LogManager.id (LogManager.factoryHandlers_ s)) else None)) /\
    ((forall n x, In (n, x) (JSON.members v) -> n <> "cmd") ->
     ok = false /\ reply = None).
Proof.
  intros v s.
  assert (NC : forall ms req h,
             (forall n x, In (n, x) ms -> n <> "cmd") ->
             forall h' req',
               JSONRequestHandler.parseRequest_loop ms req h = (Some req', h') ->
               JSONRequestHandler.cmd req' = JSONRequestHandler.cmd req).
  { induction ms as [|[n0 v0] ms IH]; intros req h Hn h' req' E; simpl in E.
    - injection E as <- _. reflexivity.
    - assert (Hn' : forall n x, In (n, x) ms -> n <> "cmd")
        by (intros n x Hx; apply (Hn n x); right; exact Hx).
      destruct (String.eqb_spec n0 "cmd") as [E0|E0];
        [ exfalso; apply (Hn n0 v0); [ left; reflexivity | exact E0 ] | ].
      destruct (String.eqb n0 "id"); [ apply (IH _ _ Hn' _ _ E) | ].
      destruct (String.eqb n0 "hnd"); [ simpl in E; apply (IH _ _ Hn' _ _ E) | ].
      destruct (String.eqb n0 "strm"); [ simpl in E; apply (IH _ _ Hn' _ _ E) | ].
      destruct (String.eqb n0 "filt").
      { destruct (JSONRequestHandler.parseFilters v0 (JSONRequestHandler.filters req) h)
          as [[fs|] h1]; [ apply (IH _ _ Hn' _ _ E) | discriminate E ]. }
      destruct (String.eqb n0 "lvl"); [ | apply (IH _ _ Hn' _ _ E) ].
      destruct (JSONRequestHandler.parseLevel v0); [ apply (IH _ _ Hn' _ _ E) | discriminate E ]. }
  assert (EH : s = LogManager.with_heap s (LogManager.heap s)) by (destruct s; reflexivity).
  destruct v as [ | | b | z | str | items | ms ];
    try (unfold JSONRequestHandler.process, JSONRequestHandler.parseRequest,
           JSONRequestHandler.processRequest; simpl;
         split;
         [ intros _; split; [ exists (LogManager.heap s); first [ exact EH | reflexivity ] | ];
           split; [ split; [ discriminate | intros [A [B C]]; first [ congruence | discriminate C ] ]
                  | reflexivity ]
         | intros _; split; reflexivity ]).
  unfold JSONRequestHandler.process.
  pose proof (NC ms JSONRequestHandler.Request_new (LogManager.heap s)) as NC'.
  unfold JSONRequestHandler.parseRequest. simpl JSON.members.
  destruct (JSONRequestHandler.parseRequest_loop ms JSONRequestHandler.Request_new (LogManager.heap s))
    as [[req|] h] eqn:E; simpl fst.
  - unfold JSONRequestHandler.processRequest, JSONRequestHandler.removeHandler,
      JSONRequestHandler.enumHandlers, LogManager.enumFactoryHandlers.
    destruct (String.eqb_spec (JSONRequestHandler.cmd req) "addHandler") as [E1|E1].
    { destruct (JSONRequestHandler.addHandler req (LogManager.with_heap s h)) as [ok s'].
      split.
      - intros [A | [A | [A _]]]; [ discriminate A | discriminate A | contradiction ].
      - intros Hn. specialize (NC' Hn _ _ eq_refl). simpl in NC'. rewrite E1 in NC'.
        discriminate NC'. }
    destruct (String.eqb_spec (JSONRequestHandler.cmd req) "removeHandler") as [E2|E2].
    { split.
      - intros [A | [A | [_ A]]]; [ discriminate A | discriminate A | contradiction ].
      - intros Hn. specialize (NC' Hn _ _ eq_refl). simpl in NC'. rewrite E2 in NC'.
        discriminate NC'. }
    destruct (String.eqb_spec (JSONRequestHandler.cmd req) "enumHandlers") as [E3|E3].
    + split.
      * intros _. split; [ exists h; reflexivity | ].
        split; [ split; [ intros _; repeat split; [ discriminate | discriminate | exact E3 ]
                        | reflexivity ] | ].
        f_equal. simpl LogManager.factoryHandlers_. apply fold_left_written.
      * intros Hn. specialize (NC' Hn _ _ eq_refl). simpl in NC'. rewrite E3 in NC'.
        discriminate NC'.
    + split.
      * intros _. split; [ exists h; reflexivity | ].
        split; [ split; [ discriminate | intros [_ [_ A]]; contradiction ] | reflexivity ].
      * intros _. split; reflexivity.
  - split.
    + intros _. split; [ exists h; reflexivity | ].
      split; [ split; [ discriminate | intros [_ [A _]]; exfalso; apply A; reflexivity ]
             | reflexivity ].
    + intros _. split; reflexivity.
Qed.

End RequestFacts.

Lemma unknown_level_name_rejects_request_witness :
  exists h,
    JSONRequestHandler.process
      (JSON_OBJECT [("lvl", JSON_STRING "debug"); ("cmd", JSON_STRING "enumHandlers")])
      (manager_with [one_handler 20 LOG_LEVEL_WARN])
    = (false, None, LogManager.with_heap (manager_with [one_handler 20 LOG_LEVEL_WARN]) h).
Proof.
  apply (unknown_level_name_rejects_request
           [("lvl", JSON_STRING "debug"); ("cmd", JSON_STRING "enumHandlers")]
           (JSON_STRING "debug") (manager_with [one_handler 20 LOG_LEVEL_WARN])).
  - simpl. intros [H|[H|[H|[H|[H|[H|[H|[]]]]]]]]; discriminate H.
  - left. left. reflexivity.
Defined.

(** * Members of objects *)

(** X14: [parseObject] never fails.  It takes the type from the last
    member named "type" and the parameters from the last member named
    "params"; every other member is ignored, and a field without such a
    member keeps its value. *)
Theorem parseObject_last_member_wins :
  forall v o,
    let '(ok, o') := JSONRequestHandler.parseObject v o in
    ok = true /\
    JSONRequestHandler.type o'
    = match find (fun it => String.eqb (fst it) "type") (rev (JSON.members v)) with
      | Some it => JSON.toString (snd it)
      | None => JSONRequestHandler.type o
      end /\
    JSONRequestHandler.params o'
    = match find (fun it => String.eqb (fst it) "params") (rev (JSON.members v)) with
      | Some it => snd it
      | None => JSONRequestHandler.params o
      end.
Proof.
  intros v o. unfold JSONRequestHandler.parseObject. split; [ reflexivity | ].
  generalize (JSON.members v) as ms. intros ms. revert o.
  induction ms as [|m ms IH] using rev_ind; intros o; [ split; reflexivity | ].
  rewrite fold_left_app, rev_app_distr. simpl.
  destruct (IH o) as [IH1 IH2].
  destruct (String.eqb_spec (fst m) "type") as [E|E]; simpl.
  - split; [ reflexivity | ].
    rewrite E. simpl. exact IH2.
  - destruct (String.eqb (fst m) "params"); simpl; split;
      first [ exact IH1 | exact IH2 | reflexivity ].
Qed.




(** X16: a stream of the default factory is one of the three serial ports.
    [createStream] begins the port and [destroyStream] ends it, so that
    creating and destroying a stream leaves the devices as they were when
    the ports were not in use; and the port is ended for every user of it,
    however often it was begun.  Neither gives the static ports to
    [delete].  A failing [createStream] touches no device. *)
Theorem default_streams_begin_and_end :
  forall cfg type params w,
    match DefaultOutputStreamFactory.createStream cfg type params w with
    | (None, w') => w' = w
    | (Some strm, w') =>
        PLATFORM_ID cfg <> 3 /\
        Devices.deleted w' = Devices.deleted w /\
        (Devices.Serial_begun w = false -> Devices.USBSerial1_begun w = false ->
         Devices.Serial1_begun w = None ->
         DefaultOutputStreamFactory.destroyStream cfg strm w' = w) /\
        ((strm = Devices.Serial /\ type = "Serial" /\ Devices.Serial_begun w' = true /\
          forall w2, Devices.Serial_begun (DefaultOutputStreamFactory.destroyStream cfg strm w2) = false /\
                     Devices.deleted (DefaultOutputStreamFactory.destroyStream cfg strm w2)
                     = Devices.deleted w2) \/
         (strm = Devices.USBSerial1 /\ type = "USBSerial1" /\ Devices.USBSerial1_begun w' = true /\
          forall w2, Devices.USBSerial1_begun (DefaultOutputStreamFactory.destroyStream cfg strm w2) = false /\
                     Devices.deleted (DefaultOutputStreamFactory.destroyStream cfg strm w2)
                     = Devices.deleted w2) \/
         (strm = Devices.Serial1 /\ type = "Serial1" /\ Devices.Serial1_begun w' <> None /\
          forall w2, Devices.Serial1_begun (DefaultOutputStreamFactory.destroyStream cfg strm w2) = None /\
                     Devices.deleted (DefaultOutputStreamFactory.destroyStream cfg strm w2)
                     = Devices.deleted w2))
    end.
Proof.
  intros cfg type params w.
  unfold DefaultOutputStreamFactory.createStream, DefaultOutputStreamFactory.destroyStream.
  destruct (Z.eqb_spec (PLATFORM_ID cfg) 3) as [E|E]; [ reflexivity | ].
  destruct (String.eqb_spec type "Serial") as [E1|E1].
  { split; [ exact E | ]. split; [ reflexivity | ]. split.
    - simpl. destruct w; simpl. intros -> _ _. reflexivity.
    - left. simpl. repeat split; assumption. }
  destruct (Wiring_USBSerial1 cfg) eqn:EU; simpl andb.
  - destruct (String.eqb_spec type "USBSerial1") as [E2|E2].
    { split; [ exact E | ]. split; [ reflexivity | ]. split.
      - simpl. destruct w; simpl. intros _ -> _. reflexivity.
      - right. left. simpl. repeat split; assumption. }
    destruct (String.eqb_spec type "Serial1") as [E3|E3]; [ | reflexivity ].
    split; [ exact E | ]. split; [ reflexivity | ]. split.
    + simpl. destruct w; simpl. intros _ _ ->. reflexivity.
    + right. right. simpl. repeat split; try assumption. discriminate.
  - destruct (String.eqb_spec type "Serial1") as [E3|E3]; [ | reflexivity ].
    split; [ exact E | ]. split; [ reflexivity | ]. split.
    + simpl. destruct w; simpl. intros _ _ ->. reflexivity.
    + right. right. simpl. repeat split; try assumption. discriminate.
Qed.

(** X17: the default handler factory creates a handler only for the types
    "StreamLogHandler" and "JSONStreamLogHandler", only with a stream, and
    only when the allocation succeeds; otherwise it returns null and
    neither devices nor addresses change.  The handler is a new object (the
    next handler gets another address), and it resolves every category with
    the filter built from the level and the filters given; destroying it
    gives its address to [delete]. *)
Theorem default_handlers_are_fresh :
  forall type level filters strm params w,
    match DefaultLogHandlerFactory.createHandler type level filters strm params w with
    | (Some h, w') =>
        (type = "StreamLogHandler" \/ type = "JSONStreamLogHandler") /\ strm <> None /\
        fst (alloc (Devices.new_heap w)) <> None /\
        LogHandler.addr h = Devices.next_addr w /\
        Devices.next_addr w' = S (Devices.next_addr w) /\
        (forall category,
            LogHandler.level h category
            = LogFilter.level
                (fst (LogFilter.new level filters (snd (alloc (Devices.new_heap w))))) category) /\
        Devices.deleted (DefaultLogHandlerFactory.destroyHandler h w')
        = LogHandler.addr h :: Devices.deleted w
    | (None, w') =>
        Devices.next_addr w' = Devices.next_addr w /\ Devices.deleted w' = Devices.deleted w /\
        Devices.Serial_begun w' = Devices.Serial_begun w /\
        Devices.USBSerial1_begun w' = Devices.USBSerial1_begun w /\
        Devices.Serial1_begun w' = Devices.Serial1_begun w /\
        ((type <> "StreamLogHandler" /\ type <> "JSONStreamLogHandler") \/ strm = None ->
         w' = w)
    end.
Proof.
  intros type level filters strm params w.
  assert (N : match DefaultLogHandlerFactory.new_handler level filters w with
              | (Some h, w') =>
                  fst (alloc (Devices.new_heap w)) <> None /\
                  LogHandler.addr h = Devices.next_addr w /\
                  Devices.next_addr w' = S (Devices.next_addr w) /\
                  (forall category,
                      LogHandler.level h category
                      = LogFilter.level
                          (fst (LogFilter.new level filters (snd (alloc (Devices.new_heap w)))))
                          category) /\
                  Devices.deleted (DefaultLogHandlerFactory.destroyHandler h w')
                  = LogHandler.addr h :: Devices.deleted w
              | (None, w') =>
                  Devices.next_addr w' = Devices.next_addr w /\
                  Devices.deleted w' = Devices.deleted w /\
                  Devices.Serial_begun w' = Devices.Serial_begun w /\
                  Devices.USBSerial1_begun w' = Devices.USBSerial1_begun w /\
                  Devices.Serial1_begun w' = Devices.Serial1_begun w
              end).
  { unfold DefaultLogHandlerFactory.new_handler.
    destruct (alloc (Devices.new_heap w)) as [[u|] h] eqn:EA; simpl.
    - destruct (LogFilter.new level filters h) as [f h'] eqn:EF. simpl.
      repeat split; try reflexivity. discriminate.
    - repeat split. }
  unfold DefaultLogHandlerFactory.createHandler.
  destruct (String.eqb_spec type "JSONStreamLogHandler") as [E1|E1].
  { destruct strm as [p|].
    - destruct (DefaultLogHandlerFactory.new_handler level filters w) as [[h|] w'].
      + destruct N as [N1 [N2 [N3 [N4 N5]]]].
        repeat split; try assumption; [ right; exact E1 | discriminate ].
      + destruct N as [N1 [N2 [N3 [N4 N5]]]]. repeat split; try assumption.
        intros [[_ A] | A]; [ contradiction | discriminate A ].
    - repeat split. }
  destruct (String.eqb_spec type "StreamLogHandler") as [E2|E2].
  { destruct strm as [p|].
    - destruct (DefaultLogHandlerFactory.new_handler level filters w) as [[h|] w'].
      + destruct N as [N1 [N2 [N3 [N4 N5]]]].
        repeat split; try assumption; [ left; exact E2 | discriminate ].
      + destruct N as [N1 [N2 [N3 [N4 N5]]]]. repeat split; try assumption.
        intros [[A _] | A]; [ contradiction | discriminate A ].
    - repeat split. }
  repeat split.
Qed.

(** * Requests and the stream factory *)

Section RequestStreams.
Context {W : Type}.
Implicit Types s : LogManager.t W.

Lemma destroyFactoryHandler_factories :
  forall s id0,
    LogManager.handlerFactory_ (LogManager.destroyFactoryHandler id0 s)
    = LogManager.handlerFactory_ s /\
    LogManager.streamFactory_ (LogManager.destroyFactoryHandler id0 s)
    = LogManager.streamFactory_ s.
Proof.
  intros s id0.
  destruct (split_first_id (LogManager.factoryHandlers_ s) id0) as [H | [l1 [r [l2 [E [H1 H2]]]]]].
  - unfold LogManager.destroyFactoryHandler. rewrite (destroy_loop_unknown _ _ _ _ H).
    split; reflexivity.
  - rewrite (destroyFactoryHandler_found s id0 l1 r l2 E H1 H2). simpl.
    destruct (destroy_record_factories r s) as [A [B _]]. split; assumption.
Qed.

(** X18: an addHandler request always asks for an output stream, of the
    type of its "strm" member and of the empty type when there is none; it
    is rejected when the manager has no stream factory or the factory has
    no stream of that type. *)
Theorem addHandler_request_needs_stream :
  forall s req,
    match LogManager.streamFactory_ s with
    | Some sf =>
        forall w, fst (createStream sf (JSONRequestHandler.type (JSONRequestHandler.stream req))
                         (JSONRequestHandler.params (JSONRequestHandler.stream req)) w) = None
    | None => True
    end ->
    fst (JSONRequestHandler.addHandler req s) = false.
Proof.
  intros s req H. unfold JSONRequestHandler.addHandler, LogManager.addFactoryHandler.
  destruct (destroyFactoryHandler_factories s (JSONRequestHandler.id req)) as [_ SF].
  set (d := LogManager.destroyFactoryHandler (JSONRequestHandler.id req) s) in *.
  destruct (try_alloc_inv d) as [b [h ->]].
  destruct (Nat.eqb _ 0); [ reflexivity | ].
  unfold LogManager.create_stream. simpl LogManager.streamFactory_. rewrite SF.
  destruct (LogManager.streamFactory_ s) as [sf|]; [ | reflexivity ].
  simpl LogManager.world. specialize (H (LogManager.world d)).
  destruct (createStream sf _ _ (LogManager.world d)) as [[p|] w]; [ discriminate H | reflexivity ].
Qed.

End RequestStreams.

Lemma addHandler_request_needs_stream_witness :
  fst (JSONRequestHandler.addHandler
         {| JSONRequestHandler.handler :=
              {| JSONRequestHandler.type := "StreamLogHandler";
                 JSONRequestHandler.params := JSON_INVALID |};
            JSONRequestHandler.stream := JSONRequestHandler.Object_new;
            JSONRequestHandler.filters := [];
            JSONRequestHandler.cmd := "addHandler";
            JSONRequestHandler.id := "h1";
            JSONRequestHandler.level := LOG_LEVEL_NONE |}
         (manager_with [])) = false.
Proof.
  apply (addHandler_request_needs_stream (manager_with [])). simpl. intros w. reflexivity.
Defined.

(** * Resolution by the longest prefix *)

Lemma find_node_other :
  forall l1 l2 x q,
    Node.name x <> q -> find_node (l1 ++ x :: l2) q = find_node (l1 ++ l2) q.
Proof.
  unfold find_node. induction l1 as [|a l1 IH]; intros l2 x q H; simpl.
  - destruct (String.eqb_spec (Node.name x) q); [ contradiction | reflexivity ].
  - destruct (String.eqb (Node.name a) q); [ reflexivity | apply IH; exact H ].
Qed.

Lemma find_node_middle :
  forall l1 l2 x n,
    Node.name x = n -> (forall a, In a l1 -> Node.name a <> n) ->
    find_node (l1 ++ x :: l2) n = Some x.
Proof.
  unfold find_node. induction l1 as [|a l1 IH]; intros l2 x n Hx H; simpl.
  - subst n. rewrite String.eqb_refl. reflexivity.
  - destruct (String.eqb_spec (Node.name a) n) as [E|E].
    + exfalso. apply (H a); [ left; reflexivity | exact E ].
    + apply IH; [ exact Hx | ]. intros b Hb. apply H. right. exact Hb.
Qed.

Lemma find_node_none :
  forall l n, (forall a, In a l -> Node.name a <> n) -> find_node l n = None.
Proof.
  unfold find_node. induction l as [|a l IH]; intros n H; simpl; [ reflexivity | ].
  destruct (String.eqb_spec (Node.name a) n) as [E|E].
  - exfalso. apply (H a); [ left; reflexivity | exact E ].
  - apply IH. intros b Hb. apply H. right. exact Hb.
Qed.

Lemma segment_compare_neq :
  forall a b, segment_compare a b <> Eq -> a <> b.
Proof. intros a b H E. subst b. apply H. apply segment_compare_refl. Qed.

(** What [nodeIndex] returns in a sorted sibling set, in terms of the node
    with the name. *)
Lemma nodeIndex_find :
  forall l v, well_formed l ->
    match LogFilter.nodeIndex l v (Z.of_nat (String.length v)) with
    | (i, true) =>
        exists x, nth_error l i = Some x /\ Node.name x = v /\ find_node l v = Some x /\
                  l = firstn i l ++ x :: skipn (S i) l /\
                  (forall a, In a (firstn i l) -> Node.name a <> v)
    | (i, false) =>
        (i <= List.length l)%nat /\ find_node l v = None /\
        (forall a, In a (firstn i l) -> Node.name a <> v) /\
        (forall a, In a (skipn i l) -> Node.name a <> v)
    end.
Proof.
  intros l v W. destruct (nodeIndex_spec l v W) as [B [L [F G]]].
  destruct (LogFilter.nodeIndex l v (Z.of_nat (String.length v))) as [i found].
  cbn [fst snd] in B, L, F, G.
  assert (L' : forall a, In a (firstn i l) -> Node.name a <> v).
  { intros a Ha. apply segment_compare_neq. rewrite (L a Ha). discriminate. }
  destruct found.
  - destruct (F eq_refl) as [x [Hx Ex]]. exists x.
    assert (Hsplit : l = firstn i l ++ x :: skipn (S i) l).
    { rewrite <- (skipn_nth_error _ _ _ _ Hx), firstn_skipn. reflexivity. }
    repeat split; try assumption.
    rewrite Hsplit. apply find_node_middle; assumption.
  - assert (G' : forall a, In a (skipn i l) -> Node.name a <> v).
    { intros a Ha. apply segment_compare_neq. rewrite (G eq_refl a Ha). discriminate. }
    repeat split; try assumption.
    apply find_node_none. intros a Ha. rewrite <- (firstn_skipn i l) in Ha.
    apply in_app_or in Ha. destruct Ha as [Ha|Ha]; [ apply L' | apply G' ]; exact Ha.
Qed.

(** The lookup of [level] is the walk along the names of the category. *)
Lemma level_loop_walk :
  forall fuel q nodes d,
    well_formed nodes ->
    LogFilter.level_loop fuel nodes q d = walk nodes (names_loop fuel q) d.
Proof.
  induction fuel as [|fuel IH]; intros q nodes d W; [ reflexivity | ].
  cbn [LogFilter.level_loop names_loop].
  destruct (nextSubcategoryName q) as [[[n z] q']|] eqn:E; [ | reflexivity ].
  pose proof (next_size q n z q' E) as Hz. subst z.
  pose proof (nodeIndex_find nodes n W) as F.
  destruct (LogFilter.nodeIndex nodes n (Z.of_nat (String.length n))) as [i found].
  destruct found; cbn [negb walk].
  - destruct F as [x [Hx [_ [Fx _]]]]. rewrite Hx, Fx.
    apply IH. apply (wf_In nodes x W (nth_error_In _ _ Hx)).
  - destruct F as [_ [Fx _]]. rewrite Fx. reflexivity.
Qed.

Lemma explicit_empty_tree : forall p, explicit [] p = None.
Proof. intros [|q p]; reflexivity. Qed.

Lemma explicit_missing :
  forall l q p, find_node l q = None -> explicit l (q :: p) = None.
Proof. intros l q p H. simpl. rewrite H. reflexivity. Qed.

Lemma longest_prefix_level_ext :
  forall e e' qs pre d,
    (forall p, p <> [] -> e (pre ++ p) = e' (pre ++ p)) ->
    longest_prefix_level e pre qs d = longest_prefix_level e' pre qs d.
Proof.
  intros e e'. induction qs as [|q qs IH]; intros pre d H; [ reflexivity | ].
  simpl. rewrite (H [q]) by discriminate. apply IH.
  intros p Hp. rewrite <- !app_assoc. apply H. discriminate.
Qed.

Lemma longest_prefix_level_shift :
  forall e qs pre0 pre d,
    longest_prefix_level e (pre0 ++ pre) qs d
    = longest_prefix_level (fun p => e (pre0 ++ p)) pre qs d.
Proof.
  intros e. induction qs as [|q qs IH]; intros pre0 pre d; [ reflexivity | ].
  simpl. rewrite <- !app_assoc. rewrite <- IH. rewrite <- ?app_assoc. reflexivity.
Qed.

(** The result is the default level or the level of a prefix. *)
Lemma longest_prefix_level_range :
  forall e qs pre d,
    longest_prefix_level e pre qs d = d \/
    exists p rest, p <> [] /\ qs = p ++ rest /\
                   e (pre ++ p) = Some (longest_prefix_level e pre qs d).
Proof.
  intros e. induction qs as [|q qs IH]; intros pre d; [ left; reflexivity | ].
  simpl.
  destruct (IH (pre ++ [q]) (match e (pre ++ [q]) with Some l => l | None => d end))
    as [E | [p [rest [Hp [Hq E]]]]].
  - rewrite E. destruct (e (pre ++ [q])) as [l|] eqn:El; [ | left; reflexivity ].
    right. exists [q], qs. repeat split; [ discriminate | exact El ].
  - right. exists (q :: p), rest. rewrite <- app_assoc in E. simpl in E.
    repeat split; [ discriminate | simpl; rewrite Hq; reflexivity | exact E ].
Qed.


Lemma walk_longest_prefix :
  forall qs l d, walk l qs d = longest_prefix_level (explicit l) [] qs d.
Proof.
  induction qs as [|q qs IH]; intros l d; [ reflexivity | ].
  cbn [walk longest_prefix_level app].
  destruct (find_node l q) as [x|] eqn:F.
  - assert (E1 : explicit l [q] = if 0 <=? Node.level x then Some (Node.level x) else None).
    { simpl. rewrite F. reflexivity. }
    rewrite E1.
    transitivity (longest_prefix_level (explicit l) [q] qs
                    (if 0 <=? Node.level x then Node.level x else d));
      [ | destruct (0 <=? Node.level x); reflexivity ].
    rewrite IH.
    change [q] with ([q] ++ (@nil string)). rewrite longest_prefix_level_shift.
    apply longest_prefix_level_ext. intros p Hp. simpl.
    rewrite F. destruct p as [|a p]; [ contradiction | reflexivity ].
  - rewrite (explicit_missing l q [] F).
    destruct (longest_prefix_level_range (explicit l) qs [q] d) as [E | [p [rest [Hp [_ E]]]]].
    + symmetry. exact E.
    + cbn [app] in E. rewrite (explicit_missing l q p F) in E. discriminate E.
Qed.

Lemma to_int16_plain : forall l, 0 <= l < 32768 -> to_int16 l = l.
Proof. intros l H. unfold to_int16. rewrite Z.mod_small by lia. lia. Qed.

Lemma complete_names :
  forall fuel c, complete fuel c = true -> names_loop fuel c <> [].
Proof.
  intros [|fuel] c H; simpl in *; [ discriminate H | ].
  destruct (nextSubcategoryName c) as [[[n z] c']|]; [ discriminate | discriminate H ].
Qed.

(** One round of the loop of the constructor, in terms of the nodes found by
    name: the node of the name is there afterwards, with the children that
    the rest of the loop leaves, and the other nodes are as before. *)
Lemma insert_loop_shape :
  forall fuel c pNodes lvl h r h' n c',
    well_formed pNodes ->
    Z.of_nat (String.length n) < 65536 ->
    nextSubcategoryName c = Some (n, Z.of_nat (String.length n), c') ->
    LogFilter.insert_loop (S fuel) pNodes c lvl h = (Some r, h') ->
    exists node children h1 x',
      LogFilter.insert_loop fuel (Node.nodes node) c' lvl h1 = (Some children, h') /\
      well_formed (Node.nodes node) /\
      find_node r n = Some x' /\
      Node.level x' = match c' with
                      | EmptyString => to_int16 lvl
                      | String _ _ => Node.level node
                      end /\
      Node.nodes x' = children /\
      (forall q, q <> n -> find_node r q = find_node pNodes q) /\
      (find_node pNodes n = Some node \/
       (find_node pNodes n = None /\ Node.level node = -1 /\ Node.nodes node = [])).
Proof.
  intros fuel c pNodes lvl h r h' n c' W Hsz E H.
  cbn [LogFilter.insert_loop] in H. rewrite E in H.
  pose proof (nodeIndex_find pNodes n W) as F.
  destruct (LogFilter.nodeIndex pNodes n (Z.of_nat (String.length n))) as [index found].
  destruct found.
  - destruct F as [node [Hn [En [Fn [Hsplit L]]]]].
    unfold bind in H. cbn [ret] in H. rewrite Hn in H.
    destruct (LogFilter.insert_loop fuel (Node.nodes node) c' lvl h)
      as [[children|] h1] eqn:EI; [ | discriminate H ].
    injection H as <- <-.
    exists node, children, h. eexists.
    split; [ exact EI | ].
    split; [ apply (wf_In pNodes node W (nth_error_In _ _ Hn)) | ].
    unfold Array.set.
    split; [ apply find_node_middle; [ exact En | exact L ] | ].
    split; [ reflexivity | ]. split; [ reflexivity | ].
    split; [ | left; exact Fn ].
    intros q Hq. rewrite find_node_other by (cbn [Node.name]; congruence).
    remember (firstn index pNodes) as l1. remember (skipn (S index) pNodes) as l2.
    rewrite Hsplit. rewrite find_node_other by congruence. reflexivity.
  - destruct F as [B [Fn [L G]]].
    assert (Hlen : List.length (firstn index pNodes) = index) by (apply firstn_length_le; exact B).
    unfold bind in H.
    destruct (Array.insert pNodes index (Node.new n (Z.of_nat (String.length n))) h)
      as [[pNodes1|] h1] eqn:EA; [ | discriminate H ].
    assert (E1 : pNodes1 = firstn index pNodes
                           ++ Node.new n (Z.of_nat (String.length n))
                           :: skipn index pNodes).
    { unfold Array.insert, bind, ret in EA.
      destruct (alloc h) as [[u|] h2]; [ | discriminate EA ].
      injection EA as <- _. reflexivity. }
    subst pNodes1.
    rewrite (nth_error_middle _ _ _ _ _ Hlen) in H.
    cbn [Node.new Node.nodes Node.name Node.size Node.level] in H.
    destruct (LogFilter.insert_loop fuel [] c' lvl h1) as [[children|] h2] eqn:EI;
      [ | discriminate H ].
    injection H as <- <-.
    rewrite (set_middle _ _ _ _ _ _ Hlen).
    exists (Node.new n (Z.of_nat (String.length n))), children, h1. eexists.
    split; [ exact EI | ].
    split; [ constructor | ].
    split; [ apply find_node_middle; [ reflexivity | exact L ] | ].
    split; [ reflexivity | ]. split; [ reflexivity | ].
    split; [ | right; repeat split; exact Fn ].
    intros q Hq. rewrite find_node_other by (cbn [Node.name]; congruence).
    rewrite firstn_skipn. reflexivity.
Qed.

(** The effect of one filter on the levels that the tree holds: the path
    of the names of its category gets the level, when the constructor takes
    the category to its end; nothing else changes. *)
Lemma insert_loop_explicit :
  forall fuel c pNodes lvl h r h',
    well_formed pNodes ->
    LogFilter.short_names fuel c = true ->
    0 <= lvl < 32768 ->
    LogFilter.insert_loop fuel pNodes c lvl h = (Some r, h') ->
    forall p,
      explicit r p
      = if complete fuel c then
          if list_eq_dec string_dec (names_loop fuel c) p then Some lvl else explicit pNodes p
        else explicit pNodes p.
Proof.
  induction fuel as [|fuel IH]; intros c pNodes lvl h r h' W Hshort Hlvl H p.
  - simpl in H. injection H as <- _. reflexivity.
  - pose proof H as H0.
    cbn [LogFilter.insert_loop LogFilter.short_names complete names_loop] in H, Hshort |- *.
    destruct (nextSubcategoryName c) as [[[n z] c']|] eqn:E;
      [ | injection H as <- _; reflexivity ].
    apply andb_true_iff in Hshort. destruct Hshort as [Hsz Hrest].
    apply Z.ltb_lt in Hsz.
    pose proof (next_size c n z c' E) as Hz. subst z.
    destruct (insert_loop_shape fuel c pNodes lvl h r h' n c' W Hsz E H0)
      as [node [children [h1 [x' [EI [Wn [Fx [Lx [Nx [Fo Fp]]]]]]]]]].
    clear H H0.
    assert (Q : forall p', p' <> [] -> explicit pNodes (n :: p') = explicit (Node.nodes node) p').
    { intros p' Hp. destruct p' as [|a p']; [ contradiction | ].
      destruct Fp as [Fp | [Fp [_ Fe]]].
      - cbn [explicit]. rewrite Fp. reflexivity.
      - rewrite (explicit_missing _ _ _ Fp), Fe, explicit_empty_tree. reflexivity. }
    assert (Q1 : explicit pNodes [n]
                 = if 0 <=? Node.level node then Some (Node.level node) else None).
    { destruct Fp as [Fp | [Fp [Fl _]]].
      - cbn [explicit]. rewrite Fp. reflexivity.
      - rewrite (explicit_missing _ _ _ Fp), Fl. reflexivity. }
    destruct p as [|q p'].
    { (* the empty path has no level *)
      cbn [explicit].
      destruct c'; [ | destruct (complete fuel _) ];
        try (destruct (list_eq_dec string_dec _ []) as [D|D]; [ discriminate D | ]); reflexivity. }
    destruct (string_dec q n) as [->|Hq].
    + assert (L1 : explicit r (n :: p')
                   = match p' with
                     | [] => if 0 <=? Node.level x' then Some (Node.level x') else None
                     | _ :: _ => explicit children p'
                     end).
      { cbn [explicit]. rewrite Fx, Nx. reflexivity. }
      rewrite L1. clear L1.
      destruct c' as [|a c'].
      * (* the last subcategory name *)
        assert (EC : children = Node.nodes node).
        { destruct fuel; simpl in EI; injection EI as <- _; reflexivity. }
        assert (EN : names_loop fuel EmptyString = []) by (destruct fuel; reflexivity).
        rewrite EN, Lx, (to_int16_plain lvl Hlvl).
        destruct p' as [|b p'].
        -- destruct (list_eq_dec string_dec [n] [n]) as [D|D]; [ | contradiction ].
           destruct (Z.leb_spec 0 lvl); [ reflexivity | lia ].
        -- destruct (list_eq_dec string_dec [n] (n :: b :: p')) as [D|D]; [ discriminate D | ].
           rewrite Q by discriminate. rewrite EC. reflexivity.
      * (* the loop goes on below the node *)
        specialize (IH (String a c') (Node.nodes node) lvl h1 children h' Wn Hrest Hlvl EI).
        rewrite Lx.
        destruct p' as [|b p'].
        -- rewrite Q1.
           destruct (complete fuel (String a c')) eqn:EC; [ | reflexivity ].
           destruct (list_eq_dec string_dec (n :: names_loop fuel (String a c')) [n]) as [D|D];
             [ | reflexivity ].
           exfalso. injection D as D. exact (complete_names _ _ EC D).
        -- rewrite (IH (b :: p')). rewrite Q by discriminate.
           destruct (complete fuel (String a c')); [ | reflexivity ].
           destruct (list_eq_dec string_dec (names_loop fuel (String a c')) (b :: p')) as [D|D];
             destruct (list_eq_dec string_dec (n :: names_loop fuel (String a c')) (n :: b :: p'))
               as [D'|D']; try reflexivity.
           ++ exfalso. apply D'. rewrite D. reflexivity.
           ++ exfalso. apply D. injection D' as D'. exact D'.
    + (* another root of the path *)
      assert (L1 : explicit r (q :: p') = explicit pNodes (q :: p')).
      { cbn [explicit]. rewrite (Fo q Hq). reflexivity. }
      rewrite L1.
      destruct c' as [|a c']; [ | destruct (complete fuel _) ];
        try (destruct (list_eq_dec string_dec _ (q :: p')) as [D|D];
             [ exfalso; injection D as D1 D2; apply Hq; symmetry; exact D1 | ]);
        reflexivity.
Qed.

Lemma process_filters_explicit :
  forall fs nodes h r h',
    (forall f, In f fs -> plain_filter f) ->
    well_formed nodes ->
    LogFilter.process_filters fs nodes h = (Some r, h') ->
    forall p,
      explicit r p = match last_level fs p with
                     | Some l => Some l
                     | None => explicit nodes p
                     end.
Proof.
  induction fs as [|f fs IH]; intros nodes h r h' Hp W H p; simpl in H.
  - injection H as <- _. reflexivity.
  - assert (Hf : plain_filter f) by (apply Hp; left; reflexivity).
    assert (Hrest : forall g, In g fs -> plain_filter g)
      by (intros g Hg; apply Hp; right; exact Hg).
    destruct Hf as [Hshort Hlvl]. unfold LogFilter.short_filter in Hshort.
    cbn [last_level].
    destruct (cat_ f) as [c|].
    + unfold bind in H.
      destruct (LogFilter.insert_loop (String.length c) nodes c (level_ f) h)
        as [[nodes1|] h1] eqn:EI; [ | discriminate H ].
      rewrite (IH nodes1 h1 r h' Hrest (insert_loop_wf _ _ _ _ _ _ _ W Hshort EI) H p).
      rewrite (insert_loop_explicit _ _ _ _ _ _ _ W Hshort Hlvl EI p).
      unfold names.
      destruct (last_level fs p); [ reflexivity | ].
      destruct (complete (String.length c) c); [ | reflexivity ].
      destruct (list_eq_dec string_dec (names_loop (String.length c) c) p); reflexivity.
    + rewrite (IH nodes h r h' Hrest W H p).
      destruct (last_level fs p); reflexivity.
Qed.

(** The constructed filter resolves by the longest prefix. *)
Lemma level_resolve :
  forall d fs h q,
    LogFilter.constructed fs h = true ->
    (forall f, In f fs -> plain_filter f) ->
    LogFilter.level (fst (LogFilter.new d fs h)) (Some q) = resolve d fs q.
Proof.
  intros d fs h q HC Hp.
  unfold LogFilter.constructed in HC. unfold LogFilter.new.
  destruct (LogFilter.build fs h) as [[[cats nodes]|] h'] eqn:EB; [ | discriminate HC ].
  assert (EP : exists h1, LogFilter.process_filters fs [] h1 = (Some nodes, h')).
  { unfold LogFilter.build, bind in EB.
    destruct (Array.reserve (List.length fs) h) as [[u|] h1]; [ | discriminate EB ].
    destruct (LogFilter.process_filters fs [] h1) as [[nodes'|] h2] eqn:EP; [ | discriminate EB ].
    unfold ret in EB. injection EB as _ <- <-. exists h1. exact EP. }
  destruct EP as [h1 EP].
  assert (W : well_formed nodes).
  { apply (process_filters_wf fs [] h1 nodes h'); [ | constructor | exact EP ].
    intros f Hf. apply (Hp f Hf). }
  assert (EL : LogFilter.level {| LogFilter.cats_ := cats; LogFilter.nodes_ := nodes;
                                  LogFilter.level__ := d |} (Some q)
               = walk nodes (names q) d).
  { unfold LogFilter.level. cbn [LogFilter.nodes_ LogFilter.level__].
    destruct nodes as [|x nodes].
    - destruct (names q); reflexivity.
    - apply level_loop_walk. exact W. }
  cbn [fst]. rewrite EL, walk_longest_prefix. unfold resolve.
  apply longest_prefix_level_ext. intros p _. cbn [app].
  rewrite (process_filters_explicit fs [] h1 nodes h' Hp wf_nil EP p), explicit_empty_tree.
  destruct (last_level fs p); reflexivity.
Qed.



(** X19: a filter constructed without an allocation failure, from
    categories whose names are shorter than 65536 bytes and levels in the
    range of int16_t, resolves a category as the specification words it:
    the filter of the longest prefix of the category's names decides, among
    filters of the same names the last one, and the default level when no
    filter applies.  Filters whose category is null, or empty, or has an
    empty name before its end, give no level. *)
Theorem level_is_longest_prefix :
  forall d fs h q,
    LogFilter.constructed fs h = true ->
    (forall f, In f fs -> plain_filter f) ->
    LogFilter.level (fst (LogFilter.new d fs h)) (Some q) = resolve d fs q.
Proof. exact level_resolve. Qed.



Lemma level_loop_trailing_dot :
  forall n q, (String.length q <= n)%nat ->
    forall nodes d,
      LogFilter.level_loop (String.length (q ++ String dot EmptyString)%string) nodes
        (q ++ String dot EmptyString)%string d
      = LogFilter.level_loop (String.length q) nodes q d.
Proof.
  induction n as [|n IH]; intros q Hq nodes d.
  - destruct q; [ reflexivity | simpl in Hq; lia ].
  - destruct (category_shapes q) as [E [->|[r ->]] | Hd Hne E | n0 r -> Hd Hne E].
    + reflexivity.
    + rewrite !level_loop_step. reflexivity.
    + rewrite !level_loop_step. rewrite (next_dot q EmptyString Hd Hne), E. reflexivity.
    + rewrite app_dot_assoc. rewrite !level_loop_step. rewrite !(next_dot n0 _ Hd Hne).
      destruct (LogFilter.nodeIndex nodes n0 (Z.of_nat (String.length n0))) as [i found].
      destruct (negb found); [ reflexivity | ].
      destruct (nth_error nodes i); [ | reflexivity ].
      apply IH. rewrite length_append in Hq. simpl in Hq. lia.
Qed.

(** X22: a '.' at the end of a category makes no difference to the level
    that the category resolves to, for every filter. *)
Theorem trailing_dot_ignored :
  forall f q,
    LogFilter.level f (Some (q ++ String dot EmptyString)%string) = LogFilter.level f (Some q).
Proof.
  intros f q. unfold LogFilter.level.
  destruct (LogFilter.nodes_ f) as [|x l]; [ reflexivity | ].
  apply (level_loop_trailing_dot (String.length q)). lia.
Qed.

Lemma scenario_filters_plain :
  forall f, In f scenario_filters -> plain_filter f.
Proof.
  intros f Hf. unfold scenario_filters in Hf.
  repeat (destruct Hf as [<-|Hf];
          [ split; [ reflexivity | split; [ discriminate | reflexivity ] ] | ]).
  destruct Hf.
Qed.

Lemma level_is_longest_prefix_witness :
  LogFilter.level (fst (LogFilter.new LOG_LEVEL_NONE scenario_filters [])) (Some "a.b.c.d")
  = resolve LOG_LEVEL_NONE scenario_filters "a.b.c.d".
Proof.
  apply (level_is_longest_prefix LOG_LEVEL_NONE scenario_filters [] "a.b.c.d").
  - reflexivity.
  - exact scenario_filters_plain.
Defined.







(** X24: [nextSubcategoryName] splits a category at its first '.': it
    returns null for an empty category and for one that begins with '.';
    otherwise the name is not empty and has no '.', the size is its length,
    and the category is advanced past the name and one '.', to a strictly
    shorter string. *)
Theorem nextSubcategoryName_splits :
  forall c,
    match nextSubcategoryName c with
    | None => c = EmptyString \/ exists r, c = String dot r
    | Some (n, z, c') =>
        n <> EmptyString /\ no_dot n /\ z = Z.of_nat (String.length n) /\
        ((c = n /\ c' = EmptyString) \/ c = (n ++ String dot c')%string) /\
        (String.length c' < String.length c)%nat
    end.
Proof.
  intros c. pose proof (next_shorter c) as S.
  destruct (category_shapes c) as [E H | Hd Hne E | n r -> Hd Hne E]; rewrite E in S |- *.
  - exact H.
  - repeat split; try assumption; [ left; split; reflexivity | apply (S _ _ _ eq_refl) ].
  - repeat split; try assumption; [ right; reflexivity | apply (S _ _ _ eq_refl) ].
Qed.



(** * Levels enabled after an addition *)

Lemma logEnabled_with_one_more :
  forall (W : Type) (s s' : LogManager.t W) h,
    LogManager.activeHandlers_ s' = LogManager.activeHandlers_ s ++ [h] ->
    forall level category,
      LogManager.logEnabled level category s'
      = LogManager.logEnabled level category s || (level >=? LogHandler.level h category).
Proof.
  intros W s s' h H level category. unfold LogManager.logEnabled.
  rewrite H, fold_left_app. cbn [fold_left]. unfold LogManager.logEnabled_body at 1.
  set (m := fold_left (LogManager.logEnabled_body category) (LogManager.activeHandlers_ s)
              LOG_LEVEL_NONE).
  rewrite !Z.geb_leb.
  destruct (Z.ltb_spec (LogHandler.level h category) m);
    destruct (Z.leb_spec m level); destruct (Z.leb_spec (LogHandler.level h category) level);
    simpl; try reflexivity; lia.
Qed.

Section EnabledAfterAddition.
Context {W : Type}.
Implicit Types s : LogManager.t W.

(** X26: a handler that was added is consulted from then on.  After a
    successful [addHandler] a level is enabled for a category when it was
    enabled before or the handler takes it; after a successful
    [addFactoryHandler] when it is enabled without the record of the id or
    the new handler, which is the last active one, takes it. *)
Theorem added_handler_is_consulted :
  (forall s h,
      fst (LogManager.addHandler h s) = true ->
      forall level category,
        LogManager.logEnabled level category (snd (LogManager.addHandler h s))
        = LogManager.logEnabled level category s || (level >=? LogHandler.level h category)) /\
  (forall s id0 ht lvl fs hp st sp,
      let r := LogManager.addFactoryHandler id0 ht lvl fs hp st sp s in
      fst r = true ->
      exists hnd,
        last (LogManager.activeHandlers_ (snd r)) hnd = hnd /\
        In hnd (LogManager.activeHandlers_ (snd r)) /\
        forall level category,
          LogManager.logEnabled level category (snd r)
          = LogManager.logEnabled level category (LogManager.removeFactoryHandler id0 s)
            || (level >=? LogHandler.level hnd category)).
Proof.
  split.
  - intros s h H level category. apply logEnabled_with_one_more.
    unfold LogManager.addHandler in *.
    destruct (LogManager.contains (LogManager.activeHandlers_ s) h); [ discriminate H | ].
    destruct (try_alloc_inv s) as [b [h0 E]]. rewrite E in *.
    destruct b; [ | discriminate H ]. simpl.
    destruct (Nat.eqb (List.length (LogManager.activeHandlers_ s ++ [h])) 1); reflexivity.
  - intros s id0 ht lvl fs hp st sp r H.
    destruct (addFactoryHandler_outcome s id0 ht lvl fs hp st sp) as [_ [_ A]].
    destruct (A H) as [hnd [strm [E _]]]. exists hnd. fold r in E.
    split; [ rewrite E; apply last_last | ].
    split; [ rewrite E; apply in_or_app; right; left; reflexivity | ].
    intros level category. apply logEnabled_with_one_more. exact E.
Qed.

End EnabledAfterAddition.
